(** * Sound-masking engine: detector, noise generator, gain stages, auto tuner

    A shallow embedding of the audio core of the sound-masking application
    (ImpactDetector.ts, the noise-processor worklet, AudioEngine.ts and
    AutoTuner.ts) together with the properties of its specification.

    Numbers.  JavaScript numbers are modelled by the real numbers [R]: every
    arithmetic operation is exact.  Where the source can read a missing
    value ([Map.get] on an absent key, an index past the end of a typed
    array) the model says so with [option] or with the explicit [NaN]
    constructor of the sample type. *)

From Stdlib Require Import Reals Lra Lia ZArith List String.
From Stdlib.Strings Require Import Byte.
From stdpp Require Import gmap strings.
Import ListNotations.
Open Scope R_scope.

(** ** JavaScript helpers *)

Module Js.

(** [Math.round]: the nearest integer, halves rounded towards +infinity. *)
Definition Math_round (x : R) : Z := Int_part (x + / 2).

(** [v || dflt] on the result of a [Map.get]: [undefined] and the number
    [0] are both falsy and select the right operand. *)
Definition or_default (v : option R) (dflt : R) : R :=
  match v with
  | Some x => if Req_dec_T x 0 then dflt else x
  | None => dflt
  end.

(** [x === 0]. *)
Definition is_zero (x : R) : bool := if Req_dec_T x 0 then true else false.

(** A [Set<string>]: insertion-ordered, without duplicates. *)
Definition set_add (x : string) (s : list string) : list string :=
  if existsb (String.eqb x) s then s else s ++ [x].

Definition set_delete (x : string) (s : list string) : list string :=
  List.filter (fun y => negb (String.eqb x y)) s.

End Js.

(** ** ImpactDetector.ts *)

Module ImpactDetector.

Record DetectionBand := mkBand {
  band_id : string;
  minFreq : R;
  maxFreq : R
}.

Definition DETECTION_BANDS : list DetectionBand :=
  [ mkBand "ultra_low" 20 50;
    mkBand "footsteps" 50 100;
    mkBand "light_impact" 100 300;
    mkBand "hard_impact" 300 1000;
    mkBand "low_freq" 50 250;
    mkBand "voice_male" 100 500;
    mkBand "voice_female" 300 3000;
    mkBand "high_freq" 2000 8000 ].

Record SimpleMode := mkMode {
  mode_id : string;
  bandIds : list string
}.

Definition SIMPLE_MODES : list SimpleMode :=
  [ mkMode "footsteps_all" ["ultra_low"; "footsteps"; "light_impact"];
    mkMode "impact_all" ["ultra_low"; "footsteps"; "light_impact"; "hard_impact"];
    mkMode "voice_all" ["voice_male"; "voice_female"];
    mkMode "all" [] ].

(** Which of the two optional callbacks the owner registered. *)
Record DetectionCallbacks := mkCallbacks {
  onImpact : bool;
  onNoiseScoreUpdate : bool
}.

Record t := mk {
  frequencyData : list byte;
  callbacks : DetectionCallbacks;
  isRunning : bool;
  sensitivity : R;
  enabledBandIds : list string;
  isSimpleMode : bool;
  baselineEnergies : gmap string R;
  impactCooldownFrames : nat;
  noiseScore : R;
  reactiveEnabled : bool;
  adaptiveSpeed : R;
  currentNoiseGain : R;
  sampleRate : R
}.

Definition BASELINE_SMOOTHING : R := 0.98.
Definition MAX_IMPACT_COOLDOWN : nat := 20.

(** [analyser.fftSize = 2048], hence 1024 frequency bins. *)
Definition frequencyBinCount : Z := 1024.

(** Field updates ([this.f = v]). *)
Definition with_frequencyData (d : t) (v : list byte) : t :=
  mk v (callbacks d) (isRunning d) (sensitivity d) (enabledBandIds d)
     (isSimpleMode d) (baselineEnergies d) (impactCooldownFrames d)
     (noiseScore d) (reactiveEnabled d) (adaptiveSpeed d)
     (currentNoiseGain d) (sampleRate d).

Definition with_isRunning (d : t) (v : bool) : t :=
  mk (frequencyData d) (callbacks d) v (sensitivity d) (enabledBandIds d)
     (isSimpleMode d) (baselineEnergies d) (impactCooldownFrames d)
     (noiseScore d) (reactiveEnabled d) (adaptiveSpeed d)
     (currentNoiseGain d) (sampleRate d).

Definition with_sensitivity (d : t) (v : R) : t :=
  mk (frequencyData d) (callbacks d) (isRunning d) v (enabledBandIds d)
     (isSimpleMode d) (baselineEnergies d) (impactCooldownFrames d)
     (noiseScore d) (reactiveEnabled d) (adaptiveSpeed d)
     (currentNoiseGain d) (sampleRate d).

Definition with_enabledBandIds (d : t) (v : list string) : t :=
  mk (frequencyData d) (callbacks d) (isRunning d) (sensitivity d) v
     (isSimpleMode d) (baselineEnergies d) (impactCooldownFrames d)
     (noiseScore d) (reactiveEnabled d) (adaptiveSpeed d)
     (currentNoiseGain d) (sampleRate d).

Definition with_isSimpleMode (d : t) (v : bool) : t :=
  mk (frequencyData d) (callbacks d) (isRunning d) (sensitivity d)
     (enabledBandIds d) v (baselineEnergies d) (impactCooldownFrames d)
     (noiseScore d) (reactiveEnabled d) (adaptiveSpeed d)
     (currentNoiseGain d) (sampleRate d).

Definition with_baselineEnergies (d : t) (v : gmap string R) : t :=
  mk (frequencyData d) (callbacks d) (isRunning d) (sensitivity d)
     (enabledBandIds d) (isSimpleMode d) v (impactCooldownFrames d)
     (noiseScore d) (reactiveEnabled d) (adaptiveSpeed d)
     (currentNoiseGain d) (sampleRate d).

Definition with_impactCooldownFrames (d : t) (v : nat) : t :=
  mk (frequencyData d) (callbacks d) (isRunning d) (sensitivity d)
     (enabledBandIds d) (isSimpleMode d) (baselineEnergies d) v
     (noiseScore d) (reactiveEnabled d) (adaptiveSpeed d)
     (currentNoiseGain d) (sampleRate d).

Definition with_noiseScore (d : t) (v : R) : t :=
  mk (frequencyData d) (callbacks d) (isRunning d) (sensitivity d)
     (enabledBandIds d) (isSimpleMode d) (baselineEnergies d)
     (impactCooldownFrames d) v (reactiveEnabled d) (adaptiveSpeed d)
     (currentNoiseGain d) (sampleRate d).

Definition with_reactiveEnabled (d : t) (v : bool) : t :=
  mk (frequencyData d) (callbacks d) (isRunning d) (sensitivity d)
     (enabledBandIds d) (isSimpleMode d) (baselineEnergies d)
     (impactCooldownFrames d) (noiseScore d) v (adaptiveSpeed d)
     (currentNoiseGain d) (sampleRate d).

Definition with_currentNoiseGain (d : t) (v : R) : t :=
  mk (frequencyData d) (callbacks d) (isRunning d) (sensitivity d)
     (enabledBandIds d) (isSimpleMode d) (baselineEnergies d)
     (impactCooldownFrames d) (noiseScore d) (reactiveEnabled d)
     (adaptiveSpeed d) v (sampleRate d).

Definition updateNoiseGain (d : t) (gain : R) : t :=
  with_currentNoiseGain d gain.

Definition getNoiseScore (d : t) : R := noiseScore d.

Definition setSimpleMode (d : t) (modeId : string) : t :=
  let d := with_isSimpleMode d true in
  let d := with_enabledBandIds d [] in
  let d := with_baselineEnergies d ∅ in
  match find (fun m => String.eqb (mode_id m) modeId) SIMPLE_MODES with
  | Some mode =>
      with_enabledBandIds d
        (fold_left (fun s i => Js.set_add i s) (bandIds mode) (enabledBandIds d))
  | None => d
  end.

Definition setDetailedMode (d : t) (ids : list string) : t :=
  let d := with_isSimpleMode d false in
  let d := with_enabledBandIds d [] in
  let d := with_baselineEnergies d ∅ in
  with_enabledBandIds d
    (fold_left (fun s i => Js.set_add i s) ids (enabledBandIds d)).

Definition toggleBand (d : t) (bandId : string) (enabled : bool) : t :=
  if enabled
  then with_enabledBandIds d (Js.set_add bandId (enabledBandIds d))
  else with_enabledBandIds d (Js.set_delete bandId (enabledBandIds d)).

(** The constructor: FFT size 2048, all fields at their initialisers, then
    [setSimpleMode('all')]. *)
Definition create (cb : DetectionCallbacks) (rate : R) : t :=
  setSimpleMode
    (mk (repeat x00 (Z.to_nat frequencyBinCount)) cb false 0.5 [] true ∅ 0 0
        true 0.5 0 rate)
    "all".

(** [start] without its first [loop] call, which the caller issues with the
    spectrum of that tick. *)
Definition start (d : t) : t :=
  if isRunning d then d
  else with_noiseScore (with_baselineEnergies (with_isRunning d true) ∅) 0.

Definition stop (d : t) : t := with_isRunning d false.

Definition freqToBin (d : t) (freq : R) : Z :=
  let nyquist := sampleRate d / 2 in
  Js.Math_round ((freq / nyquist) * IZR frequencyBinCount).

Definition byteVal (b : byte) : R := IZR (Z.of_N (Byte.to_N b)).

Definition getBandEnergy (d : t) (minF maxF : R) : R :=
  let minBin := Z.max 0 (freqToBin d minF) in
  let maxBin :=
    Z.min (Z.of_nat (length (frequencyData d)) - 1) (freqToBin d maxF) in
  if (minBin >=? maxBin)%Z then 0
  else
    let sum :=
      fold_left (fun acc i => acc + byteVal (nth i (frequencyData d) x00))
                (seq (Z.to_nat minBin) (Z.to_nat (maxBin - minBin + 1))) 0 in
    sum / IZR (maxBin - minBin + 1) / 255.

Definition updateBaseline (d : t) (bandId : string) (currentEnergy : R) : t :=
  let prevBaseline :=
    Js.or_default (baselineEnergies d !! bandId) currentEnergy in
  let noiseContribution := currentNoiseGain d * 0.3 in
  let newBaseline :=
    if Rlt_dec currentEnergy prevBaseline
    then prevBaseline * BASELINE_SMOOTHING
         + currentEnergy * (1 - BASELINE_SMOOTHING)
    else prevBaseline * 0.95 + currentEnergy * 0.05 in
  let minBaseline := noiseContribution in
  with_baselineEnergies d
    (<[bandId := Rmax newBaseline minBaseline]> (baselineEnergies d)).

(** The three locals that [loop] accumulates over the bands. *)
Record Deviations := mkDev {
  totalDeviation : R;
  maxDeviation : R;
  maxDeviationBandId : option string
}.

(** One iteration of the [for (const bandId of this.enabledBandIds)] body. *)
Definition analyseBand (acc : Deviations * t) (bandId : string)
  : Deviations * t :=
  let '(a, d) := acc in
  match find (fun b => String.eqb (band_id b) bandId) DETECTION_BANDS with
  | None => (a, d)
  | Some band =>
      let energy := getBandEnergy d (minFreq band) (maxFreq band) in
      let baseline := Js.or_default (baselineEnergies d !! bandId) energy in
      let deviation := Rmax 0 (energy - baseline) in
      let a1 :=
        if Rgt_dec deviation (maxDeviation a)
        then mkDev (totalDeviation a + deviation) deviation (Some bandId)
        else mkDev (totalDeviation a + deviation) (maxDeviation a)
                   (maxDeviationBandId a) in
      (a1, updateBaseline d bandId energy)
  end.

(** The deviation pass of [loop]: full spectrum when no band is enabled,
    otherwise band by band with the total averaged over the set size. *)
Definition analyse (d : t) : Deviations * t :=
  match enabledBandIds d with
  | [] =>
      let energy := getBandEnergy d 20 20000 in
      let baseline := Js.or_default (baselineEnergies d !! "all") energy in
      let deviation := Rmax 0 (energy - baseline) in
      (mkDev deviation deviation None, updateBaseline d "all" energy)
  | ids =>
      let '(a, d1) := fold_left analyseBand ids (mkDev 0 0 None, d) in
      (mkDev (totalDeviation a / INR (length ids)) (maxDeviation a)
             (maxDeviationBandId a), d1)
  end.

Definition impactThreshold (d : t) : R := 0.3 * (1.0 - sensitivity d) + 0.05.

(** What one tick hands to the registered callbacks. *)
Record TickOutput := mkOut {
  scoreUpdate : option R;
  impact : option (R * option string)
}.

(** The reactive block at the end of [loop]. *)
Definition detectImpact (d : t) (a : Deviations)
  : t * option (R * option string) :=
  if reactiveEnabled d && (impactCooldownFrames d =? 0)%nat then
    if Rgt_dec (maxDeviation a) (impactThreshold d) then
      let intensity := Rmin (maxDeviation a * 3) 1.0 in
      (with_impactCooldownFrames d MAX_IMPACT_COOLDOWN,
       if onImpact (callbacks d)
       then Some (intensity, maxDeviationBandId a) else None)
    else (d, None)
  else (d, None).

Definition tickCooldown (d : t) : t :=
  if (0 <? impactCooldownFrames d)%nat
  then with_impactCooldownFrames d (impactCooldownFrames d - 1)
  else d.

(** One invocation of [loop]; [spectrum] is what [getByteFrequencyData]
    writes into [frequencyData] on this tick. *)
Definition loop (d : t) (spectrum : list byte) : t * TickOutput :=
  if negb (isRunning d) then (d, mkOut None None)
  else
    let d0 := with_frequencyData d spectrum in
    let d1 := tickCooldown d0 in
    let '(a, d2) := analyse d1 in
    let smoothing := 0.92 in
    let d3 :=
      with_noiseScore d2
        (noiseScore d2 * smoothing + totalDeviation a * (1 - smoothing)) in
    let score :=
      if onNoiseScoreUpdate (callbacks d3) then Some (noiseScore d3)
      else None in
    let '(d4, ev) := detectImpact d3 a in
    (d4, mkOut score ev).

(** The deviations that the tick taken from [d] on [spectrum] measures. *)
Definition tickDeviations (d : t) (spectrum : list byte) : Deviations :=
  fst (analyse (tickCooldown (with_frequencyData d spectrum))).

(** What the owner's [onNoiseScoreUpdate] handler does to the detector
    during a tick: the engine reports its masking gain through
    [updateNoiseGain] ([None]: no report on this tick).  The report comes
    after the deviation pass and is not read by the reactive block, so it
    is applied to the state the tick leaves. *)
Definition report (d : t) (gain : option R) : t :=
  match gain with
  | Some g => updateNoiseGain d g
  | None => d
  end.

(** Consecutive ticks, one per animation frame: the spectrum of each tick
    and the gain reported during it. *)
Fixpoint run (d : t) (ticks : list (list byte * option R))
  : t * list TickOutput :=
  match ticks with
  | [] => (d, [])
  | (s, g) :: rest =>
      let '(d1, o) := loop d s in
      let '(d2, os) := run (report d1 g) rest in
      (d2, o :: os)
  end.



(** The baseline [loop] reads for a band ([get(bandId) || energy]). *)
Definition currentBaseline (d : t) (bandId : string) (e : R) : R :=
  Js.or_default (baselineEnergies d !! bandId) e.

(** Every field of the detector except the baseline map. *)
Definition controls (d : t) :=
  (frequencyData d, callbacks d, isRunning d, sensitivity d,
   enabledBandIds d, isSimpleMode d, impactCooldownFrames d, noiseScore d,
   reactiveEnabled d, adaptiveSpeed d, currentNoiseGain d, sampleRate d).



(** [newBaseline] of [updateBaseline] for the baseline [b] read for the
    band, with the smoothing constants written out. *)
Definition smoothed (b e : R) : R :=
  if Rlt_dec e b then b * 0.98 + e * 0.02 else b * 0.95 + e * 0.05.

End ImpactDetector.

(** ** The noise-processor worklet *)

(** The colour generators are the same code in the three copies of the
    worklet (the string embedded in AudioEngine.ts and the two
    noise-processor.ts files); they are written once here. *)
Module NoiseColors.

(** An element of an output channel.  [NaN] is what the multiplication by
    an [undefined] master gain (an index past the end of the parameter
    array) stores. *)
Inductive sample :=
| Num (x : R)
| NaN.

Record state := mkState {
  b0 : R; b1 : R; b2 : R; b3 : R; b4 : R; b5 : R; b6 : R;
  lastBrown : R;
  lastDark : R
}.

(** The field initialisers of the class. *)
Definition initial : state := mkState 0 0 0 0 0 0 0 0 0.

Record gains := mkGains {
  wGain : R;
  pGain : R;
  bGain : R;
  dGain : R
}.

(** [Math.random() * 2 - 1] for the draw [u] that [Math.random] returned. *)
Definition whiteOf (u : R) : R := u * 2 - 1.

(** The body of [if (pGain > 0)]: Paul Kellet's filter.  Returns the new
    state and the value of [pink]. *)
Definition pinkStep (s : state) (white : R) : state * R :=
  let n0 := 0.99886 * b0 s + white * 0.0555179 in
  let n1 := 0.99332 * b1 s + white * 0.0750759 in
  let n2 := 0.96900 * b2 s + white * 0.1538520 in
  let n3 := 0.86650 * b3 s + white * 0.3104856 in
  let n4 := 0.55000 * b4 s + white * 0.5329522 in
  let n5 := -0.7616 * b5 s - white * 0.0168980 in
  let pink := n0 + n1 + n2 + n3 + n4 + n5 + b6 s + white * 0.5362 in
  let n6 := white * 0.115926 in
  (mkState n0 n1 n2 n3 n4 n5 n6 (lastBrown s) (lastDark s), pink).

Definition with_lastBrown (s : state) (v : R) : state :=
  mkState (b0 s) (b1 s) (b2 s) (b3 s) (b4 s) (b5 s) (b6 s) v (lastDark s).

Definition with_lastDark (s : state) (v : R) : state :=
  mkState (b0 s) (b1 s) (b2 s) (b3 s) (b4 s) (b5 s) (b6 s) (lastBrown s) v.

(** [(this.lastBrown + (0.02 * white)) / 1.02] and its dark counterpart. *)
Definition brownNext (last white : R) : R := (last + (0.02 * white)) / 1.02.
Definition darkNext (last white : R) : R := (last + (0.005 * white)) / 1.005.

(** Steps 1 to 4 of the per-sample body: the four colours added to
    [mixedOutput], which starts at 0. *)
Definition mixColors (g : gains) (s : state) (white : R) : state * R :=
  let mixedOutput := 0 in
  let mixedOutput :=
    if Rgt_dec (wGain g) 0 then mixedOutput + white * wGain g
    else mixedOutput in
  let '(s, mixedOutput) :=
    if Rgt_dec (pGain g) 0 then
      let '(s1, pink) := pinkStep s white in
      (s1, mixedOutput + (pink * 0.11) * pGain g)
    else (s, mixedOutput) in
  let brownUpdate := brownNext (lastBrown s) white in
  let s := with_lastBrown s brownUpdate in
  let mixedOutput :=
    if Rgt_dec (bGain g) 0 then mixedOutput + (brownUpdate * 3.5) * bGain g
    else mixedOutput in
  let darkUpdate := darkNext (lastDark s) white in
  let s := with_lastDark s darkUpdate in
  let mixedOutput :=
    if Rgt_dec (dGain g) 0 then mixedOutput + (darkUpdate * 4.0) * dGain g
    else mixedOutput in
  (s, mixedOutput).

(** [masterGainParam.length > 1 ? masterGainParam[i] : masterGainParam[0]];
    [None] is [undefined]. *)
Definition masterGainAt (masterGain : list R) (i : nat) : option R :=
  if (1 <? length masterGain)%nat then nth_error masterGain i
  else nth_error masterGain 0.

(** [channel[i] = mixedOutput * mGain]. *)
Definition store (mixedOutput : R) (mGain : option R) : sample :=
  match mGain with
  | Some m => Num (mixedOutput * m)
  | None => NaN
  end.

(** [channel.fill(0)]. *)
Definition fill0 {A} (channel : list A) : list sample :=
  map (fun _ => Num 0) channel.

(** The seven states of the pink filter. *)
Definition pinkState (s : state) : R * R * R * R * R * R * R :=
  (b0 s, b1 s, b2 s, b3 s, b4 s, b5 s, b6 s).

(** The integrator of one colour run over the draws of a block. *)
Definition integrate (next : R -> R -> R) (last : R) (draws : list R) : R :=
  fold_left (fun x u => next x (whiteOf u)) draws last.

(** Bounds on the filter states that every sample step preserves. *)
Definition stable (s : state) : Prop :=
  -49 <= b0 s <= 49 /\ -12 <= b1 s <= 12 /\ -5 <= b2 s <= 5
  /\ -2.4 <= b3 s <= 2.4 /\ -1.2 <= b4 s <= 1.2 /\ -0.08 <= b5 s <= 0.08
  /\ -0.12 <= b6 s <= 0.12
  /\ -1 <= lastBrown s <= 1 /\ -1 <= lastDark s <= 1.

(** [Math.random()] returns values in [0, 1). *)
Definition uniformDraws (randoms : list (list R)) : Prop :=
  Forall (Forall (fun u => 0 <= u < 1)) randoms.

(** The host's contract for the a-rate [masterGain] array: values in the
    declared range [0, 1]; one element, or one per sample of the block. *)
Definition wellFormedMaster (masterGain : list R) (randoms : list (list R))
  : Prop :=
  Forall (fun m => 0 <= m <= 1) masterGain
  /\ (length masterGain = 1%nat
      \/ ((1 < length masterGain)%nat
          /\ Forall (fun ch => (length ch <= length masterGain)%nat) randoms)).

(** A sample that is a number of magnitude at most [bound]. *)
Definition finiteWithin (bound : R) (y : sample) : Prop :=
  exists x, y = Num x /\ - bound <= x <= bound.

End NoiseColors.

(** The worklet of AudioEngine.ts and of the second noise-processor.ts:
    four colours.  A render block is described by [randoms]: one list per
    channel of [outputs[0]], holding the values [Math.random()] returns for
    the samples of that channel, in call order. *)
Module NoiseProcessor.
Import NoiseColors.

Record parameters := mkParams {
  whiteGain : R;      (* parameters['whiteGain'][0], k-rate *)
  pinkGain : R;
  brownGain : R;
  darkGain : R;
  masterGain : list R (* a-rate: one value, or one per sample *)
}.

Definition gainsOf (p : parameters) : gains :=
  mkGains (whiteGain p) (pinkGain p) (brownGain p) (darkGain p).

(** The [for (let i = 0; i < len; i++)] loop over one channel, from index
    [i] on. *)
Fixpoint renderChannel (p : parameters) (s : state) (i : nat)
    (channel : list R) : state * list sample :=
  match channel with
  | [] => (s, [])
  | u :: rest =>
      let mGain := masterGainAt (masterGain p) i in
      let white := whiteOf u in
      let '(s1, mixedOutput) := mixColors (gainsOf p) s white in
      let '(s2, out) := renderChannel p s1 (S i) rest in
      (s2, store mixedOutput mGain :: out)
  end.

Fixpoint renderChannels (p : parameters) (s : state)
    (randoms : list (list R)) : state * list (list sample) :=
  match randoms with
  | [] => (s, [])
  | channel :: rest =>
      let '(s1, out) := renderChannel p s 0 channel in
      let '(s2, outs) := renderChannels p s1 rest in
      (s2, out :: outs)
  end.

Definition allZero (p : parameters) : bool :=
  Js.is_zero (whiteGain p) && Js.is_zero (pinkGain p)
  && Js.is_zero (brownGain p) && Js.is_zero (darkGain p).

Definition process (s : state) (p : parameters) (randoms : list (list R))
  : state * list (list sample) :=
  if allZero p then (s, map fill0 randoms)
  else renderChannels p s randoms.

(** The states a processor goes through: the initial one, and the one
    after any render call from such a state. *)
Inductive reachable : state -> Prop :=
| reachable_initial : reachable initial
| reachable_process s p randoms :
    reachable s -> uniformDraws randoms ->
    reachable (fst (process s p randoms)).

Definition gainsInRange (p : parameters) : Prop :=
  0 <= whiteGain p <= 1 /\ 0 <= pinkGain p <= 1
  /\ 0 <= brownGain p <= 1 /\ 0 <= darkGain p <= 1.

End NoiseProcessor.

(** The first noise-processor.ts: the four colours and the rumble
    oscillator bank. *)
Module RumbleNoiseProcessor.
Import NoiseColors.

Record state := mkState {
  colors : NoiseColors.state;
  rumblePhase1 : R;
  rumblePhase2 : R;
  rumblePhase3 : R;
  rumbleModPhase : R
}.

Definition initial : state := mkState NoiseColors.initial 0 0 0 0.

Record parameters := mkParams {
  whiteGain : R;
  pinkGain : R;
  brownGain : R;
  darkGain : R;
  rumbleGain : R;
  rumbleFreq : R;
  rumbleSpeed : R;
  masterGain : list R;
  globalSampleRate : option R   (* globalThis.sampleRate *)
}.

Definition gainsOf (p : parameters) : gains :=
  mkGains (whiteGain p) (pinkGain p) (brownGain p) (darkGain p).

(** [phase += inc; if (phase > 2 * Math.PI) phase -= 2 * Math.PI]. *)
Definition advance (phase inc : R) : R :=
  let phase := phase + inc in
  if Rgt_dec phase (2 * PI) then phase - 2 * PI else phase.

(** The body of [if (rGain > 0)]: new phases and the value added to
    [mixedOutput]. *)
Definition rumbleStep (p : parameters) (sampleRate : R) (s : state)
  : state * R :=
  let inc1 := (2 * PI * rumbleFreq p) / sampleRate in
  let inc2 := (2 * PI * rumbleFreq p * 1.13) / sampleRate in
  let inc3 := (2 * PI * rumbleFreq p * 1.31) / sampleRate in
  let modInc := (2 * PI * rumbleSpeed p) / sampleRate in
  let ph1 := advance (rumblePhase1 s) inc1 in
  let ph2 := advance (rumblePhase2 s) inc2 in
  let ph3 := advance (rumblePhase3 s) inc3 in
  let phm := advance (rumbleModPhase s) modInc in
  let rumble := sin ph1 * 0.5 + sin ph2 * 0.3 + sin ph3 * 0.2 in
  let modulation := 1.0 + sin phm * 0.3 in
  let rumble := rumble * modulation in
  (mkState (colors s) ph1 ph2 ph3 phm, rumble * rumbleGain p * 0.8).

Definition renderSample (p : parameters) (sampleRate : R) (s : state)
    (white : R) : state * R :=
  let '(c, mixedOutput) := mixColors (gainsOf p) (colors s) white in
  let s :=
    mkState c (rumblePhase1 s) (rumblePhase2 s) (rumblePhase3 s)
            (rumbleModPhase s) in
  if Rgt_dec (rumbleGain p) 0 then
    let '(s1, rumble) := rumbleStep p sampleRate s in
    (s1, mixedOutput + rumble)
  else (s, mixedOutput).

Fixpoint renderChannel (p : parameters) (sampleRate : R) (s : state)
    (i : nat) (channel : list R) : state * list sample :=
  match channel with
  | [] => (s, [])
  | u :: rest =>
      let mGain := masterGainAt (masterGain p) i in
      let white := whiteOf u in
      let '(s1, mixedOutput) := renderSample p sampleRate s white in
      let '(s2, out) := renderChannel p sampleRate s1 (S i) rest in
      (s2, store mixedOutput mGain :: out)
  end.

Fixpoint renderChannels (p : parameters) (sampleRate : R) (s : state)
    (randoms : list (list R)) : state * list (list sample) :=
  match randoms with
  | [] => (s, [])
  | channel :: rest =>
      let '(s1, out) := renderChannel p sampleRate s 0 channel in
      let '(s2, outs) := renderChannels p sampleRate s1 rest in
      (s2, out :: outs)
  end.

Definition allZero (p : parameters) : bool :=
  Js.is_zero (whiteGain p) && Js.is_zero (pinkGain p)
  && Js.is_zero (brownGain p) && Js.is_zero (darkGain p)
  && Js.is_zero (rumbleGain p).

Definition process (s : state) (p : parameters) (randoms : list (list R))
  : state * list (list sample) :=
  if allZero p then (s, map fill0 randoms)
  else
    let sampleRate := Js.or_default (globalSampleRate p) 44100 in
    renderChannels p sampleRate s randoms.

Inductive reachable : state -> Prop :=
| reachable_initial : reachable initial
| reachable_process s p randoms :
    reachable s -> uniformDraws randoms ->
    reachable (fst (process s p randoms)).

Definition gainsInRange (p : parameters) : Prop :=
  0 <= whiteGain p <= 1 /\ 0 <= pinkGain p <= 1
  /\ 0 <= brownGain p <= 1 /\ 0 <= darkGain p <= 1
  /\ 0 <= rumbleGain p <= 1.

End RumbleNoiseProcessor.

(** ** The host's audio parameters *)

(** The part of the Web Audio interface that the engine drives: an
    [AudioParam] with its current value and its automation timeline, kept
    in time order. *)
Module WebAudio.

Inductive AutomationEvent :=
| SetValue (value time : R)
| LinearRamp (value endTime : R)
| ExponentialRamp (value endTime : R)
| SetTarget (target startTime timeConstant : R).

Definition eventTime (ev : AutomationEvent) : R :=
  match ev with
  | SetValue _ t => t
  | LinearRamp _ t => t
  | ExponentialRamp _ t => t
  | SetTarget _ t _ => t
  end.

Record AudioParam := mkParam {
  value : R;                       (* the current instantaneous value *)
  events : list AutomationEvent    (* the scheduled changes *)
}.

(** A new event goes after the events that are not later than it. *)
Fixpoint insertEvent (ev : AutomationEvent) (l : list AutomationEvent)
  : list AutomationEvent :=
  match l with
  | [] => [ev]
  | x :: rest =>
      if Rlt_dec (eventTime ev) (eventTime x) then ev :: x :: rest
      else x :: insertEvent ev rest
  end.

Definition schedule (p : AudioParam) (ev : AutomationEvent) : AudioParam :=
  mkParam (value p) (insertEvent ev (events p)).

Definition setValueAtTime (p : AudioParam) (v t : R) : AudioParam :=
  schedule p (SetValue v t).

Definition linearRampToValueAtTime (p : AudioParam) (v t : R) : AudioParam :=
  schedule p (LinearRamp v t).

Definition exponentialRampToValueAtTime (p : AudioParam) (v t : R)
  : AudioParam :=
  schedule p (ExponentialRamp v t).

Definition setTargetAtTime (p : AudioParam) (target t timeConstant : R)
  : AudioParam :=
  schedule p (SetTarget target t timeConstant).

(** Removes every scheduled change whose time is [cancelTime] or later. *)
Definition cancelScheduledValues (p : AudioParam) (cancelTime : R)
  : AudioParam :=
  mkParam (value p)
    (List.filter
       (fun ev => if Rlt_dec (eventTime ev) cancelTime then true else false)
       (events p)).

(** A parameter that was only assigned ([param.value = v]). *)
Definition constant (v : R) : AudioParam := mkParam v [].

Record AudioContext := mkCtx {
  currentTime : R;
  sampleRate : R
}.

Inductive BiquadFilterType := lowshelf | peaking | highshelf.

Record BiquadFilterNode := mkBiquad {
  filterType : BiquadFilterType;
  frequency : R;
  gain : AudioParam;
  Q : R
}.

End WebAudio.

(** ** AudioEngine.ts *)

Module AudioEngine.
Import WebAudio.

Record EqBand := mkEqBand {
  freq : R;
  bandType : BiquadFilterType
}.

Definition EQ_BANDS : list EqBand :=
  [ mkEqBand 60 lowshelf;
    mkEqBand 250 peaking;
    mkEqBand 1000 peaking;
    mkEqBand 4000 peaking;
    mkEqBand 12000 highshelf ].

(** The fields of the engine that the gain stages, the equaliser and the
    diffuser use.  A gain node is represented by its [gain] parameter;
    [None] is [null]. *)
Record t := mk {
  ctx : option AudioContext;
  baseGainNode : option AudioParam;
  adaptiveGainNode : option AudioParam;
  reactiveGainNode : option AudioParam;
  eqFilters : list BiquadFilterNode;
  convolver : bool;
  densityDryGain : option AudioParam;
  densityWetGain : option AudioParam;
  detector : option ImpactDetector.t;
  isInitialized : bool;
  baseVolume : R;
  isAutoMode : bool;
  adaptiveGain : R;
  adaptiveTargetGain : R;
  reactiveBoostStrength : R;
  reactiveBoostDuration : R;
  adaptiveSpeedValue : R;
  adaptiveDecayValue : R
}.

(** The field initialisers of the class. *)
Definition create : t :=
  mk None None None None [] false None None None false 0.1 false 0 0 0.3 10
     0.5 0.5.

Definition with_adaptiveGainNode (e : t) (v : option AudioParam) : t :=
  mk (ctx e) (baseGainNode e) v (reactiveGainNode e) (eqFilters e)
     (convolver e) (densityDryGain e) (densityWetGain e) (detector e)
     (isInitialized e) (baseVolume e) (isAutoMode e) (adaptiveGain e)
     (adaptiveTargetGain e) (reactiveBoostStrength e)
     (reactiveBoostDuration e) (adaptiveSpeedValue e) (adaptiveDecayValue e).

Definition with_reactiveGainNode (e : t) (v : option AudioParam) : t :=
  mk (ctx e) (baseGainNode e) (adaptiveGainNode e) v (eqFilters e)
     (convolver e) (densityDryGain e) (densityWetGain e) (detector e)
     (isInitialized e) (baseVolume e) (isAutoMode e) (adaptiveGain e)
     (adaptiveTargetGain e) (reactiveBoostStrength e)
     (reactiveBoostDuration e) (adaptiveSpeedValue e) (adaptiveDecayValue e).

Definition with_eqFilters (e : t) (v : list BiquadFilterNode) : t :=
  mk (ctx e) (baseGainNode e) (adaptiveGainNode e) (reactiveGainNode e) v
     (convolver e) (densityDryGain e) (densityWetGain e) (detector e)
     (isInitialized e) (baseVolume e) (isAutoMode e) (adaptiveGain e)
     (adaptiveTargetGain e) (reactiveBoostStrength e)
     (reactiveBoostDuration e) (adaptiveSpeedValue e) (adaptiveDecayValue e).

Definition with_density (e : t) (dry wet : option AudioParam) : t :=
  mk (ctx e) (baseGainNode e) (adaptiveGainNode e) (reactiveGainNode e)
     (eqFilters e) (convolver e) dry wet (detector e)
     (isInitialized e) (baseVolume e) (isAutoMode e) (adaptiveGain e)
     (adaptiveTargetGain e) (reactiveBoostStrength e)
     (reactiveBoostDuration e) (adaptiveSpeedValue e) (adaptiveDecayValue e).

Definition with_detector (e : t) (v : option ImpactDetector.t) : t :=
  mk (ctx e) (baseGainNode e) (adaptiveGainNode e) (reactiveGainNode e)
     (eqFilters e) (convolver e) (densityDryGain e) (densityWetGain e) v
     (isInitialized e) (baseVolume e) (isAutoMode e) (adaptiveGain e)
     (adaptiveTargetGain e) (reactiveBoostStrength e)
     (reactiveBoostDuration e) (adaptiveSpeedValue e) (adaptiveDecayValue e).

Definition with_adaptiveGain (e : t) (v : R) : t :=
  mk (ctx e) (baseGainNode e) (adaptiveGainNode e) (reactiveGainNode e)
     (eqFilters e) (convolver e) (densityDryGain e) (densityWetGain e)
     (detector e) (isInitialized e) (baseVolume e) (isAutoMode e) v
     (adaptiveTargetGain e) (reactiveBoostStrength e)
     (reactiveBoostDuration e) (adaptiveSpeedValue e) (adaptiveDecayValue e).

Definition with_adaptiveTargetGain (e : t) (v : R) : t :=
  mk (ctx e) (baseGainNode e) (adaptiveGainNode e) (reactiveGainNode e)
     (eqFilters e) (convolver e) (densityDryGain e) (densityWetGain e)
     (detector e) (isInitialized e) (baseVolume e) (isAutoMode e)
     (adaptiveGain e) v (reactiveBoostStrength e)
     (reactiveBoostDuration e) (adaptiveSpeedValue e) (adaptiveDecayValue e).

(** The nodes [init] creates for the context [c]: gains at their initial
    values, one filter per entry of [EQ_BANDS] with gain 0 and Q 1. *)
Definition init (e : t) (c : AudioContext) : t :=
  if isInitialized e then e
  else
    mk (Some c) (Some (constant (baseVolume e))) (Some (constant 1.0))
       (Some (constant 1.0))
       (map (fun band => mkBiquad (bandType band) (freq band) (constant 0) 1.0)
            EQ_BANDS)
       true (Some (constant 1.0)) (Some (constant 0.0)) (detector e) true
       (baseVolume e) (isAutoMode e) (adaptiveGain e) (adaptiveTargetGain e)
       (reactiveBoostStrength e) (reactiveBoostDuration e)
       (adaptiveSpeedValue e) (adaptiveDecayValue e).

(** [filter.gain.setTargetAtTime(gainDb, now, 0.02)] on one filter. *)
Definition retarget (f : BiquadFilterNode) (gainDb now : R)
  : BiquadFilterNode :=
  mkBiquad (filterType f) (frequency f)
           (setTargetAtTime (gain f) gainDb now 0.02) (Q f).

Definition setEQBand (e : t) (bandIndex : Z) (gainDb : R) : t :=
  if ((bandIndex <? 0) || (bandIndex >=? Z.of_nat (length (eqFilters e))))%Z
  then e
  else
    match eqFilters e !! Z.to_nat bandIndex, ctx e with
    | Some filter, Some c =>
        with_eqFilters e
          (<[Z.to_nat bandIndex := retarget filter gainDb (currentTime c)]>
             (eqFilters e))
    | _, _ => e
    end.

Definition getEQValues (e : t) : list R :=
  map (fun f => value (gain f)) (eqFilters e).

Definition handleAdaptiveUpdate (e : t) (noiseScore : R) : t :=
  if negb (isAutoMode e) then e
  else
    let e := with_adaptiveTargetGain e (Rmin (noiseScore * 2) 0.4) in
    with_detector e
      (option_map
         (fun d => ImpactDetector.updateNoiseGain d
                     (baseVolume e + adaptiveGain e))
         (detector e)).

(** The multiplier of the adaptive stage for an additive gain [g]:
    the first line of [applyAdaptiveGain]. *)
Definition adaptiveMultiplier (g : R) : R := 1.0 + g * 3.

(** The value [applyAdaptiveGain] passes to [setTargetAtTime]. *)
Definition appliedMultiplier (g : R) : R :=
  let multiplier := adaptiveMultiplier g in
  if Rlt_dec multiplier 1.10 then 1.0 else multiplier.

Definition applyAdaptiveGain (e : t) : t :=
  match adaptiveGainNode e, ctx e with
  | Some node, Some c =>
      with_adaptiveGainNode e
        (Some (setTargetAtTime node (appliedMultiplier (adaptiveGain e))
                               (currentTime c) 0.1))
  | _, _ => e
  end.

(** One run of the follower started by [startAdaptiveLoop]. *)
Definition adaptiveLoopTick (e : t) : t :=
  if negb (isAutoMode e) then e
  else
    let diff := adaptiveTargetGain e - adaptiveGain e in
    if Rgt_dec (Rabs diff) 0.001 then
      let decaySpeed := 0.0001 + ((1.0 - adaptiveDecayValue e) * 0.0019) in
      let attackSpeed := 0.0005 + (adaptiveSpeedValue e * 0.0195) in
      let speed := if Rgt_dec diff 0 then attackSpeed else decaySpeed in
      applyAdaptiveGain (with_adaptiveGain e (adaptiveGain e + diff * speed))
    else e.

(** [!this.detector?.reactiveEnabled]. *)
Definition reactiveOff (e : t) : bool :=
  match detector e with
  | Some d => negb (ImpactDetector.reactiveEnabled d)
  | None => true
  end.

Definition boostMultiplier (e : t) (intensity : R) : R :=
  1.0 + (intensity * reactiveBoostStrength e * 3).

Definition handleReactiveImpact (e : t) (intensity : R) : t :=
  match reactiveGainNode e, ctx e with
  | Some node, Some c =>
      if negb (isAutoMode e) then e
      else if reactiveOff e then e
      else
        let now := currentTime c in
        let boost := boostMultiplier e intensity in
        let g := cancelScheduledValues node now in
        let g := setValueAtTime g (value g) now in
        let g := linearRampToValueAtTime g boost (now + 0.1) in
        let holdTime := reactiveBoostDuration e * 0.5 in
        let fadeTime := reactiveBoostDuration e * 0.5 in
        let g := setValueAtTime g boost (now + 0.1 + holdTime) in
        let g :=
          exponentialRampToValueAtTime g 1.0
            (now + 0.1 + holdTime + fadeTime) in
        with_reactiveGainNode e (Some g)
  | _, _ => e
  end.

Definition setDensity (e : t) (v : R) : t :=
  match densityDryGain e, densityWetGain e, ctx e with
  | Some dryGain, Some wetGain, Some c =>
      if negb (convolver e) then e
      else
        let dry := cos (v * 0.5 * PI) in
        let wet := sin (v * 0.5 * PI) in
        with_density e
          (Some (setTargetAtTime dryGain dry (currentTime c) 0.1))
          (Some (setTargetAtTime wetGain wet (currentTime c) 0.1))
  | _, _, _ => e
  end.

(** The target of the change scheduled last on a parameter. *)
Definition lastTarget (p : AudioParam) : option R :=
  match last (events p) with
  | Some (SetTarget v _ _) => Some v
  | Some (SetValue v _) => Some v
  | Some (LinearRamp v _) => Some v
  | Some (ExponentialRamp v _) => Some v
  | None => None
  end.

End AudioEngine.

(** ** AutoTuner.ts *)

Module AutoTuner.

Record Mix := mkMix {
  mix_w : R;
  mix_p : R;
  mix_b : R;
  mix_d : R;
  mix_r : R;    (* rumble.vol *)
  mix_rf : R;   (* rumble.freq *)
  mix_rs : R;   (* rumble.speed *)
  mix_s : R     (* sub.vol *)
}.

Record Settings := mkSettings {
  mix : Mix;
  eq : list R
}.

Definition calculateSettings (targetType : string)
    (pitch sharpness resonance : R) : Settings :=
  let eq0 := [0; 0; 0; 0; 0; 0; 0; 0; 0; 0] in
  let sub_vol := 0 in
  let p := pitch / 100 in
  let s := sharpness / 100 in
  let r := resonance / 100 in
  if String.eqb targetType "footsteps" then
    let mix_b := 0.6 + (r * 0.4) in
    let mix_d := 0.2 + (1.0 - p) * 0.3 in
    let rumble_vol := 0.5 + (r * 0.5) in
    let rumble_freq := 40 + (p * 40) in
    let rumble_speed := 0.5 + (s * 2.0) in
    let eq1 := <[1%nat := 3 + (r * 3)]> (<[0%nat := 5 + (r * 5)]> eq0) in
    if Rgt_dec s 0.6 then
      mkSettings
        (mkMix 0 (s - 0.6) mix_b mix_d rumble_vol rumble_freq rumble_speed
               sub_vol)
        (<[5%nat := 2]> eq1)
    else
      mkSettings
        (mkMix 0 0 mix_b mix_d rumble_vol rumble_freq rumble_speed sub_vol)
        eq1
  else if String.eqb targetType "voices" then
    let mix_p := 0.5 + (s * 0.3) in
    let mix_b := 0.3 + (1.0 - p) * 0.2 in
    let mix_w := if Rgt_dec s 0.8 then (s - 0.8) * 0.5 else 0 in
    mkSettings
      (mkMix mix_w mix_p mix_b 0 0.2 80 0.2 sub_vol)
      (<[5%nat := 2 + (s * 4)]>
         (<[4%nat := 4 + (s * 2)]>
            (<[3%nat := 4 - (p * 2)]> (<[2%nat := 2]> eq0))))
  else if String.eqb targetType "traffic" then
    let mix_d := 0.6 + (1.0 - s) * 0.4 in
    let mix_b := 0.4 + (p * 0.3) in
    mkSettings
      (mkMix 0 0 mix_b mix_d 0.4 (50 + (p * 50)) 0.1 sub_vol)
      (<[9%nat := -5]> (<[1%nat := 3]> (<[0%nat := 4]> eq0)))
  else if String.eqb targetType "tinnitus" then
    let mix_w := 0.3 + (p * 0.7) in
    let mix_p := 0.4 + (1.0 - p) * 0.6 in
    mkSettings
      (mkMix mix_w mix_p 0 0 0 55 1.0 sub_vol)
      (<[8%nat := 2]> (<[7%nat := 2]> (<[6%nat := 2]> eq0)))
  else
    mkSettings (mkMix 0 0 0 0 0 55 1.0 sub_vol) eq0.

End AutoTuner.

(** ** Concrete states used by the examples *)

Module Scenarios.
Import WebAudio.

(** A context at time 0 with the default sample rate. *)
Definition ctx0 : AudioContext := mkCtx 0 44100.

(** The engine right after [init]. *)
Definition readyEngine : AudioEngine.t := AudioEngine.init AudioEngine.create ctx0.

Definition bothCallbacks : ImpactDetector.DetectionCallbacks :=
  ImpactDetector.mkCallbacks true true.

(** A running full-spectrum detector whose ['all'] baseline is already
    there, at [b]. *)
Definition warmDetector (b : R) : ImpactDetector.t :=
  ImpactDetector.with_baselineEnergies
    (ImpactDetector.start (ImpactDetector.create bothCallbacks 44100))
    {[ "all"%string := b ]}.

(** The engine in auto mode with its detector attached. *)
Definition autoEngine : AudioEngine.t :=
  let e := readyEngine in
  AudioEngine.mk (AudioEngine.ctx e) (AudioEngine.baseGainNode e)
    (AudioEngine.adaptiveGainNode e) (AudioEngine.reactiveGainNode e)
    (AudioEngine.eqFilters e) (AudioEngine.convolver e)
    (AudioEngine.densityDryGain e) (AudioEngine.densityWetGain e)
    (Some (warmDetector 0.2)) true (AudioEngine.baseVolume e) true
    (AudioEngine.adaptiveGain e) (AudioEngine.adaptiveTargetGain e)
    (AudioEngine.reactiveBoostStrength e) (AudioEngine.reactiveBoostDuration e)
    (AudioEngine.adaptiveSpeedValue e) (AudioEngine.adaptiveDecayValue e).

(** A spectrum with every one of the 1024 bins at full scale. *)
Definition flatSpectrum : list byte := repeat xff 1024.


(** One render block of two channels with three samples each. *)
Definition smallBlock : list (list R) := [[0.75; 0.25; 0.5]; [0.5; 0; 0.75]].

End Scenarios.

(** ** More of the code *)

(** *** The rumble phases of the worklet *)

Module RumblePhases.
Import RumbleNoiseProcessor.

(** The four phase accumulators of the oscillator bank. *)
Definition phases (s : state) : R * R * R * R :=
  (rumblePhase1 s, rumblePhase2 s, rumblePhase3 s, rumbleModPhase s).

Definition phasesWithin (s : state) : Prop :=
  0 <= rumblePhase1 s <= 2 * PI /\ 0 <= rumblePhase2 s <= 2 * PI
  /\ 0 <= rumblePhase3 s <= 2 * PI /\ 0 <= rumbleModPhase s <= 2 * PI.

(** The sample rate [process] uses. *)
Definition rateOf (p : parameters) : R :=
  Js.or_default (globalSampleRate p) 44100.

End RumblePhases.

(** *** AudioEngine.ts: auto mode *)

(** [toggleAutoMode], [initInput] and [suspend].  The engine is wrapped
    with the two pieces of state these functions use besides the fields of
    [AudioEngine.t]: whether a microphone stream is held
    ([inputScanParams.stream]) and whether the follower loop is scheduled
    ([adaptiveAnimationId !== null]).  [initInput] is the path on which
    the microphone is granted; its promise is taken as already settled.
    [spectrum] is what the input analyser delivers to the [loop] call that
    the detector's [start] makes before it returns. *)
Module AutoMode.
Import WebAudio.

Record t := mk {
  engine : AudioEngine.t;
  micStream : bool;
  adaptiveLoopScheduled : bool
}.

Definition with_isAutoMode (e : AudioEngine.t) (v : bool) : AudioEngine.t :=
  AudioEngine.mk (AudioEngine.ctx e) (AudioEngine.baseGainNode e)
    (AudioEngine.adaptiveGainNode e) (AudioEngine.reactiveGainNode e)
    (AudioEngine.eqFilters e) (AudioEngine.convolver e)
    (AudioEngine.densityDryGain e) (AudioEngine.densityWetGain e)
    (AudioEngine.detector e) (AudioEngine.isInitialized e)
    (AudioEngine.baseVolume e) v (AudioEngine.adaptiveGain e)
    (AudioEngine.adaptiveTargetGain e) (AudioEngine.reactiveBoostStrength e)
    (AudioEngine.reactiveBoostDuration e) (AudioEngine.adaptiveSpeedValue e)
    (AudioEngine.adaptiveDecayValue e).

Definition with_baseVolume (e : AudioEngine.t) (v : R) : AudioEngine.t :=
  AudioEngine.mk (AudioEngine.ctx e) (AudioEngine.baseGainNode e)
    (AudioEngine.adaptiveGainNode e) (AudioEngine.reactiveGainNode e)
    (AudioEngine.eqFilters e) (AudioEngine.convolver e)
    (AudioEngine.densityDryGain e) (AudioEngine.densityWetGain e)
    (AudioEngine.detector e) (AudioEngine.isInitialized e)
    v (AudioEngine.isAutoMode e) (AudioEngine.adaptiveGain e)
    (AudioEngine.adaptiveTargetGain e) (AudioEngine.reactiveBoostStrength e)
    (AudioEngine.reactiveBoostDuration e) (AudioEngine.adaptiveSpeedValue e)
    (AudioEngine.adaptiveDecayValue e).

Definition with_baseGainNode (e : AudioEngine.t) (v : option AudioParam)
  : AudioEngine.t :=
  AudioEngine.mk (AudioEngine.ctx e) v
    (AudioEngine.adaptiveGainNode e) (AudioEngine.reactiveGainNode e)
    (AudioEngine.eqFilters e) (AudioEngine.convolver e)
    (AudioEngine.densityDryGain e) (AudioEngine.densityWetGain e)
    (AudioEngine.detector e) (AudioEngine.isInitialized e)
    (AudioEngine.baseVolume e) (AudioEngine.isAutoMode e)
    (AudioEngine.adaptiveGain e)
    (AudioEngine.adaptiveTargetGain e) (AudioEngine.reactiveBoostStrength e)
    (AudioEngine.reactiveBoostDuration e) (AudioEngine.adaptiveSpeedValue e)
    (AudioEngine.adaptiveDecayValue e).

(** [this.detector?.f()]. *)
Definition onDetector (f : ImpactDetector.t -> ImpactDetector.t)
    (e : AudioEngine.t) : AudioEngine.t :=
  AudioEngine.with_detector e (option_map f (AudioEngine.detector e)).

(** [initInput] with the microphone granted: a new detector on the
    context's sample rate, with both callbacks registered. *)
Definition initInput (s : t) : t :=
  match AudioEngine.ctx (engine s) with
  | None => s
  | Some c =>
      if micStream s then s
      else
        mk (AudioEngine.with_detector (engine s)
              (Some (ImpactDetector.create
                       (ImpactDetector.mkCallbacks true true)
                       (sampleRate c))))
           true (adaptiveLoopScheduled s)
  end.

(** [setTargetAtTime(1.0, now, 0.5)] on the adaptive and the reactive
    gain, when both nodes and the context are there. *)
Definition releaseGains (e : AudioEngine.t) : AudioEngine.t :=
  match AudioEngine.adaptiveGainNode e, AudioEngine.reactiveGainNode e,
        AudioEngine.ctx e with
  | Some a, Some r, Some c =>
      AudioEngine.with_reactiveGainNode
        (AudioEngine.with_adaptiveGainNode e
           (Some (setTargetAtTime a 1.0 (currentTime c) 0.5)))
        (Some (setTargetAtTime r 1.0 (currentTime c) 0.5))
  | _, _, _ => e
  end.

(** One run of the detector's [loop] with the callbacks that [initInput]
    registers: the score goes to [handleAdaptiveUpdate], then an impact to
    [handleReactiveImpact], in the order in which [loop] calls them.  The
    gain that [handleAdaptiveUpdate] reports back is written into the
    detector the tick leaves; nothing in [loop] reads it after the
    callback. *)
Definition detectorTick (e : AudioEngine.t) (spectrum : list byte)
  : AudioEngine.t :=
  match AudioEngine.detector e with
  | None => e
  | Some d =>
      let '(d1, out) := ImpactDetector.loop d spectrum in
      let e := AudioEngine.with_detector e (Some d1) in
      let e :=
        match ImpactDetector.scoreUpdate out with
        | Some score => AudioEngine.handleAdaptiveUpdate e score
        | None => e
        end in
      match ImpactDetector.impact out with
      | Some (intensity, _) => AudioEngine.handleReactiveImpact e intensity
      | None => e
      end
  end.

(** [this.detector?.start()]: nothing for a running detector, otherwise the
    reset of [start] followed by its first [loop] call. *)
Definition startDetector (e : AudioEngine.t) (spectrum : list byte)
  : AudioEngine.t :=
  match AudioEngine.detector e with
  | None => e
  | Some d =>
      if ImpactDetector.isRunning d then e
      else
        detectorTick
          (AudioEngine.with_detector e (Some (ImpactDetector.start d)))
          spectrum
  end.

(** The spectrum is read only when a detector is started. *)
Definition toggleAutoMode (s : t) (enable : bool) (spectrum : list byte)
  : t :=
  let e := with_isAutoMode (engine s) enable in
  if enable then
    if negb (micStream s) then
      let s1 := initInput (mk e (micStream s) (adaptiveLoopScheduled s)) in
      mk (startDetector (engine s1) spectrum) (micStream s1) true
    else
      let e := startDetector e spectrum in
      let e :=
        onDetector
          (fun d => ImpactDetector.updateNoiseGain d (AudioEngine.baseVolume e))
          e in
      mk e (micStream s) true
  else
    let e := onDetector ImpactDetector.stop e in
    let e := AudioEngine.with_adaptiveGain e 0 in
    let e := AudioEngine.with_adaptiveTargetGain e 0 in
    mk (releaseGains e) false false.

Definition suspend (s : t) : t :=
  match AudioEngine.ctx (engine s) with
  | None => s
  | Some _ =>
      mk (with_isAutoMode (onDetector ImpactDetector.stop (engine s)) false)
         (micStream s) false
  end.

Definition setVolume (e : AudioEngine.t) (v : R) : AudioEngine.t :=
  let e := with_baseVolume e v in
  match AudioEngine.baseGainNode e, AudioEngine.ctx e with
  | Some node, Some c =>
      with_baseGainNode e (Some (setTargetAtTime node v (currentTime c) 0.1))
  | _, _ => e
  end.

Definition setSensitivity (e : AudioEngine.t) (v : R) : AudioEngine.t :=
  onDetector (fun d => ImpactDetector.with_sensitivity d v) e.

Definition setReactiveEnabled (e : AudioEngine.t) (v : bool)
  : AudioEngine.t :=
  onDetector (fun d => ImpactDetector.with_reactiveEnabled d v) e.

Definition setDetectionSimpleMode (e : AudioEngine.t) (modeId : string)
  : AudioEngine.t :=
  onDetector (fun d => ImpactDetector.setSimpleMode d modeId) e.

End AutoMode.

(** *** The control surface: applying an equaliser curve *)

Module ControlSurface.

(** [eq.forEach((gain, index) => engine.setEQBand(index, gain))], as in
    [applyPreset], [loadFromSlot] and the wizard's save handler, from
    index [index] on. *)
Fixpoint applyEqFrom (e : AudioEngine.t) (index : Z) (eq : list R)
  : AudioEngine.t :=
  match eq with
  | [] => e
  | gain :: rest =>
      applyEqFrom (AudioEngine.setEQBand e index gain) (index + 1) rest
  end.

Definition applyEq (e : AudioEngine.t) (eq : list R) : AudioEngine.t :=
  applyEqFrom e 0 eq.

(** The gain last scheduled on each filter. *)
Definition eqTargets (e : AudioEngine.t) : list (option R) :=
  map (fun f => AudioEngine.lastTarget (WebAudio.gain f))
      (AudioEngine.eqFilters e).

End ControlSurface.

(** *** AudioEngine.ts: the soundscape layers *)

(** [loadSound], [setSoundVolume], [startSound], [stopSound] and the
    300 ms timeout of [setSoundVolume].  The calls made on the host's
    buffer sources are kept in a log. *)
Module Soundscapes.
Import WebAudio.

Inductive HostCall :=
| SourceStart (id : string)
| SourceStop (id : string).

Record SoundLayer := mkLayer {
  gainNode : AudioParam;
  sourceNode : bool;      (* whether a buffer source is attached *)
  isPlaying : bool;
  volume : R
}.

Record t := mk {
  ctx : option AudioContext;
  layers : gmap string SoundLayer;
  hostLog : list HostCall
}.

(** The end of a successful [loadSound]: a muted, stopped layer. *)
Definition loadSound (s : t) (id : string) : t :=
  match ctx s with
  | None => s
  | Some _ =>
      mk (ctx s) (<[id := mkLayer (constant 0) false false 0]> (layers s))
         (hostLog s)
  end.

Definition startSound (s : t) (id : string) : t :=
  match layers s !! id, ctx s with
  | Some layer, Some _ =>
      let log :=
        if sourceNode layer then hostLog s ++ [SourceStop id]
        else hostLog s in
      mk (ctx s)
         (<[id := mkLayer (gainNode layer) true true (volume layer)]>
            (layers s))
         (log ++ [SourceStart id])
  | _, _ => s
  end.

Definition stopSound (s : t) (id : string) : t :=
  match layers s !! id with
  | Some layer =>
      if sourceNode layer then
        mk (ctx s)
           (<[id := mkLayer (gainNode layer) false false (volume layer)]>
              (layers s))
           (hostLog s ++ [SourceStop id])
      else s
  | None => s
  end.

(** Returns the new state and whether a 300 ms timeout was set. *)
Definition setSoundVolume (s : t) (id : string) (v : R) : t * bool :=
  match layers s !! id, ctx s with
  | Some layer, Some c =>
      let layer1 :=
        mkLayer (setTargetAtTime (gainNode layer) v (currentTime c) 0.1)
                (sourceNode layer) (isPlaying layer) v in
      let s1 := mk (ctx s) (<[id := layer1]> (layers s)) (hostLog s) in
      if Rgt_dec v 0 then
        if negb (isPlaying layer1) then (startSound s1 id, false)
        else (s1, false)
      else
        if isPlaying layer1 then (s1, true) else (s1, false)
  | _, _ => (s, false)
  end.

(** The callback of the timeout, for a layer that was not loaded again
    since the timeout was set. *)
Definition stopTimeout (s : t) (id : string) : t :=
  match layers s !! id with
  | Some layer => if Js.is_zero (volume layer) then stopSound s id else s
  | None => s
  end.

End Soundscapes.

(** *** AudioEngine.ts: fluctuation, microphone level, impulse response *)

Module Fluctuation.
Import WebAudio.

Record t := mk {
  ctx : option AudioContext;
  fluctuationGainNode : option AudioParam;
  isFluctuationEnabled : bool;
  fluctuationStrength : R;
  fluctuationAnimationId : bool   (* [!== null] *)
}.

(** [targetGain] for the wall clock [dateNow] (milliseconds). *)
Definition targetGain (dateNow strength : R) : R :=
  let t := dateNow / 1000 in
  let wave1 := sin (t * 0.1) in
  let wave2 := sin (t * 0.23 + 1) in
  let wave3 := sin (t * 0.7 + 2) in
  let combined := (wave1 * 0.5 + wave2 * 0.3 + wave3 * 0.2) in
  1.0 + (combined * strength * 0.5).

Definition fluctuationLoop (s : t) (dateNow : R) : t :=
  match fluctuationGainNode s, ctx s with
  | Some node, Some c =>
      if negb (isFluctuationEnabled s) then s
      else
        mk (ctx s)
           (Some (setTargetAtTime node
                    (targetGain dateNow (fluctuationStrength s))
                    (currentTime c) 0.1))
           (isFluctuationEnabled s) (fluctuationStrength s) true
  | _, _ => s
  end.

Definition startFluctuationLoop (s : t) (dateNow : R) : t :=
  if fluctuationAnimationId s then s else fluctuationLoop s dateNow.

Definition stopFluctuationLoop (s : t) : t :=
  mk (ctx s) (fluctuationGainNode s) (isFluctuationEnabled s)
     (fluctuationStrength s) false.

Definition setFluctuation (s : t) (enabled : bool) (dateNow : R) : t :=
  let s :=
    mk (ctx s) (fluctuationGainNode s) enabled (fluctuationStrength s)
       (fluctuationAnimationId s) in
  if enabled then startFluctuationLoop s dateNow
  else
    let s := stopFluctuationLoop s in
    match fluctuationGainNode s, ctx s with
    | Some node, Some c =>
        mk (ctx s) (Some (setTargetAtTime node 1.0 (currentTime c) 0.5))
           (isFluctuationEnabled s) (fluctuationStrength s)
           (fluctuationAnimationId s)
    | _, _ => s
    end.

Definition setFluctuationStrength (s : t) (strength : R) : t :=
  mk (ctx s) (fluctuationGainNode s) (isFluctuationEnabled s) strength
     (fluctuationAnimationId s).

End Fluctuation.

Module Signals.

(** [getMicrophoneVolume]; the argument is what [getByteTimeDomainData]
    delivers, [None] when there is no input analyser. *)
Definition getMicrophoneVolume (timeData : option (list byte)) : R :=
  match timeData with
  | None => 0
  | Some dataArray =>
      let sum :=
        fold_left
          (fun sum b =>
             let x := (ImpactDetector.byteVal b - 128) / 128.0 in
             sum + x * x)
          dataArray 0 in
      let rms := sqrt (sum / INR (length dataArray)) in
      Rmin (rms * 3.0) 1.0
  end.

(** The loop of [generateImpulseResponse] from index [i] on; [draws] holds
    the two values of [Math.random] of each remaining iteration and
    [length] is the number of samples of the buffer.  [Math.pow] is the
    real power, its base being positive inside the loop. *)
Fixpoint impulseFrom (length : nat) (decay : R) (i : nat) (lastL lastR : R)
    (draws : list (R * R)) : list R * list R :=
  match draws with
  | [] => ([], [])
  | (uL, uR) :: rest =>
      let n := INR i / INR length in
      let e := Rpower (1 - n) decay in
      let rawL := (uL * 2 - 1) in
      let rawR := (uR * 2 - 1) in
      let rawL := (rawL + lastL) * 0.5 in
      let rawR := (rawR + lastR) * 0.5 in
      let gainScale := 0.05 in
      let '(restL, restR) := impulseFrom length decay (S i) rawL rawR rest in
      (rawL * e * gainScale :: restL, rawR * e * gainScale :: restR)
  end.

Definition generateImpulseResponse (decay : R) (draws : list (R * R))
  : list R * list R :=
  impulseFrom (length draws) decay 0 0 0 draws.

End Signals.

(** *** NoiseSimulator.ts *)

(** The simulator of the wizard.  The graph nodes are represented by the
    parameters the class drives; the contents of the noise buffers are left
    out.  [now] is [ctx.currentTime] at the call.  The one-shot nodes of
    the footsteps, which the class does not keep, are collected in
    [footsteps]. *)
Module NoiseSimulator.
Import WebAudio.

Inductive OscillatorType := sine | triangle | sawtooth.
Inductive FilterType := bandpass | lowpass | highpass.

Record OscillatorNode := mkOsc {
  oscType : OscillatorType;
  oscFrequency : AudioParam
}.

Record FilterNode := mkFilter {
  filterType : FilterType;
  filterFrequency : AudioParam;
  filterQ : AudioParam
}.

Record Footstep := mkFootstep {
  thudFrequency : AudioParam;   (* triangle oscillator *)
  thudGain : AudioParam;
  thudStop : R;
  clickCutoff : AudioParam;     (* high-pass on the noise burst *)
  clickGain : AudioParam;
  clickStop : R
}.

Record t := mk {
  masterGain : AudioParam;
  osc : option OscillatorNode;
  noiseNode : bool;
  filter : option FilterNode;
  lfo : option OscillatorNode;
  lfoGain : option AudioParam;
  isPlaying : bool;
  currentType : string;
  timer : bool;                 (* [timer !== null] *)
  currentParams : R * R * R;    (* p, s, r *)
  footsteps : list Footstep
}.

(** The constructor: a muted master gain. *)
Definition create : t :=
  mk (constant 0) None false None None None false "" false (0.5, 0.5, 0.5) [].

Definition stop (s : t) (now : R) : t :=
  let g := cancelScheduledValues (masterGain s) now in
  let g := setValueAtTime g (value g) now in
  let g := linearRampToValueAtTime g 0 (now + 0.1) in
  mk g None false None None None false (currentType s) false
     (currentParams s) (footsteps s).

Definition triggerFootstep (s : t) (now : R) : t :=
  let t := now in
  let '(p, s0, r) := currentParams s in
  let freq := 40 + (p * 40) in
  let oscFreq :=
    exponentialRampToValueAtTime (setValueAtTime (constant 440) freq t)
      (freq * 0.5) (t + 0.1) in
  let oscGain :=
    exponentialRampToValueAtTime (setValueAtTime (constant 1) 0.8 t)
      0.01 (t + 0.15 + (r * 0.2)) in
  let noiseFilter := setValueAtTime (constant 350) (500 + (s0 * 1500)) t in
  let noiseGain :=
    exponentialRampToValueAtTime
      (setValueAtTime (constant 1) (0.3 + (s0 * 0.3)) t) 0.01 (t + 0.05) in
  mk (masterGain s) (osc s) (noiseNode s) (filter s) (lfo s) (lfoGain s)
     (isPlaying s) (currentType s) (timer s) (currentParams s)
     (footsteps s
      ++ [mkFootstep oscFreq oscGain (t + 0.4) noiseFilter noiseGain
            (t + 0.1)]).

Definition playFootsteps (s : t) (now : R) : t :=
  let s := triggerFootstep s now in
  mk (masterGain s) (osc s) (noiseNode s) (filter s) (lfo s) (lfoGain s)
     (isPlaying s) (currentType s) true (currentParams s) (footsteps s).

(** The callback of the 1200 ms interval; it cannot run once the interval
    is cleared. *)
Definition intervalTick (s : t) (now : R) : t :=
  if timer s then (if isPlaying s then triggerFootstep s now else s) else s.

Definition updateVoices (s : t) (p s0 r now : R) : t :=
  match filter s, lfo s, lfoGain s with
  | Some f, Some l, Some lg =>
      mk (masterGain s) (osc s) (noiseNode s)
         (Some (mkFilter (filterType f)
                  (setTargetAtTime (filterFrequency f) (300 + (p * 500))
                     now 0.1)
                  (setTargetAtTime (filterQ f) (0.5 + (s0 * 4.0)) now 0.1)))
         (Some (mkOsc (oscType l)
                  (setTargetAtTime (oscFrequency l) (2 + (r * 6)) now 0.1)))
         (Some (setTargetAtTime lg (100 + (r * 300)) now 0.1))
         (isPlaying s) (currentType s) (timer s) (currentParams s)
         (footsteps s)
  | _, _, _ => s
  end.

Definition playVoices (s : t) (now : R) : t :=
  let s :=
    mk (masterGain s) (osc s) true
       (Some (mkFilter bandpass (constant 500) (constant 1.0)))
       (Some (mkOsc sine (constant 3)))
       (Some (constant 200))
       (isPlaying s) (currentType s) (timer s) (currentParams s)
       (footsteps s) in
  updateVoices s 0.5 0.5 0.5 now.

Definition updateTraffic (s : t) (p s0 r now : R) : t :=
  let osc1 :=
    option_map
      (fun o =>
         mkOsc (oscType o)
           (setTargetAtTime (oscFrequency o) (40 + (p * 60)) now 0.1))
      (osc s) in
  let filter1 :=
    option_map
      (fun f =>
         let baseFreq := 400 + (s0 * 1600) in
         mkFilter (filterType f)
           (setTargetAtTime (filterFrequency f) baseFreq now 0.1)
           (filterQ f))
      (filter s) in
  let lfo1 :=
    option_map
      (fun l =>
         mkOsc (oscType l)
           (setTargetAtTime (oscFrequency l) (0.1 + (r * 1.9)) now 0.1))
      (lfo s) in
  mk (masterGain s) osc1 (noiseNode s) filter1 lfo1 (lfoGain s)
     (isPlaying s) (currentType s) (timer s) (currentParams s) (footsteps s).

(** The low-pass at 120 Hz between the oscillator and the master gain is
    local to [playTraffic] and never touched again; it has no field. *)
Definition playTraffic (s : t) (now : R) : t :=
  let s :=
    mk (masterGain s) (Some (mkOsc sawtooth (constant 50))) true
       (Some (mkFilter lowpass (constant 800) (constant 1)))
       (Some (mkOsc sine (constant 0.2)))
       (Some (constant 400))
       (isPlaying s) (currentType s) (timer s) (currentParams s)
       (footsteps s) in
  updateTraffic s 0.5 0.5 0.5 now.

Definition playTinnitus (s : t) : t :=
  mk (masterGain s) (Some (mkOsc sine (constant 6000))) (noiseNode s)
     (filter s) (lfo s) (lfoGain s) (isPlaying s) (currentType s) (timer s)
     (currentParams s) (footsteps s).

Definition updateTinnitus (s : t) (p now : R) : t :=
  mk (masterGain s)
     (option_map
        (fun o =>
           mkOsc (oscType o)
             (setTargetAtTime (oscFrequency o) (4000 + (p * 8000)) now 0.1))
        (osc s))
     (noiseNode s) (filter s) (lfo s) (lfoGain s) (isPlaying s)
     (currentType s) (timer s) (currentParams s) (footsteps s).

Definition startSimulation (s : t) (type : string) (now : R) : t :=
  let s := stop s now in
  let g := cancelScheduledValues (masterGain s) now in
  let g := setValueAtTime g 0.5 now in
  let s :=
    mk g (osc s) (noiseNode s) (filter s) (lfo s) (lfoGain s) true type
       (timer s) (currentParams s) (footsteps s) in
  if String.eqb type "footsteps" then playFootsteps s now
  else if String.eqb type "voices" then playVoices s now
  else if String.eqb type "traffic" then playTraffic s now
  else if String.eqb type "tinnitus" then playTinnitus s
  else s.

Definition updateParams (s : t) (pitch sharpness resonance now : R) : t :=
  if negb (isPlaying s) then s
  else
    let p := pitch / 100 in
    let s0 := sharpness / 100 in
    let r := resonance / 100 in
    let s :=
      mk (masterGain s) (osc s) (noiseNode s) (filter s) (lfo s) (lfoGain s)
         (isPlaying s) (currentType s) (timer s) (p, s0, r) (footsteps s) in
    if String.eqb (currentType s) "footsteps" then s
    else if String.eqb (currentType s) "voices" then updateVoices s p s0 r now
    else if String.eqb (currentType s) "traffic" then
      updateTraffic s p s0 r now
    else if String.eqb (currentType s) "tinnitus" then updateTinnitus s p now
    else s.

(** No node is held and no interval runs. *)
Definition released (s : t) : Prop :=
  osc s = None /\ noiseNode s = false /\ filter s = None /\ lfo s = None
  /\ lfoGain s = None /\ timer s = false.

(** The changes scheduled on a parameter at [now] or later. *)
Definition pendingFrom (p : AudioParam) (now : R) : list AutomationEvent :=
  List.filter
    (fun ev => if Rlt_dec (eventTime ev) now then false else true)
    (events p).

(** The change scheduled last on a parameter has a target in [lo, hi]. *)
Definition targetWithin (p : AudioParam) (lo hi : R) : Prop :=
  exists x, AudioEngine.lastTarget p = Some x /\ lo <= x <= hi.

End NoiseSimulator.

(** *** meister-wizard.ts *)

(** The wizard's scene logic.  The three sliders hold the integers that
    [parseInt] reads from them (the markup is not among the sources;
    [create] puts them at 50); [completed] collects the calls of
    [onComplete] and [closed] counts those of [onClose].
    [currentSettings] is [None] for the initial empty object. *)
Module MeisterWizard.

Record t := mk {
  overlayActive : bool;
  currentSceneIndex : Z;
  simulator : NoiseSimulator.t;
  currentTarget : string;
  currentSettings : option AutoTuner.Settings;
  simPitch : Z;
  simSharpness : Z;
  simResonance : Z;
  completed : list (string * option AutoTuner.Settings);
  closed : nat
}.

Definition with_simulator (w : t) (sim : NoiseSimulator.t) : t :=
  mk (overlayActive w) (currentSceneIndex w) sim (currentTarget w)
     (currentSettings w) (simPitch w) (simSharpness w) (simResonance w)
     (completed w) (closed w).

Definition create : t :=
  mk false 0 NoiseSimulator.create "" None 50 50 50 [] 0.

Definition updateSimulation (w : t) (now : R) : t :=
  with_simulator w
    (NoiseSimulator.updateParams (simulator w) (IZR (simPitch w))
       (IZR (simSharpness w)) (IZR (simResonance w)) now).

Definition generateCountermeasure (w : t) : t :=
  mk (overlayActive w) (currentSceneIndex w) (simulator w) (currentTarget w)
     (Some (AutoTuner.calculateSettings (currentTarget w)
              (IZR (simPitch w)) (IZR (simSharpness w))
              (IZR (simResonance w))))
     (simPitch w) (simSharpness w) (simResonance w) (completed w) (closed w).

Definition goToScene (w : t) (index : Z) (now : R) : t :=
  let w :=
    if ((currentSceneIndex w =? 1) && negb (index =? 1))%Z
    then with_simulator w (NoiseSimulator.stop (simulator w) now)
    else w in
  let w :=
    mk (overlayActive w) index (simulator w) (currentTarget w)
       (currentSettings w) (simPitch w) (simSharpness w) (simResonance w)
       (completed w) (closed w) in
  if (index =? 1)%Z then
    updateSimulation
      (with_simulator w
         (NoiseSimulator.startSimulation (simulator w) (currentTarget w) now))
      now
  else if (index =? 2)%Z then
    generateCountermeasure
      (with_simulator w (NoiseSimulator.stop (simulator w) now))
  else w.


Definition close (w : t) (now : R) : t :=
  mk false (currentSceneIndex w) (NoiseSimulator.stop (simulator w) now)
     (currentTarget w) (currentSettings w) (simPitch w) (simSharpness w)
     (simResonance w) (completed w) (S (closed w)).

(** What the user and the host can do to an open wizard. *)
Inductive Action :=
| Next
| Prev
| SelectTarget (target : string)
| SlidePitch (v : Z)
| SlideSharpness (v : Z)
| SlideResonance (v : Z)
| Save
| Close
| FootstepInterval.

Definition step (w : t) (a : Action) (now : R) : t :=
  match a with
  | Next => goToScene w (currentSceneIndex w + 1) now
  | Prev => goToScene w (currentSceneIndex w - 1) now
  | SelectTarget target =>
      goToScene
        (mk (overlayActive w) (currentSceneIndex w) (simulator w) target
            (currentSettings w) (simPitch w) (simSharpness w)
            (simResonance w) (completed w) (closed w))
        1 now
  | SlidePitch v =>
      updateSimulation
        (mk (overlayActive w) (currentSceneIndex w) (simulator w)
            (currentTarget w) (currentSettings w) v (simSharpness w)
            (simResonance w) (completed w) (closed w))
        now
  | SlideSharpness v =>
      updateSimulation
        (mk (overlayActive w) (currentSceneIndex w) (simulator w)
            (currentTarget w) (currentSettings w) (simPitch w) v
            (simResonance w) (completed w) (closed w))
        now
  | SlideResonance v =>
      updateSimulation
        (mk (overlayActive w) (currentSceneIndex w) (simulator w)
            (currentTarget w) (currentSettings w) (simPitch w)
            (simSharpness w) v (completed w) (closed w))
        now
  | Save =>
      close
        (mk (overlayActive w) (currentSceneIndex w) (simulator w)
            (currentTarget w) (currentSettings w) (simPitch w)
            (simSharpness w) (simResonance w)
            (completed w
             ++ [(("Meister: " ++ currentTarget w)%string,
                  currentSettings w)])
            (closed w))
        now
  | Close => close w now
  | FootstepInterval =>
      with_simulator w (NoiseSimulator.intervalTick (simulator w) now)
  end.

(** A session: the actions with the audio time at which each happens. *)
Definition run (w : t) (session : list (Action * R)) : t :=
  fold_left (fun w '(a, now) => step w a now) session w.


End MeisterWizard.

(** *** main.ts: the sleep timer *)

(** [setTimer], [updateTimerDisplay], [handleTimerEnd], [clearTimer] and
    the cancel and stop buttons, as far as they touch the timer variables
    and the engine; the texts and classes of the display are left out.
    [dateNow] is the value of [Date.now()] at the call, [sliderValue] the
    number read from the volume slider.  [stopDisabled] is the [disabled]
    flag of the stop button: [click()] on a disabled button runs no
    listener. *)
Module SleepTimer.

Definition Math_ceil (x : R) : Z := (- Int_part (- x))%Z.

Record t := mk {
  player : AutoMode.t;
  timerEndTime : option R;
  timerIntervalId : bool;      (* [!== null] *)
  originalVolume : R;
  timerFadeout : bool;         (* the fade-out checkbox *)
  stopDisabled : bool          (* [stopBtn.disabled] *)
}.

Definition with_player (s : t) (p : AutoMode.t) : t :=
  mk p (timerEndTime s) (timerIntervalId s) (originalVolume s)
     (timerFadeout s) (stopDisabled s).

Definition engineSetVolume (s : t) (v : R) : t :=
  with_player s
    (AutoMode.mk (AutoMode.setVolume (AutoMode.engine (player s)) v)
       (AutoMode.micStream (player s))
       (AutoMode.adaptiveLoopScheduled (player s))).

Definition clearTimer (s : t) : t :=
  mk (player s) None false (originalVolume s) (timerFadeout s)
     (stopDisabled s).

(** The two click listeners of the stop button: the first suspends the
    engine, leaves auto mode (no spectrum is read on that path) and
    disables the button, the second clears the timer. *)
Definition stopButton (s : t) : t :=
  let s :=
    mk (AutoMode.toggleAutoMode (AutoMode.suspend (player s)) false [])
       (timerEndTime s) (timerIntervalId s) (originalVolume s)
       (timerFadeout s) true in
  clearTimer s.

(** [stopBtn.click()]. *)
Definition stopClick (s : t) : t :=
  if stopDisabled s then s else stopButton s.

Definition handleTimerEnd (s : t) : t :=
  let s := stopClick s in
  let s := clearTimer s in
  engineSetVolume s (originalVolume s).

Definition updateTimerDisplay (s : t) (dateNow : R) : t :=
  match timerEndTime s with
  | None => s
  | Some endTime =>
      if Js.is_zero endTime then s
      else
        let remaining := endTime - dateNow in
        if Rle_dec remaining 0 then handleTimerEnd s
        else
          let totalSeconds := Math_ceil (remaining / 1000) in
          if (timerFadeout s && (totalSeconds <=? 60)%Z)%bool then
            let fadeRatio := IZR totalSeconds / 60 in
            let fadeVolume := originalVolume s * fadeRatio in
            engineSetVolume s fadeVolume
          else s
  end.

(** [dateNow] is read when the end time is computed, [dateNow'] by the
    first display update. *)
Definition setTimer (s : t) (minutes sliderValue dateNow dateNow' : R) : t :=
  let s := clearTimer s in
  if Rle_dec minutes 0 then s
  else
    let s :=
      mk (player s) (Some (dateNow + minutes * 60 * 1000)) true sliderValue
         (timerFadeout s) (stopDisabled s) in
    updateTimerDisplay s dateNow'.

Definition cancelButton (s : t) : t :=
  let s := clearTimer s in
  engineSetVolume s (originalVolume s).

Definition engineVolume (s : t) : R :=
  AudioEngine.baseVolume (AutoMode.engine (player s)).

End SleepTimer.

(** * Properties *)

(** ** Detection mode changes *)

Section DetectorModes.
Import ImpactDetector.

(** C7, as stated, fails for [toggleBand]: toggling a band on a detector
    that already tracks a baseline leaves that baseline in place. *)
Lemma toggleBand_keeps_baselines :
  baselineEnergies (toggleBand (Scenarios.warmDetector 0.2) "footsteps" true)
  <> ∅.
Proof.
  intros H.
  assert (L : baselineEnergies
                (toggleBand (Scenarios.warmDetector 0.2) "footsteps" true)
              !! "all"%string = Some 0.2)
    by (cbn; apply lookup_singleton_eq).
  rewrite H in L. rewrite lookup_empty in L. discriminate.
Qed.

(** C7 (amended): [setSimpleMode] and [setDetailedMode] leave the baseline
    map empty, whatever the previous state and the argument; [toggleBand]
    edits the enabled set only and keeps the baseline map and the mode
    flag. *)
Theorem mode_setters_clear_baselines (d : t) (modeId : string)
    (ids : list string) (bandId : string) (enabled : bool) :
  baselineEnergies (setSimpleMode d modeId) = ∅
  /\ baselineEnergies (setDetailedMode d ids) = ∅
  /\ baselineEnergies (toggleBand d bandId enabled) = baselineEnergies d
  /\ isSimpleMode (toggleBand d bandId enabled) = isSimpleMode d.
Proof.
  split; [| split; [| split]].
  - unfold setSimpleMode.
    destruct (find _ SIMPLE_MODES); reflexivity.
  - reflexivity.
  - destruct enabled; reflexivity.
  - destruct enabled; reflexivity.
Qed.

End DetectorModes.

(** ** The automation timeline *)

Section Timeline.
Import WebAudio.

(** An event that is not earlier than any scheduled one goes last. *)
Lemma insertEvent_last (ev : AutomationEvent) (l : list AutomationEvent) :
  Forall (fun x => eventTime x <= eventTime ev) l ->
  insertEvent ev l = l ++ [ev].
Proof.
  induction 1 as [| x l Hx _ IH]; simpl.
  - reflexivity.
  - destruct (Rlt_dec (eventTime ev) (eventTime x)) as [Hlt | _].
    + lra.
    + now rewrite IH.
Qed.

(** What survives [cancelScheduledValues] is strictly before the cancel
    time. *)
Lemma cancelled_before (p : AudioParam) (t : R) :
  Forall (fun x => eventTime x < t) (events (cancelScheduledValues p t)).
Proof.
  unfold cancelScheduledValues; simpl.
  induction (events p) as [| x l IH]; simpl.
  - constructor.
  - destruct (Rlt_dec (eventTime x) t); [constructor |]; assumption.
Qed.

End Timeline.

(** ** Equaliser setter *)

Section Equaliser.
Import WebAudio AudioEngine.

(** C9, as stated, fails for negative gains: on the initialised engine a
    gain of -5 dB for band 0 is scheduled on that band's filter, so the
    equaliser state changes. *)
Lemma setEQBand_negative_gain_applies :
  (0 <= 0 < 5)%Z /\ -5 < 0
  /\ eqFilters (setEQBand Scenarios.readyEngine 0 (-5))
     <> eqFilters Scenarios.readyEngine
  /\ (events ∘ gain) <$> eqFilters (setEQBand Scenarios.readyEngine 0 (-5)) !! 0%nat
     = Some [SetTarget (-5) 0 0.02].
Proof.
  split; [lia |]. split; [lra |]. split.
  - cbn. intros H. inversion H.
  - reflexivity.
Qed.

(** C9 (amended): for a band index outside the range of the filter list
    [setEQBand] returns the engine unchanged, whatever the gain; for an
    index inside the range of an initialised engine the gain, negative or
    not, is scheduled as the target of that band's filter with time
    constant 0.02 and the other filters are untouched. *)
Theorem setEQBand_bounds (e : t) (bandIndex : Z) (gainDb : R) :
  (((bandIndex < 0)%Z \/ (Z.of_nat (length (eqFilters e)) <= bandIndex)%Z) ->
   setEQBand e bandIndex gainDb = e)
  /\ (forall c f,
        (0 <= bandIndex)%Z ->
        eqFilters e !! Z.to_nat bandIndex = Some f ->
        ctx e = Some c ->
        eqFilters (setEQBand e bandIndex gainDb) !! Z.to_nat bandIndex
          = Some (mkBiquad (filterType f) (frequency f)
                    (setTargetAtTime (gain f) gainDb (currentTime c) 0.02)
                    (Q f))
        /\ forall j, j <> Z.to_nat bandIndex ->
             eqFilters (setEQBand e bandIndex gainDb) !! j = eqFilters e !! j).
Proof.
  split.
  - intros Hout. unfold setEQBand.
    destruct (bandIndex <? 0)%Z eqn:Hneg; [reflexivity |].
    destruct (bandIndex >=? Z.of_nat (length (eqFilters e)))%Z eqn:Hge;
      [reflexivity |].
    apply Z.ltb_ge in Hneg. rewrite Z.geb_leb in Hge.
    apply Z.leb_gt in Hge. lia.
  - intros c f Hpos Hf Hc. unfold setEQBand.
    assert (Hlen : (Z.to_nat bandIndex < length (eqFilters e))%nat)
      by (eapply lookup_lt_Some; exact Hf).
    destruct (bandIndex <? 0)%Z eqn:Hneg; [apply Z.ltb_lt in Hneg; lia |].
    destruct (bandIndex >=? Z.of_nat (length (eqFilters e)))%Z eqn:Hge.
    { apply Z.geb_le in Hge. lia. }
    simpl. rewrite Hf, Hc. simpl. split.
    + now apply list_lookup_insert_eq.
    + intros j Hj. now apply list_lookup_insert_ne.
Qed.

Lemma setEQBand_bounds_witness :
  setEQBand Scenarios.readyEngine 5 (-5) = Scenarios.readyEngine
  /\ (events ∘ gain) <$>
       eqFilters (setEQBand Scenarios.readyEngine 4 (-5)) !! Z.to_nat 4
     = Some [SetTarget (-5) 0 0.02].
Proof.
  split.
  - apply (proj1 (setEQBand_bounds Scenarios.readyEngine 5 (-5))).
    right. simpl. lia.
  - destruct (proj2 (setEQBand_bounds Scenarios.readyEngine 4 (-5))
                Scenarios.ctx0
                (mkBiquad highshelf 12000 (constant 0) 1.0)) as [H _].
    + lia.
    + reflexivity.
    + reflexivity.
    + rewrite H. reflexivity.
Defined.

End Equaliser.

(** ** Auto tuner ranges *)

Section AutoTunerRanges.
Import AutoTuner.

(** C10: for every category string and sliders in [0,100] the returned mix
    has its four colour gains and its rumble gain in [0,1], its rumble
    frequency in [20,300] and its rumble speed in [0.1,10]. *)
Theorem calculateSettings_in_range (targetType : string)
    (pitch sharpness resonance : R) :
  0 <= pitch <= 100 -> 0 <= sharpness <= 100 -> 0 <= resonance <= 100 ->
  let m := mix (calculateSettings targetType pitch sharpness resonance) in
  0 <= mix_w m <= 1 /\ 0 <= mix_p m <= 1 /\ 0 <= mix_b m <= 1
  /\ 0 <= mix_d m <= 1 /\ 0 <= mix_r m <= 1
  /\ 20 <= mix_rf m <= 300 /\ 0.1 <= mix_rs m <= 10.
Proof.
  intros Hp Hs Hr. unfold calculateSettings.
  repeat match goal with
         | |- context [String.eqb ?a ?b] => destruct (String.eqb a b)
         | |- context [Rgt_dec ?a ?b] => destruct (Rgt_dec a b)
         end;
    cbn [mix mix_w mix_p mix_b mix_d mix_r mix_rf mix_rs];
    repeat split; lra.
Qed.

Lemma calculateSettings_in_range_witness :
  let m := mix (calculateSettings "footsteps" 50 70 30) in
  0 <= mix_w m <= 1 /\ 0 <= mix_p m <= 1 /\ 0 <= mix_b m <= 1
  /\ 0 <= mix_d m <= 1 /\ 0 <= mix_r m <= 1
  /\ 20 <= mix_rf m <= 300 /\ 0.1 <= mix_rs m <= 10.
Proof.
  apply (calculateSettings_in_range "footsteps" 50 70 30); lra.
Defined.

End AutoTunerRanges.

(** ** Density crossfade *)

Section Density.
Import WebAudio AudioEngine.

(** C6: on an initialised engine [setDensity d] schedules [cos (d*pi/2)] as
    the target of the dry gain and [sin (d*pi/2)] as the target of the wet
    gain; the squares of the two targets add up to 1, density 0 gives
    (1, 0) and density 1 gives (0, 1). *)
Theorem setDensity_equal_power (e : t) (dryGain wetGain : AudioParam)
    (c : AudioContext) (d : R) :
  densityDryGain e = Some dryGain ->
  densityWetGain e = Some wetGain ->
  ctx e = Some c ->
  convolver e = true ->
  0 <= d <= 1 ->
  let dry := cos (d * PI / 2) in
  let wet := sin (d * PI / 2) in
  densityDryGain (setDensity e d)
    = Some (setTargetAtTime dryGain dry (currentTime c) 0.1)
  /\ densityWetGain (setDensity e d)
    = Some (setTargetAtTime wetGain wet (currentTime c) 0.1)
  /\ dry ^ 2 + wet ^ 2 = 1
  /\ (d = 0 -> dry = 1 /\ wet = 0)
  /\ (d = 1 -> dry = 0 /\ wet = 1).
Proof.
  intros Hdry Hwet Hc Hconv Hd dry wet.
  assert (Harg : d * 0.5 * PI = d * PI / 2) by lra.
  split; [| split; [| split; [| split]]].
  - unfold setDensity. rewrite Hdry, Hwet, Hc, Hconv. simpl.
    now rewrite Harg.
  - unfold setDensity. rewrite Hdry, Hwet, Hc, Hconv. simpl.
    now rewrite Harg.
  - subst dry wet. pose proof (sin2_cos2 (d * PI / 2)) as H.
    unfold Rsqr in H. lra.
  - intros ->. subst dry wet.
    replace (0 * PI / 2) with 0 by lra. split; [apply cos_0 | apply sin_0].
  - intros ->. subst dry wet.
    replace (1 * PI / 2) with (PI / 2) by lra.
    split; [apply cos_PI2 | apply sin_PI2].
Qed.

Lemma setDensity_equal_power_witness :
  lastTarget <$> densityDryGain (setDensity Scenarios.readyEngine 1) = Some (Some 0)
  /\ lastTarget <$> densityWetGain (setDensity Scenarios.readyEngine 1) = Some (Some 1)
  /\ cos (1 * PI / 2) ^ 2 + sin (1 * PI / 2) ^ 2 = 1.
Proof.
  destruct (setDensity_equal_power Scenarios.readyEngine
              (constant 1.0) (constant 0.0) Scenarios.ctx0 1)
    as (Hd & Hw & Hsq & _ & H1); try reflexivity; try lra.
  destruct (H1 eq_refl) as [Hc Hs].
  split; [| split].
  - rewrite Hd, Hc. reflexivity.
  - rewrite Hw, Hs. reflexivity.
  - exact Hsq.
Defined.

End Density.

(** ** Adaptive and reactive gain stages *)

Section GainStages.
Import WebAudio AudioEngine.

Lemma appliedMultiplier_snap (g : R) :
  adaptiveMultiplier g < 1.10 -> appliedMultiplier g = 1.0.
Proof.
  intros H. unfold appliedMultiplier.
  destruct (Rlt_dec (adaptiveMultiplier g) 1.10); [reflexivity | contradiction].
Qed.

Lemma appliedMultiplier_pass (g : R) :
  1.10 <= adaptiveMultiplier g -> appliedMultiplier g = adaptiveMultiplier g.
Proof.
  intros H. unfold appliedMultiplier.
  destruct (Rlt_dec (adaptiveMultiplier g) 1.10); [lra | reflexivity].
Qed.

Lemma applyAdaptiveGain_node (e : t) (node : AudioParam) (c : AudioContext) :
  adaptiveGainNode e = Some node -> ctx e = Some c ->
  adaptiveGainNode (applyAdaptiveGain e)
  = Some (setTargetAtTime node (appliedMultiplier (adaptiveGain e))
                          (currentTime c) 0.1).
Proof.
  intros Hn Hc. unfold applyAdaptiveGain. now rewrite Hn, Hc.
Qed.

(** With both sliders in [0,1] a follower tick moves the gain towards the
    target without passing it. *)
Lemma adaptiveLoopTick_between (e : t) :
  0 <= adaptiveSpeedValue e <= 1 -> 0 <= adaptiveDecayValue e <= 1 ->
  Rmin (adaptiveGain e) (adaptiveTargetGain e)
  <= adaptiveGain (adaptiveLoopTick e)
  <= Rmax (adaptiveGain e) (adaptiveTargetGain e).
Proof.
  intros Hs Hd. unfold adaptiveLoopTick.
  pose proof (Rmin_l (adaptiveGain e) (adaptiveTargetGain e)).
  pose proof (Rmax_l (adaptiveGain e) (adaptiveTargetGain e)).
  destruct (isAutoMode e); simpl; [| lra].
  destruct (Rgt_dec (Rabs (adaptiveTargetGain e - adaptiveGain e)) 0.001);
    [| lra].
  assert (Hg : forall v,
            adaptiveGain (applyAdaptiveGain (with_adaptiveGain e v)) = v).
  { intros v. unfold applyAdaptiveGain. simpl.
    destruct (adaptiveGainNode e), (ctx e); reflexivity. }
  rewrite Hg. unfold Rmin, Rmax.
  destruct (Rle_dec (adaptiveGain e) (adaptiveTargetGain e));
    destruct (Rgt_dec (adaptiveTargetGain e - adaptiveGain e) 0); nra.
Qed.

(** A follower tick that moves: the new gain, and what goes to the node. *)
Lemma adaptiveLoopTick_moves (e : t) (node : AudioParam) (c : AudioContext) :
  isAutoMode e = true ->
  adaptiveGainNode e = Some node ->
  ctx e = Some c ->
  Rabs (adaptiveTargetGain e - adaptiveGain e) > 0.001 ->
  let diff := adaptiveTargetGain e - adaptiveGain e in
  let speed :=
    if Rgt_dec diff 0 then 0.0005 + (adaptiveSpeedValue e * 0.0195)
    else 0.0001 + ((1.0 - adaptiveDecayValue e) * 0.0019) in
  adaptiveGain (adaptiveLoopTick e) = adaptiveGain e + diff * speed
  /\ adaptiveTargetGain (adaptiveLoopTick e) = adaptiveTargetGain e
  /\ adaptiveGainNode (adaptiveLoopTick e)
     = Some (setTargetAtTime node
               (appliedMultiplier (adaptiveGain e + diff * speed))
               (currentTime c) 0.1).
Proof.
  intros Hauto Hnode Hc Hdiff diff speed. subst diff speed.
  unfold adaptiveLoopTick. rewrite Hauto. simpl negb. cbv iota.
  destruct (Rgt_dec (Rabs (adaptiveTargetGain e - adaptiveGain e)) 0.001)
    as [_ | Hn]; [| contradiction].
  set (g := adaptiveGain e + _).
  rewrite (applyAdaptiveGain_node (with_adaptiveGain e g) node c Hnode Hc).
  unfold applyAdaptiveGain. simpl. rewrite Hnode, Hc.
  split; [reflexivity |]. split; reflexivity.
Qed.

(** C3: the adaptive stage is engaged only in auto mode.  There
    [handleAdaptiveUpdate] sets the target gain to [min (noiseScore*2) 0.4],
    whose multiplier [1.0 + min (noiseScore*2) 0.4 * 3] is at most 2.2.
    What reaches the adaptive gain node is the multiplier of the follower's
    gain [g], as a target at the current time with time constant 0.1:
    exactly 1.0 when [1.0 + g*3] is below 1.10, and [1.0 + g*3] itself
    otherwise.  A follower tick after the update moves [g] towards the
    target by the fraction [speed] of the difference (attack or decay
    speed, between 0 and 0.02 for sliders in [0,1]), which brings it
    strictly closer, and schedules the multiplier of the new gain; within
    0.001 of the target it changes nothing.  Once the follower's gain is at
    the target, the value applied is [1.0 + min (noiseScore*2) 0.4 * 3], or
    1.0 if that is below 1.10. *)
Theorem adaptive_target_and_dead_zone (e e0 : t) (noiseScore : R)
    (node : AudioParam) (c : AudioContext) :
  isAutoMode e = true ->
  adaptiveGainNode e = Some node ->
  ctx e = Some c ->
  let e1 := handleAdaptiveUpdate e noiseScore in
  let e2 := adaptiveLoopTick e in
  let target := Rmin (noiseScore * 2) 0.4 in
  let diff := target - adaptiveGain e in
  let speed :=
    if Rgt_dec diff 0 then 0.0005 + (adaptiveSpeedValue e * 0.0195)
    else 0.0001 + ((1.0 - adaptiveDecayValue e) * 0.0019) in
  let e3 := adaptiveLoopTick e1 in
  adaptiveTargetGain e1 = Rmin (noiseScore * 2) 0.4
  /\ adaptiveMultiplier (adaptiveTargetGain e1)
     = 1.0 + Rmin (noiseScore * 2) 0.4 * 3
  /\ adaptiveMultiplier (adaptiveTargetGain e1) <= 2.2
  /\ (adaptiveMultiplier (adaptiveGain e) < 1.10 ->
      adaptiveGainNode (applyAdaptiveGain e)
      = Some (setTargetAtTime node 1.0 (currentTime c) 0.1))
  /\ (Rabs (adaptiveTargetGain e - adaptiveGain e) > 0.001 ->
      adaptiveMultiplier (adaptiveGain e2) < 1.10 ->
      adaptiveGainNode e2
      = Some (setTargetAtTime node 1.0 (currentTime c) 0.1))
  /\ (1.10 <= 1.0 + adaptiveGain e * 3 ->
      adaptiveGainNode (applyAdaptiveGain e)
      = Some (setTargetAtTime node (1.0 + adaptiveGain e * 3)
                (currentTime c) 0.1))
  /\ (Rabs diff > 0.001 ->
      adaptiveGain e3 = adaptiveGain e + diff * speed
      /\ adaptiveTargetGain e3 = target
      /\ adaptiveGainNode e3
         = Some (setTargetAtTime node
                   (if Rlt_dec (1.0 + adaptiveGain e3 * 3) 1.10 then 1.0
                    else 1.0 + adaptiveGain e3 * 3)
                   (currentTime c) 0.1)
      /\ (0 <= adaptiveSpeedValue e <= 1 -> 0 <= adaptiveDecayValue e <= 1 ->
          0 < speed <= 0.02
          /\ target - adaptiveGain e3 = diff * (1 - speed)
          /\ Rabs (target - adaptiveGain e3) < Rabs diff))
  /\ (Rabs diff <= 0.001 -> e3 = e1)
  /\ (adaptiveGain e = target ->
      adaptiveGainNode (applyAdaptiveGain e1)
      = Some (setTargetAtTime node
                (if Rlt_dec (1.0 + target * 3) 1.10 then 1.0
                 else 1.0 + target * 3)
                (currentTime c) 0.1))
  /\ (isAutoMode e0 = false ->
      handleAdaptiveUpdate e0 noiseScore = e0 /\ adaptiveLoopTick e0 = e0).
Proof.
  intros Hauto Hnode Hc e1 e2 target diff speed e3.
  assert (Ht : adaptiveTargetGain e1 = Rmin (noiseScore * 2) 0.4).
  { subst e1. unfold handleAdaptiveUpdate. rewrite Hauto. reflexivity. }
  assert (Hf : isAutoMode e1 = true /\ adaptiveGainNode e1 = Some node
               /\ ctx e1 = Some c /\ adaptiveGain e1 = adaptiveGain e
               /\ adaptiveSpeedValue e1 = adaptiveSpeedValue e
               /\ adaptiveDecayValue e1 = adaptiveDecayValue e).
  { subst e1. unfold handleAdaptiveUpdate. rewrite Hauto.
    cbn [negb isAutoMode adaptiveGainNode ctx adaptiveGain
         adaptiveSpeedValue adaptiveDecayValue with_detector
         with_adaptiveTargetGain].
    tauto. }
  destruct Hf as (F1 & F2 & F3 & F4 & F5 & F6).
  split; [exact Ht |]. split; [now rewrite Ht |]. split.
  { rewrite Ht. unfold adaptiveMultiplier.
    pose proof (Rmin_r (noiseScore * 2) 0.4). lra. }
  split.
  { intros Hlow. rewrite (applyAdaptiveGain_node e node c Hnode Hc).
    now rewrite appliedMultiplier_snap. }
  split.
  { intros Hdiff Hlow. subst e2.
    destruct (adaptiveLoopTick_moves e node c Hauto Hnode Hc Hdiff)
      as (G1 & _ & G3).
    rewrite G3. rewrite G1 in Hlow.
    now rewrite appliedMultiplier_snap. }
  split.
  { intros Hhigh. rewrite (applyAdaptiveGain_node e node c Hnode Hc).
    rewrite appliedMultiplier_pass; [reflexivity |].
    unfold adaptiveMultiplier. exact Hhigh. }
  split.
  { intros Hdiff.
    assert (Hdiff1 : Rabs (adaptiveTargetGain e1 - adaptiveGain e1) > 0.001).
    { rewrite Ht, F4. exact Hdiff. }
    destruct (adaptiveLoopTick_moves e1 node c F1 F2 F3 Hdiff1)
      as (G1 & G2 & G3).
    rewrite Ht, F4, F5, F6 in G1, G3. rewrite Ht in G2.
    fold target in G1, G3, G2. fold diff in G1, G3. fold speed in G1, G3.
    fold e3 in G1, G2, G3.
    split; [exact G1 |]. split; [exact G2 |].
    split.
    { rewrite G3, G1. unfold appliedMultiplier, adaptiveMultiplier.
      reflexivity. }
    intros Hs Hd.
    assert (Hsp : 0 < speed <= 0.02).
    { subst speed. destruct (Rgt_dec diff 0); lra. }
    assert (Heq : target - adaptiveGain e3 = diff * (1 - speed)).
    { rewrite G1. subst diff. ring. }
    split; [exact Hsp |]. split; [exact Heq |].
    rewrite Heq, Rabs_mult.
    rewrite (Rabs_pos_eq (1 - speed)) by lra.
    assert (Hpos : 0 < Rabs diff) by lra.
    nra. }
  split.
  { intros Hsmall. subst e3. unfold adaptiveLoopTick. rewrite F1.
    simpl negb. cbv iota. rewrite Ht, F4. fold target. fold diff.
    destruct (Rgt_dec (Rabs diff) 0.001); [lra | reflexivity]. }
  split.
  { intros Hat. rewrite (applyAdaptiveGain_node e1 node c F2 F3).
    rewrite F4, Hat. unfold appliedMultiplier, adaptiveMultiplier.
    reflexivity. }
  intros Hoff. unfold handleAdaptiveUpdate, adaptiveLoopTick.
  rewrite Hoff. split; reflexivity.
Qed.

Lemma adaptive_target_and_dead_zone_witness :
  adaptiveTargetGain (handleAdaptiveUpdate Scenarios.autoEngine 0.5)
  = Rmin (0.5 * 2) 0.4
  /\ adaptiveGainNode
       (applyAdaptiveGain (with_adaptiveGain Scenarios.autoEngine 0.02))
     = Some (setTargetAtTime (constant 1.0) 1.0 0 0.1)
  /\ adaptiveGainNode
       (applyAdaptiveGain (with_adaptiveGain Scenarios.autoEngine 0.2))
     = Some (setTargetAtTime (constant 1.0) (1.0 + 0.2 * 3) 0 0.1)
  /\ Rabs (Rmin (0.5 * 2) 0.4
           - adaptiveGain
               (adaptiveLoopTick
                  (handleAdaptiveUpdate Scenarios.autoEngine 0.5)))
     < Rabs (Rmin (0.5 * 2) 0.4 - 0).
Proof.
  destruct (adaptive_target_and_dead_zone Scenarios.autoEngine
              AudioEngine.create 0.5 (constant 1.0) Scenarios.ctx0
              eq_refl eq_refl eq_refl)
    as (H1 & _ & _ & _ & _ & _ & H7 & _).
  destruct (adaptive_target_and_dead_zone
              (with_adaptiveGain Scenarios.autoEngine 0.02)
              AudioEngine.create 0.5 (constant 1.0) Scenarios.ctx0
              eq_refl eq_refl eq_refl)
    as (_ & _ & _ & H4 & _).
  destruct (adaptive_target_and_dead_zone
              (with_adaptiveGain Scenarios.autoEngine 0.2)
              AudioEngine.create 0.5 (constant 1.0) Scenarios.ctx0
              eq_refl eq_refl eq_refl)
    as (_ & _ & _ & _ & _ & H6 & _).
  split; [exact H1 |].
  split.
  { apply H4. unfold adaptiveMultiplier. simpl. lra. }
  split.
  { apply H6. simpl. lra. }
  assert (Hmin : Rmin (0.5 * 2) 0.4 = 0.4).
  { unfold Rmin. destruct (Rle_dec (0.5 * 2) 0.4); lra. }
  assert (Hd : Rabs (Rmin (0.5 * 2) 0.4 - adaptiveGain Scenarios.autoEngine)
               > 0.001).
  { simpl adaptiveGain. rewrite Hmin.
    rewrite Rabs_pos_eq by lra. lra. }
  destruct (H7 Hd) as (_ & _ & _ & H7d).
  assert (Hs : 0 <= adaptiveSpeedValue Scenarios.autoEngine <= 1)
    by (simpl; lra).
  assert (Hv : 0 <= adaptiveDecayValue Scenarios.autoEngine <= 1)
    by (simpl; lra).
  destruct (H7d Hs Hv) as (_ & _ & Hlt).
  exact Hlt.
Defined.

(** C5: in auto mode with reactive detection enabled, an impact replaces
    everything scheduled on the reactive gain from the current time on by
    four changes: an anchor at the node's current value, a linear ramp that
    ends 0.1 s later at [1.0 + intensity*strength*3], a hold of that value
    until [duration*0.5] seconds after the ramp, and an exponential ramp to
    1.0 that ends another [duration*0.5] seconds later.  With strength 0.3,
    duration 10 and intensity 1.0 the peak is 1.9. *)
Theorem reactive_envelope (e : t) (node : AudioParam) (c : AudioContext)
    (det : ImpactDetector.t) (intensity : R) :
  isAutoMode e = true ->
  reactiveGainNode e = Some node ->
  ctx e = Some c ->
  detector e = Some det ->
  ImpactDetector.reactiveEnabled det = true ->
  0 <= reactiveBoostDuration e ->
  let now := currentTime c in
  let peak := 1.0 + intensity * reactiveBoostStrength e * 3 in
  let half := reactiveBoostDuration e * 0.5 in
  reactiveGainNode (handleReactiveImpact e intensity)
  = Some (mkParam (value node)
            (events (cancelScheduledValues node now)
             ++ [ SetValue (value node) now;
                  LinearRamp peak (now + 0.1);
                  SetValue peak (now + 0.1 + half);
                  ExponentialRamp 1.0 (now + 0.1 + half + half) ]))
  /\ Forall (fun ev => eventTime ev < now)
            (events (cancelScheduledValues node now))
  /\ (reactiveBoostStrength e = 0.3 -> reactiveBoostDuration e = 10 ->
      intensity = 1.0 -> peak = 1.9).
Proof.
  intros Hauto Hnode Hc Hdet Hre Hdur now peak half.
  pose proof (cancelled_before node now) as Hbefore.
  split; [| split; [exact Hbefore |]].
  - unfold handleReactiveImpact, reactiveOff.
    rewrite Hnode, Hc, Hauto, Hdet, Hre. simpl negb. cbv iota.
    unfold boostMultiplier. fold now. fold peak. fold half.
    unfold exponentialRampToValueAtTime, setValueAtTime,
      linearRampToValueAtTime, schedule.
    cbn [value events].
    set (l0 := events (cancelScheduledValues node now)) in *.
    replace (value (cancelScheduledValues node now)) with (value node)
      by reflexivity.
    assert (E1 : insertEvent (SetValue (value node) now) l0
                 = l0 ++ [SetValue (value node) now]).
    { apply insertEvent_last. eapply Forall_impl; [exact Hbefore |].
      simpl. intros; lra. }
    rewrite E1.
    assert (F1 : Forall (fun x => eventTime x <= now)
                        (l0 ++ [SetValue (value node) now])).
    { apply Forall_app. split.
      - eapply Forall_impl; [exact Hbefore |]. simpl. intros; lra.
      - constructor; [simpl; lra | constructor]. }
    assert (E2 : insertEvent (LinearRamp peak (now + 0.1))
                   (l0 ++ [SetValue (value node) now])
                 = (l0 ++ [SetValue (value node) now])
                   ++ [LinearRamp peak (now + 0.1)]).
    { apply insertEvent_last. eapply Forall_impl; [exact F1 |].
      simpl. intros; lra. }
    rewrite E2.
    assert (F2 : Forall (fun x => eventTime x <= now + 0.1)
                   ((l0 ++ [SetValue (value node) now])
                    ++ [LinearRamp peak (now + 0.1)])).
    { apply Forall_app. split.
      - eapply Forall_impl; [exact F1 |]. simpl. intros; lra.
      - constructor; [simpl; lra | constructor]. }
    assert (Hhalf : 0 <= half) by (subst half; lra).
    assert (E3 : insertEvent (SetValue peak (now + 0.1 + half))
                   ((l0 ++ [SetValue (value node) now])
                    ++ [LinearRamp peak (now + 0.1)])
                 = ((l0 ++ [SetValue (value node) now])
                    ++ [LinearRamp peak (now + 0.1)])
                   ++ [SetValue peak (now + 0.1 + half)]).
    { apply insertEvent_last. eapply Forall_impl; [exact F2 |].
      simpl. intros; lra. }
    rewrite E3.
    assert (F3 : Forall (fun x => eventTime x <= now + 0.1 + half)
                   (((l0 ++ [SetValue (value node) now])
                     ++ [LinearRamp peak (now + 0.1)])
                    ++ [SetValue peak (now + 0.1 + half)])).
    { apply Forall_app. split.
      - eapply Forall_impl; [exact F2 |]. simpl. intros; lra.
      - constructor; [simpl; lra | constructor]. }
    rewrite insertEvent_last.
    + rewrite <- !app_assoc. reflexivity.
    + eapply Forall_impl; [exact F3 |]. simpl. intros; lra.
  - intros Hs Hd Hi. subst peak. rewrite Hs, Hi. lra.
Qed.

Lemma reactive_envelope_witness :
  reactiveGainNode (handleReactiveImpact Scenarios.autoEngine 1.0)
  = Some (mkParam 1.0
            [ SetValue 1.0 0; LinearRamp 1.9 (0 + 0.1);
              SetValue 1.9 (0 + 0.1 + 10 * 0.5);
              ExponentialRamp 1.0 (0 + 0.1 + 10 * 0.5 + 10 * 0.5) ]).
Proof.
  destruct (reactive_envelope Scenarios.autoEngine (constant 1.0)
              Scenarios.ctx0 (Scenarios.warmDetector 0.2) 1.0
              eq_refl eq_refl eq_refl eq_refl eq_refl) as (H & _ & Hpeak).
  - simpl. lra.
  - rewrite H. rewrite (Hpeak eq_refl eq_refl eq_refl). reflexivity.
Defined.

End GainStages.

(** ** Baseline tracking *)

Section Baseline.
Import ImpactDetector.

Implicit Types (d : t) (bandId : string) (e : R) (n : nat).

Lemma byteVal_range (b : byte) : 0 <= byteVal b <= 255.
Proof.
  unfold byteVal. pose proof (to_N_bounded b) as Hb.
  split; [apply IZR_le | apply IZR_le]; lia.
Qed.

Lemma fold_bins_range (data : list byte) (bins : list nat) :
  forall acc : R,
    acc <= fold_left (fun a i => a + byteVal (nth i data x00)) bins acc
        <= acc + 255 * INR (length bins).
Proof.
  induction bins as [| i rest IH]; intros acc.
  - simpl. lra.
  - cbn [fold_left]. rewrite length_cons, S_INR.
    specialize (IH (acc + byteVal (nth i data x00))).
    pose proof (byteVal_range (nth i data x00)). lra.
Qed.

(** Every band energy is a mean of bytes scaled by 255: it lies in [0,1],
    so the energies the detector observes are never negative. *)
Lemma getBandEnergy_range d (minF maxF : R) :
  0 <= getBandEnergy d minF maxF <= 1.
Proof.
  unfold getBandEnergy.
  set (minBin := Z.max 0 _). set (maxBin := Z.min _ _).
  destruct (minBin >=? maxBin)%Z eqn:E; [lra |].
  rewrite Z.geb_leb in E. apply Z.leb_gt in E.
  set (count := Z.to_nat (maxBin - minBin + 1)).
  pose proof (fold_bins_range (frequencyData d)
                (seq (Z.to_nat minBin) count) 0) as Hsum.
  rewrite length_seq in Hsum.
  assert (Hcount : IZR (maxBin - minBin + 1) = INR count).
  { subst count. rewrite INR_IZR_INZ, Z2Nat.id by lia. reflexivity. }
  rewrite Hcount.
  assert (Hpos : 1 <= INR count).
  { rewrite <- Hcount. apply IZR_le. lia. }
  set (sum := fold_left _ _ _) in *.
  assert (Hinv : 0 < / INR count) by (apply Rinv_0_lt_compat; lra).
  assert (Hone : INR count * / INR count = 1) by (apply Rinv_r; lra).
  unfold Rdiv. split.
  - apply Rmult_le_pos; [apply Rmult_le_pos |]; lra.
  - assert (Hq : sum * / INR count <= 255) by nra. lra.
Qed.

Lemma updateBaseline_stored d bandId e :
  baselineEnergies (updateBaseline d bandId e) !! bandId
  = Some (Rmax (smoothed (currentBaseline d bandId e) e)
               (0.3 * currentNoiseGain d)).
Proof.
  unfold updateBaseline, currentBaseline, smoothed. cbn [baselineEnergies with_baselineEnergies].
  rewrite lookup_insert_eq. f_equal. f_equal.
  - destruct (Rlt_dec e _); unfold BASELINE_SMOOTHING; lra.
  - lra.
Qed.












End Baseline.

Section BaselineExample.
Import ImpactDetector.




End BaselineExample.

(** ** Noise generator: stability of the colour filters *)

Section ColourBounds.
Import NoiseColors.

Lemma scale_bound (a x g : R) :
  - a <= x <= a -> 0 <= g <= 1 -> - a <= x * g <= a.
Proof. intros Hx Hg. nra. Qed.

Lemma whiteOf_range (u : R) : 0 <= u < 1 -> -1 <= whiteOf u <= 1.
Proof. unfold whiteOf. lra. Qed.

Lemma stable_initial : stable initial.
Proof. unfold stable, initial; simpl. lra. Qed.

Lemma pinkStep_stable (s : state) (w : R) :
  stable s -> -1 <= w <= 1 ->
  stable (fst (pinkStep s w)) /\ -70.4 <= snd (pinkStep s w) <= 70.4.
Proof.
  unfold stable, pinkStep. simpl.
  intros (H0 & H1 & H2 & H3 & H4 & H5 & H6 & Hb & Hd) Hw.
  repeat split; lra.
Qed.

Lemma brownNext_range (x w : R) :
  -1 <= x <= 1 -> -1 <= w <= 1 -> -1 <= brownNext x w <= 1.
Proof. unfold brownNext. lra. Qed.

Lemma darkNext_range (x w : R) :
  -1 <= x <= 1 -> -1 <= w <= 1 -> -1 <= darkNext x w <= 1.
Proof. unfold darkNext. lra. Qed.

(** One sample of the four colours keeps the states within their bounds
    and yields a mix of magnitude at most 16.3. *)
Lemma mixColors_stable (g : gains) (s : state) (w : R) :
  stable s -> -1 <= w <= 1 ->
  0 <= wGain g <= 1 -> 0 <= pGain g <= 1 ->
  0 <= bGain g <= 1 -> 0 <= dGain g <= 1 ->
  stable (fst (mixColors g s w)) /\ -16.3 <= snd (mixColors g s w) <= 16.3.
Proof.
  intros Hs Hw Hgw Hgp Hgb Hgd. unfold mixColors.
  pose proof (scale_bound 1 w (wGain g) Hw Hgw) as Bw.
  destruct (pinkStep_stable s w Hs Hw) as [Hps Hpink].
  assert (Bp : - (7.744) <= snd (pinkStep s w) * 0.11 * pGain g <= 7.744)
    by (apply scale_bound; lra).
  destruct (pinkStep s w) as [s1 pink] eqn:Ep. simpl in Hps, Hpink, Bp.
  set (s2 := if Rgt_dec (pGain g) 0 then s1 else s).
  assert (Hs2 : stable s2) by (subst s2; destruct (Rgt_dec (pGain g) 0); assumption).
  destruct Hs2 as (H0 & H1 & H2 & H3 & H4 & H5 & H6 & Hb & Hd).
  pose proof (brownNext_range (lastBrown s2) w Hb Hw) as Bb.
  pose proof (darkNext_range (lastDark s2) w Hd Hw) as Bd.
  assert (Bb' : - (3.5) <= brownNext (lastBrown s2) w * 3.5 * bGain g <= 3.5)
    by (apply scale_bound; lra).
  assert (Bd' : - (4) <= darkNext (lastDark s2) w * 4.0 * dGain g <= 4)
    by (apply scale_bound; lra).
  subst s2.
  destruct (Rgt_dec (wGain g) 0), (Rgt_dec (pGain g) 0),
    (Rgt_dec (bGain g) 0), (Rgt_dec (dGain g) 0);
    unfold stable; simpl; repeat split; lra.
Qed.

(** The state step of [mixColors] does not look at the gains of white,
    brown and dark: the integrators advance on every sample. *)
Lemma mixColors_integrators (g : gains) (s : state) (w : R) :
  lastBrown (fst (mixColors g s w)) = brownNext (lastBrown s) w
  /\ lastDark (fst (mixColors g s w)) = darkNext (lastDark s) w.
Proof.
  unfold mixColors.
  destruct (Rgt_dec (wGain g) 0), (Rgt_dec (pGain g) 0),
    (Rgt_dec (bGain g) 0), (Rgt_dec (dGain g) 0); simpl; split; reflexivity.
Qed.

(** With a pink gain that is not positive the pink filter is not run. *)
Lemma mixColors_pink_frame (g : gains) (s : state) (w : R) :
  ~ pGain g > 0 -> pinkState (fst (mixColors g s w)) = pinkState s.
Proof.
  intros Hp. unfold mixColors.
  destruct (Rgt_dec (wGain g) 0), (Rgt_dec (pGain g) 0),
    (Rgt_dec (bGain g) 0), (Rgt_dec (dGain g) 0);
    try contradiction; reflexivity.
Qed.

(** A colour whose gain is not positive adds nothing to the mix: the mix
    does not depend on that colour's integrator. *)
Lemma mixColors_brown_gated (g : gains) (s : state) (w x : R) :
  ~ bGain g > 0 ->
  snd (mixColors g (with_lastBrown s x) w) = snd (mixColors g s w).
Proof.
  intros Hb. unfold mixColors.
  destruct (Rgt_dec (wGain g) 0), (Rgt_dec (pGain g) 0),
    (Rgt_dec (bGain g) 0), (Rgt_dec (dGain g) 0);
    try contradiction; reflexivity.
Qed.

Lemma mixColors_dark_gated (g : gains) (s : state) (w x : R) :
  ~ dGain g > 0 ->
  snd (mixColors g (with_lastDark s x) w) = snd (mixColors g s w).
Proof.
  intros Hd. unfold mixColors.
  destruct (Rgt_dec (wGain g) 0), (Rgt_dec (pGain g) 0),
    (Rgt_dec (bGain g) 0), (Rgt_dec (dGain g) 0);
    try contradiction; reflexivity.
Qed.

Lemma masterGainAt_defined (mg : list R) (i n : nat) :
  Forall (fun m => 0 <= m <= 1) mg ->
  length mg = 1%nat \/ ((1 < length mg)%nat /\ (n <= length mg)%nat) ->
  (i < n)%nat ->
  exists m, masterGainAt mg i = Some m /\ 0 <= m <= 1.
Proof.
  intros Hall Hlen Hi. unfold masterGainAt.
  assert (Hex : forall j, (j < length mg)%nat ->
                  exists m, nth_error mg j = Some m /\ 0 <= m <= 1).
  { intros j Hj. destruct (nth_error mg j) as [m |] eqn:E.
    - exists m. split; [reflexivity |].
      rewrite Forall_forall in Hall. apply Hall.
      apply list_elem_of_In. eapply nth_error_In. exact E.
    - apply nth_error_None in E. lia. }
  destruct (1 <? length mg)%nat eqn:E.
  - apply Nat.ltb_lt in E. apply Hex. lia.
  - apply Nat.ltb_ge in E. apply Hex. lia.
Qed.

Lemma store_finite (bound x m : R) :
  - bound <= x <= bound -> 0 <= m <= 1 ->
  finiteWithin bound (store x (Some m)).
Proof.
  intros Hx Hm. exists (x * m). split; [reflexivity |].
  now apply scale_bound.
Qed.

Lemma fill0_zero {A} (channel : list A) :
  Forall (fun y => y = Num 0) (fill0 channel).
Proof.
  unfold fill0. induction channel; simpl; constructor; auto.
Qed.

Lemma fill0_all_zero (randoms : list (list R)) :
  Forall (Forall (fun y => y = Num 0)) (map fill0 randoms).
Proof.
  induction randoms; simpl; constructor; auto using fill0_zero.
Qed.

End ColourBounds.

Section ColourFrames.
Import NoiseColors.

(** The filter states stay within their bounds for any gains at all. *)
Lemma mixColors_state_stable (g : gains) (s : state) (w : R) :
  stable s -> -1 <= w <= 1 -> stable (fst (mixColors g s w)).
Proof.
  intros Hs Hw. unfold mixColors.
  destruct (pinkStep_stable s w Hs Hw) as [Hps _].
  destruct (pinkStep s w) as [s1 pink] eqn:Ep. simpl in Hps.
  set (s2 := if Rgt_dec (pGain g) 0 then s1 else s).
  assert (Hs2 : stable s2)
    by (subst s2; destruct (Rgt_dec (pGain g) 0); assumption).
  destruct Hs2 as (H0 & H1 & H2 & H3 & H4 & H5 & H6 & Hb & Hd).
  pose proof (brownNext_range (lastBrown s2) w Hb Hw) as Bb.
  pose proof (darkNext_range (lastDark s2) w Hd Hw) as Bd.
  subst s2.
  destruct (Rgt_dec (wGain g) 0), (Rgt_dec (pGain g) 0),
    (Rgt_dec (bGain g) 0), (Rgt_dec (dGain g) 0);
    unfold stable; simpl; repeat split; lra.
Qed.

Lemma integrate_cons (next : R -> R -> R) (x u : R) (draws : list R) :
  integrate next x (u :: draws) = integrate next (next x (whiteOf u)) draws.
Proof. reflexivity. Qed.

Lemma integrate_app (next : R -> R -> R) (x : R) (l1 l2 : list R) :
  integrate next x (l1 ++ l2) = integrate next (integrate next x l1) l2.
Proof. unfold integrate. apply fold_left_app. Qed.

End ColourFrames.

(** ** Noise generator: the four-colour worklet *)

Section FourColours.
Import NoiseColors NoiseProcessor.

Lemma allZero_spec (p : parameters) :
  allZero p = true
  <-> whiteGain p = 0 /\ pinkGain p = 0 /\ brownGain p = 0 /\ darkGain p = 0.
Proof.
  unfold allZero, Js.is_zero.
  destruct (Req_dec_T (whiteGain p) 0), (Req_dec_T (pinkGain p) 0),
    (Req_dec_T (brownGain p) 0), (Req_dec_T (darkGain p) 0);
    simpl; split; intros H; try discriminate; try tauto.
Qed.

Lemma renderChannel_stable (p : parameters) (channel : list R) :
  forall (s : state) (i : nat),
    stable s -> Forall (fun u => 0 <= u < 1) channel ->
    stable (fst (renderChannel p s i channel)).
Proof.
  induction channel as [| u rest IH]; intros s i Hs Hu; simpl.
  - exact Hs.
  - inversion Hu as [| ? ? Hu1 Hu2]; subst.
    pose proof (mixColors_state_stable (gainsOf p) s (whiteOf u) Hs
                  (whiteOf_range u Hu1)) as H1.
    destruct (mixColors (gainsOf p) s (whiteOf u)) as [s1 m]. simpl in H1.
    specialize (IH s1 (S i) H1 Hu2).
    destruct (renderChannel p s1 (S i) rest) as [s2 out]. exact IH.
Qed.

Lemma renderChannels_stable (p : parameters) (randoms : list (list R)) :
  forall s : state,
    stable s -> uniformDraws randoms ->
    stable (fst (renderChannels p s randoms)).
Proof.
  induction randoms as [| ch rest IH]; intros s Hs Hu; simpl.
  - exact Hs.
  - inversion Hu as [| ? ? Hu1 Hu2]; subst.
    pose proof (renderChannel_stable p ch s 0 Hs Hu1) as H1.
    destruct (renderChannel p s 0 ch) as [s1 out]. simpl in H1.
    specialize (IH s1 H1 Hu2).
    destruct (renderChannels p s1 rest) as [s2 outs]. exact IH.
Qed.

Lemma process_stable (s : state) (p : parameters) (randoms : list (list R)) :
  stable s -> uniformDraws randoms -> stable (fst (process s p randoms)).
Proof.
  intros Hs Hu. unfold process. destruct (allZero p); [exact Hs |].
  now apply renderChannels_stable.
Qed.

Lemma reachable_stable (s : state) : reachable s -> stable s.
Proof.
  induction 1 as [| s p randoms _ IH Hu].
  - apply stable_initial.
  - now apply process_stable.
Qed.

Lemma renderChannel_finite (p : parameters) (n : nat) (channel : list R) :
  forall (s : state) (i : nat),
    stable s -> gainsInRange p ->
    Forall (fun u => 0 <= u < 1) channel ->
    Forall (fun m => 0 <= m <= 1) (masterGain p) ->
    length (masterGain p) = 1%nat
    \/ ((1 < length (masterGain p))%nat /\ (n <= length (masterGain p))%nat) ->
    (i + length channel <= n)%nat ->
    Forall (finiteWithin 16.3) (snd (renderChannel p s i channel)).
Proof.
  induction channel as [| u rest IH]; intros s i Hs Hg Hu Hm Hlen Hi; simpl.
  - constructor.
  - inversion Hu as [| ? ? Hu1 Hu2]; subst.
    destruct Hg as (Hw & Hp & Hb & Hd).
    destruct (mixColors_stable (gainsOf p) s (whiteOf u) Hs
                (whiteOf_range u Hu1) Hw Hp Hb Hd) as [H1 H2].
    destruct (mixColors (gainsOf p) s (whiteOf u)) as [s1 m].
    simpl in H1, H2.
    assert (Hrest : Forall (finiteWithin 16.3)
                      (snd (renderChannel p s1 (S i) rest))).
    { apply IH; auto. - repeat split; tauto. - simpl in Hi. lia. }
    destruct (renderChannel p s1 (S i) rest) as [s2 out]. simpl in *.
    constructor; [| exact Hrest].
    destruct (masterGainAt_defined (masterGain p) i n Hm Hlen) as (g & Eg & Hg01).
    { lia. }
    rewrite Eg. apply store_finite; lra.
Qed.

Lemma renderChannels_finite (p : parameters) (randoms : list (list R)) :
  forall s : state,
    stable s -> gainsInRange p -> uniformDraws randoms ->
    Forall (fun m => 0 <= m <= 1) (masterGain p) ->
    length (masterGain p) = 1%nat
    \/ ((1 < length (masterGain p))%nat
        /\ Forall (fun ch => (length ch <= length (masterGain p))%nat) randoms) ->
    Forall (Forall (finiteWithin 16.3)) (snd (renderChannels p s randoms)).
Proof.
  induction randoms as [| ch rest IH]; intros s Hs Hg Hu Hm Hlen; simpl.
  - constructor.
  - inversion Hu as [| ? ? Hu1 Hu2]; subst.
    pose proof (renderChannel_stable p ch s 0 Hs Hu1) as H1.
    assert (Hch : Forall (finiteWithin 16.3) (snd (renderChannel p s 0 ch))).
    { apply (renderChannel_finite p (length ch)); auto.
      destruct Hlen as [? | [Hl Hall]]; [now left | right].
      split; [assumption |]. now inversion Hall. }
    destruct (renderChannel p s 0 ch) as [s1 out]. simpl in H1, Hch.
    assert (Hrest : Forall (Forall (finiteWithin 16.3))
                      (snd (renderChannels p s1 rest))).
    { apply IH; auto.
      destruct Hlen as [? | [Hl Hall]]; [now left | right].
      split; [assumption |]. now inversion Hall. }
    destruct (renderChannels p s1 rest) as [s2 outs]. simpl in *.
    constructor; assumption.
Qed.

(** Frame and integrator facts over a channel and over a block. *)
Lemma renderChannel_pink_frame (p : parameters) (channel : list R) :
  forall (s : state) (i : nat),
    ~ pinkGain p > 0 ->
    pinkState (fst (renderChannel p s i channel)) = pinkState s.
Proof.
  induction channel as [| u rest IH]; intros s i Hp; simpl.
  - reflexivity.
  - pose proof (mixColors_pink_frame (gainsOf p) s (whiteOf u) Hp) as H1.
    destruct (mixColors (gainsOf p) s (whiteOf u)) as [s1 m]. simpl in H1.
    specialize (IH s1 (S i) Hp).
    destruct (renderChannel p s1 (S i) rest) as [s2 out]. simpl in *.
    congruence.
Qed.

Lemma renderChannel_integrators (p : parameters) (channel : list R) :
  forall (s : state) (i : nat),
    lastBrown (fst (renderChannel p s i channel))
    = integrate brownNext (lastBrown s) channel
    /\ lastDark (fst (renderChannel p s i channel))
       = integrate darkNext (lastDark s) channel.
Proof.
  induction channel as [| u rest IH]; intros s i.
  - split; reflexivity.
  - rewrite !integrate_cons. simpl.
    destruct (mixColors_integrators (gainsOf p) s (whiteOf u)) as [Hb Hd].
    destruct (mixColors (gainsOf p) s (whiteOf u)) as [s1 m]. simpl in Hb, Hd.
    specialize (IH s1 (S i)).
    destruct (renderChannel p s1 (S i) rest) as [s2 out]. simpl in *.
    rewrite <- Hb, <- Hd. exact IH.
Qed.

Lemma renderChannels_pink_frame (p : parameters) (randoms : list (list R)) :
  forall s : state,
    ~ pinkGain p > 0 ->
    pinkState (fst (renderChannels p s randoms)) = pinkState s.
Proof.
  induction randoms as [| ch rest IH]; intros s Hp; simpl.
  - reflexivity.
  - pose proof (renderChannel_pink_frame p ch s 0 Hp) as H1.
    destruct (renderChannel p s 0 ch) as [s1 out]. simpl in H1.
    specialize (IH s1 Hp).
    destruct (renderChannels p s1 rest) as [s2 outs]. simpl in *.
    congruence.
Qed.

Lemma renderChannels_integrators (p : parameters) (randoms : list (list R)) :
  forall s : state,
    lastBrown (fst (renderChannels p s randoms))
    = integrate brownNext (lastBrown s) (concat randoms)
    /\ lastDark (fst (renderChannels p s randoms))
       = integrate darkNext (lastDark s) (concat randoms).
Proof.
  induction randoms as [| ch rest IH]; intros s; simpl.
  - split; reflexivity.
  - destruct (renderChannel_integrators p ch s 0) as [Hb Hd].
    destruct (renderChannel p s 0 ch) as [s1 out]. simpl in Hb, Hd.
    specialize (IH s1).
    destruct (renderChannels p s1 rest) as [s2 outs]. simpl in *.
    rewrite !integrate_app, <- Hb, <- Hd. exact IH.
Qed.

End FourColours.

(** ** Noise generator: the worklet with the rumble bank *)

Section Rumble.
Import NoiseColors RumbleNoiseProcessor.

Lemma rumble_allZero_spec (p : parameters) :
  allZero p = true
  <-> whiteGain p = 0 /\ pinkGain p = 0 /\ brownGain p = 0
      /\ darkGain p = 0 /\ rumbleGain p = 0.
Proof.
  unfold allZero, Js.is_zero.
  destruct (Req_dec_T (whiteGain p) 0), (Req_dec_T (pinkGain p) 0),
    (Req_dec_T (brownGain p) 0), (Req_dec_T (darkGain p) 0),
    (Req_dec_T (rumbleGain p) 0);
    simpl; split; intros H; try discriminate; try tauto.
Qed.

(** The rumble term has magnitude at most 1.3 * 0.8 and leaves the colour
    filters alone. *)
Lemma rumbleStep_bound (p : parameters) (rate : R) (s : state) :
  0 <= rumbleGain p <= 1 ->
  colors (fst (rumbleStep p rate s)) = colors s
  /\ -1.04 <= snd (rumbleStep p rate s) <= 1.04.
Proof.
  intros Hg. unfold rumbleStep. simpl. split; [reflexivity |].
  set (ph1 := advance _ _). set (ph2 := advance _ _).
  set (ph3 := advance _ _). set (phm := advance _ _).
  pose proof (SIN_bound ph1). pose proof (SIN_bound ph2).
  pose proof (SIN_bound ph3). pose proof (SIN_bound phm).
  set (a := sin ph1 * 0.5 + sin ph2 * 0.3 + sin ph3 * 0.2).
  set (m := 1.0 + sin phm * 0.3).
  assert (Ha : -1 <= a <= 1) by (subst a; lra).
  assert (Hm : 0.7 <= m <= 1.3) by (subst m; lra).
  assert (Ham : - (1.3) <= a * m <= 1.3) by nra.
  pose proof (scale_bound 1.3 (a * m) (rumbleGain p) Ham Hg). lra.
Qed.

Lemma renderSample_colors (p : parameters) (rate : R) (s : state) (w : R) :
  colors (fst (renderSample p rate s w))
  = fst (mixColors (gainsOf p) (colors s) w).
Proof.
  unfold renderSample.
  destruct (mixColors (gainsOf p) (colors s) w) as [c m].
  destruct (Rgt_dec (rumbleGain p) 0); [| reflexivity].
  unfold rumbleStep. reflexivity.
Qed.

Lemma renderSample_bound (p : parameters) (rate : R) (s : state) (w : R) :
  stable (colors s) -> -1 <= w <= 1 -> gainsInRange p ->
  -17.4 <= snd (renderSample p rate s w) <= 17.4.
Proof.
  intros Hs Hw (Hgw & Hgp & Hgb & Hgd & Hgr). unfold renderSample.
  destruct (mixColors_stable (gainsOf p) (colors s) w Hs Hw Hgw Hgp Hgb Hgd)
    as [_ Hm].
  destruct (mixColors (gainsOf p) (colors s) w) as [c m]. simpl in Hm.
  destruct (Rgt_dec (rumbleGain p) 0); [| simpl; lra].
  set (s1 := mkState c _ _ _ _).
  destruct (rumbleStep_bound p rate s1 Hgr) as [_ Hr].
  destruct (rumbleStep p rate s1) as [s2 rum]. simpl in *. lra.
Qed.

Lemma rumble_renderChannel_stable (p : parameters) (rate : R)
    (channel : list R) :
  forall (s : state) (i : nat),
    stable (colors s) -> Forall (fun u => 0 <= u < 1) channel ->
    stable (colors (fst (renderChannel p rate s i channel))).
Proof.
  induction channel as [| u rest IH]; intros s i Hs Hu; simpl.
  - exact Hs.
  - inversion Hu as [| ? ? Hu1 Hu2]; subst.
    pose proof (renderSample_colors p rate s (whiteOf u)) as Hc.
    pose proof (mixColors_state_stable (gainsOf p) (colors s) (whiteOf u) Hs
                  (whiteOf_range u Hu1)) as H1.
    rewrite <- Hc in H1.
    destruct (renderSample p rate s (whiteOf u)) as [s1 m]. simpl in H1.
    specialize (IH s1 (S i) H1 Hu2).
    destruct (renderChannel p rate s1 (S i) rest) as [s2 out]. exact IH.
Qed.

Lemma rumble_renderChannels_stable (p : parameters) (rate : R)
    (randoms : list (list R)) :
  forall s : state,
    stable (colors s) -> uniformDraws randoms ->
    stable (colors (fst (renderChannels p rate s randoms))).
Proof.
  induction randoms as [| ch rest IH]; intros s Hs Hu; simpl.
  - exact Hs.
  - inversion Hu as [| ? ? Hu1 Hu2]; subst.
    pose proof (rumble_renderChannel_stable p rate ch s 0 Hs Hu1) as H1.
    destruct (renderChannel p rate s 0 ch) as [s1 out]. simpl in H1.
    specialize (IH s1 H1 Hu2).
    destruct (renderChannels p rate s1 rest) as [s2 outs]. exact IH.
Qed.

Lemma rumble_process_stable (s : state) (p : parameters)
    (randoms : list (list R)) :
  stable (colors s) -> uniformDraws randoms ->
  stable (colors (fst (process s p randoms))).
Proof.
  intros Hs Hu. unfold process. destruct (allZero p); [exact Hs |].
  now apply rumble_renderChannels_stable.
Qed.

Lemma rumble_reachable_stable (s : state) : reachable s -> stable (colors s).
Proof.
  induction 1 as [| s p randoms _ IH Hu].
  - apply stable_initial.
  - now apply rumble_process_stable.
Qed.

Lemma rumble_renderChannel_finite (p : parameters) (rate : R) (n : nat)
    (channel : list R) :
  forall (s : state) (i : nat),
    stable (colors s) -> gainsInRange p ->
    Forall (fun u => 0 <= u < 1) channel ->
    Forall (fun m => 0 <= m <= 1) (masterGain p) ->
    length (masterGain p) = 1%nat
    \/ ((1 < length (masterGain p))%nat /\ (n <= length (masterGain p))%nat) ->
    (i + length channel <= n)%nat ->
    Forall (finiteWithin 17.4) (snd (renderChannel p rate s i channel)).
Proof.
  induction channel as [| u rest IH]; intros s i Hs Hg Hu Hm Hlen Hi; simpl.
  - constructor.
  - inversion Hu as [| ? ? Hu1 Hu2]; subst.
    pose proof (renderSample_bound p rate s (whiteOf u) Hs
                  (whiteOf_range u Hu1) Hg) as H2.
    pose proof (renderSample_colors p rate s (whiteOf u)) as Hc.
    pose proof (mixColors_state_stable (gainsOf p) (colors s) (whiteOf u) Hs
                  (whiteOf_range u Hu1)) as H1.
    rewrite <- Hc in H1.
    destruct (renderSample p rate s (whiteOf u)) as [s1 m].
    simpl in H1, H2.
    assert (Hrest : Forall (finiteWithin 17.4)
                      (snd (renderChannel p rate s1 (S i) rest))).
    { apply IH; auto. simpl in Hi. lia. }
    destruct (renderChannel p rate s1 (S i) rest) as [s2 out]. simpl in *.
    constructor; [| exact Hrest].
    destruct (masterGainAt_defined (masterGain p) i n Hm Hlen) as (g & Eg & Hg01).
    { lia. }
    rewrite Eg. apply store_finite; lra.
Qed.

Lemma rumble_renderChannels_finite (p : parameters) (rate : R)
    (randoms : list (list R)) :
  forall s : state,
    stable (colors s) -> gainsInRange p -> uniformDraws randoms ->
    Forall (fun m => 0 <= m <= 1) (masterGain p) ->
    length (masterGain p) = 1%nat
    \/ ((1 < length (masterGain p))%nat
        /\ Forall (fun ch => (length ch <= length (masterGain p))%nat) randoms) ->
    Forall (Forall (finiteWithin 17.4)) (snd (renderChannels p rate s randoms)).
Proof.
  induction randoms as [| ch rest IH]; intros s Hs Hg Hu Hm Hlen; simpl.
  - constructor.
  - inversion Hu as [| ? ? Hu1 Hu2]; subst.
    pose proof (rumble_renderChannel_stable p rate ch s 0 Hs Hu1) as H1.
    assert (Hch : Forall (finiteWithin 17.4)
                    (snd (renderChannel p rate s 0 ch))).
    { apply (rumble_renderChannel_finite p rate (length ch)); auto.
      destruct Hlen as [? | [Hl Hall]]; [now left | right].
      split; [assumption |]. now inversion Hall. }
    destruct (renderChannel p rate s 0 ch) as [s1 out]. simpl in H1, Hch.
    assert (Hrest : Forall (Forall (finiteWithin 17.4))
                      (snd (renderChannels p rate s1 rest))).
    { apply IH; auto.
      destruct Hlen as [? | [Hl Hall]]; [now left | right].
      split; [assumption |]. now inversion Hall. }
    destruct (renderChannels p rate s1 rest) as [s2 outs]. simpl in *.
    constructor; assumption.
Qed.

Lemma rumble_renderChannel_frames (p : parameters) (rate : R)
    (channel : list R) :
  forall (s : state) (i : nat),
    let s' := colors (fst (renderChannel p rate s i channel)) in
    (~ pinkGain p > 0 -> pinkState s' = pinkState (colors s))
    /\ lastBrown s' = integrate brownNext (lastBrown (colors s)) channel
    /\ lastDark s' = integrate darkNext (lastDark (colors s)) channel.
Proof.
  induction channel as [| u rest IH]; intros s i.
  - repeat split; reflexivity.
  - rewrite !integrate_cons. simpl.
    pose proof (renderSample_colors p rate s (whiteOf u)) as Hc.
    destruct (mixColors_integrators (gainsOf p) (colors s) (whiteOf u))
      as [Hb Hd].
    pose proof (mixColors_pink_frame (gainsOf p) (colors s) (whiteOf u)) as Hp.
    rewrite <- Hc in Hb, Hd, Hp.
    destruct (renderSample p rate s (whiteOf u)) as [s1 m]. simpl in Hb, Hd, Hp.
    specialize (IH s1 (S i)).
    destruct (renderChannel p rate s1 (S i) rest) as [s2 out]. simpl in *.
    destruct IH as (I1 & I2 & I3).
    rewrite <- Hb, <- Hd. repeat split; auto.
    intros Hn. rewrite (I1 Hn). now apply Hp.
Qed.

Lemma rumble_renderChannels_frames (p : parameters) (rate : R)
    (randoms : list (list R)) :
  forall s : state,
    let s' := colors (fst (renderChannels p rate s randoms)) in
    (~ pinkGain p > 0 -> pinkState s' = pinkState (colors s))
    /\ lastBrown s' = integrate brownNext (lastBrown (colors s)) (concat randoms)
    /\ lastDark s' = integrate darkNext (lastDark (colors s)) (concat randoms).
Proof.
  induction randoms as [| ch rest IH]; intros s; simpl.
  - repeat split; reflexivity.
  - destruct (rumble_renderChannel_frames p rate ch s 0) as (F1 & F2 & F3).
    destruct (renderChannel p rate s 0 ch) as [s1 out]. simpl in F1, F2, F3.
    specialize (IH s1).
    destruct (renderChannels p rate s1 rest) as [s2 outs]. simpl in *.
    destruct IH as (I1 & I2 & I3).
    rewrite !integrate_app, <- F2, <- F3. repeat split; auto.
    intros Hn. rewrite (I1 Hn). now apply F1.
Qed.

End Rumble.

(** ** Noise generator: silence, finiteness and gating *)

Section NoiseGenerator.
Import NoiseColors.

(** C1: in both worklets a render call whose colour gains (and rumble
    gain, where there is one) are all 0 fills every channel with 0 and
    leaves the state alone; and in every state the processor can reach,
    with gains in [0,1], draws of [Math.random] in [0,1) and a master-gain
    array as the host supplies it, every output sample is a number (never
    [NaN]) of magnitude at most 16.3 (17.4 with the rumble bank). *)
Theorem silence_and_finite_output
    (s : NoiseColors.state) (p : NoiseProcessor.parameters)
    (sr : RumbleNoiseProcessor.state) (pr : RumbleNoiseProcessor.parameters)
    (randoms : list (list R)) :
  (NoiseProcessor.whiteGain p = 0 -> NoiseProcessor.pinkGain p = 0 ->
   NoiseProcessor.brownGain p = 0 -> NoiseProcessor.darkGain p = 0 ->
   NoiseProcessor.process s p randoms = (s, map fill0 randoms)
   /\ Forall (Forall (fun y => y = Num 0))
             (snd (NoiseProcessor.process s p randoms)))
  /\ (RumbleNoiseProcessor.whiteGain pr = 0 ->
      RumbleNoiseProcessor.pinkGain pr = 0 ->
      RumbleNoiseProcessor.brownGain pr = 0 ->
      RumbleNoiseProcessor.darkGain pr = 0 ->
      RumbleNoiseProcessor.rumbleGain pr = 0 ->
      RumbleNoiseProcessor.process sr pr randoms = (sr, map fill0 randoms)
      /\ Forall (Forall (fun y => y = Num 0))
                (snd (RumbleNoiseProcessor.process sr pr randoms)))
  /\ (NoiseProcessor.reachable s -> NoiseProcessor.gainsInRange p ->
      uniformDraws randoms ->
      wellFormedMaster (NoiseProcessor.masterGain p) randoms ->
      Forall (Forall (finiteWithin 16.3))
             (snd (NoiseProcessor.process s p randoms)))
  /\ (RumbleNoiseProcessor.reachable sr ->
      RumbleNoiseProcessor.gainsInRange pr ->
      uniformDraws randoms ->
      wellFormedMaster (RumbleNoiseProcessor.masterGain pr) randoms ->
      Forall (Forall (finiteWithin 17.4))
             (snd (RumbleNoiseProcessor.process sr pr randoms))).
Proof.
  assert (Hzero : forall b, Forall (Forall (finiteWithin b)) (map fill0 randoms)
                            \/ ~ 0 <= b).
  { intros b. destruct (Rle_dec 0 b) as [Hb | Hb]; [left | now right].
    induction randoms as [| ch rest IH]; simpl; constructor; auto.
    unfold fill0. induction ch; simpl; constructor; auto.
    exists 0. split; [reflexivity | lra]. }
  split; [| split; [| split]].
  - intros Hw Hp Hb Hd.
    assert (E : NoiseProcessor.allZero p = true)
      by (apply allZero_spec; tauto).
    unfold NoiseProcessor.process. rewrite E. split; [reflexivity |].
    apply fill0_all_zero.
  - intros Hw Hp Hb Hd Hr.
    assert (E : RumbleNoiseProcessor.allZero pr = true)
      by (apply rumble_allZero_spec; tauto).
    unfold RumbleNoiseProcessor.process. rewrite E. split; [reflexivity |].
    apply fill0_all_zero.
  - intros Hreach Hg Hu [Hm Hlen].
    unfold NoiseProcessor.process.
    destruct (NoiseProcessor.allZero p).
    + destruct (Hzero 16.3) as [H | H]; [exact H | lra].
    + apply renderChannels_finite; auto using reachable_stable.
  - intros Hreach Hg Hu [Hm Hlen].
    unfold RumbleNoiseProcessor.process.
    destruct (RumbleNoiseProcessor.allZero pr).
    + destruct (Hzero 17.4) as [H | H]; [exact H | lra].
    + apply rumble_renderChannels_finite; auto using rumble_reachable_stable.
Qed.

Lemma smallBlock_uniform : uniformDraws Scenarios.smallBlock.
Proof.
  unfold uniformDraws, Scenarios.smallBlock.
  repeat (constructor; try lra).
Qed.

Lemma silence_and_finite_output_witness :
  Forall (Forall (fun y => y = Num 0))
    (snd (NoiseProcessor.process NoiseColors.initial
            (NoiseProcessor.mkParams 0 0 0 0 [1]) Scenarios.smallBlock))
  /\ Forall (Forall (finiteWithin 16.3))
       (snd (NoiseProcessor.process NoiseColors.initial
               (NoiseProcessor.mkParams 0 0.5 0.3 0.2 [1]) Scenarios.smallBlock))
  /\ Forall (Forall (finiteWithin 17.4))
       (snd (RumbleNoiseProcessor.process RumbleNoiseProcessor.initial
               (RumbleNoiseProcessor.mkParams 0 0.5 0.3 0.2 1 55 1
                  [1; 0.5; 0.25] None)
               Scenarios.smallBlock)).
Proof.
  split; [| split].
  - apply (silence_and_finite_output NoiseColors.initial
             (NoiseProcessor.mkParams 0 0 0 0 [1])
             RumbleNoiseProcessor.initial
             (RumbleNoiseProcessor.mkParams 0 0 0 0 0 55 1 [1] None)
             Scenarios.smallBlock); reflexivity.
  - apply (silence_and_finite_output NoiseColors.initial
             (NoiseProcessor.mkParams 0 0.5 0.3 0.2 [1])
             RumbleNoiseProcessor.initial
             (RumbleNoiseProcessor.mkParams 0 0 0 0 0 55 1 [1] None)
             Scenarios.smallBlock).
    + constructor.
    + unfold NoiseProcessor.gainsInRange. simpl. lra.
    + apply smallBlock_uniform.
    + split; [repeat constructor; lra | now left].
  - apply (silence_and_finite_output NoiseColors.initial
             (NoiseProcessor.mkParams 0 0 0 0 [1])
             RumbleNoiseProcessor.initial
             (RumbleNoiseProcessor.mkParams 0 0.5 0.3 0.2 1 55 1
                [1; 0.5; 0.25] None)
             Scenarios.smallBlock).
    + constructor.
    + unfold RumbleNoiseProcessor.gainsInRange. simpl. lra.
    + apply smallBlock_uniform.
    + split; [repeat constructor; lra |]. right. split; [simpl; lia |].
      unfold Scenarios.smallBlock. repeat constructor.
Defined.

(** C8, as stated, fails for brown and dark: with white at gain 1 and the
    brown and dark gains at 0, one sample moves both integrators away from
    their initial value 0. *)
Lemma integrators_advance_at_zero_gain :
  let p := NoiseProcessor.mkParams 1 0 0 0 [1] in
  let s' := fst (NoiseProcessor.process NoiseColors.initial p [[0.75]]) in
  NoiseProcessor.brownGain p = 0 /\ NoiseProcessor.darkGain p = 0
  /\ NoiseProcessor.allZero p = false
  /\ lastBrown s' <> lastBrown NoiseColors.initial
  /\ lastDark s' <> lastDark NoiseColors.initial.
Proof.
  intros p s'.
  assert (E : NoiseProcessor.allZero p = false).
  { destruct (NoiseProcessor.allZero p) eqn:E; [| reflexivity].
    apply allZero_spec in E. destruct E as [E _]. simpl in E. lra. }
  split; [reflexivity |]. split; [reflexivity |]. split; [exact E |].
  subst s'. unfold NoiseProcessor.process. rewrite E.
  destruct (renderChannels_integrators p [[0.75]] NoiseColors.initial)
    as [Hb Hd].
  rewrite Hb, Hd.
  unfold integrate, brownNext, darkNext, whiteOf. simpl. split; lra.
Qed.

(** C8 (amended): in a render block in which not all gains are 0, a pink
    gain of exactly 0 leaves the pink states b0..b6 unchanged; the brown
    and dark integrators advance over every draw of the block whatever the
    gains are, and what a zero gain skips for them is the addition to the
    mix, which then does not depend on the integrator.  The same holds for
    the colour filters of the worklet with the rumble bank. *)
Theorem zero_gain_gating
    (s : NoiseColors.state) (p : NoiseProcessor.parameters)
    (sr : RumbleNoiseProcessor.state) (pr : RumbleNoiseProcessor.parameters)
    (randoms : list (list R)) :
  (NoiseProcessor.allZero p = false ->
   let s' := fst (NoiseProcessor.process s p randoms) in
   (NoiseProcessor.pinkGain p = 0 -> pinkState s' = pinkState s)
   /\ lastBrown s' = integrate brownNext (lastBrown s) (concat randoms)
   /\ lastDark s' = integrate darkNext (lastDark s) (concat randoms))
  /\ (RumbleNoiseProcessor.allZero pr = false ->
      let s' := RumbleNoiseProcessor.colors
                  (fst (RumbleNoiseProcessor.process sr pr randoms)) in
      let s0 := RumbleNoiseProcessor.colors sr in
      (RumbleNoiseProcessor.pinkGain pr = 0 -> pinkState s' = pinkState s0)
      /\ lastBrown s' = integrate brownNext (lastBrown s0) (concat randoms)
      /\ lastDark s' = integrate darkNext (lastDark s0) (concat randoms))
  /\ (forall (g : gains) (c : NoiseColors.state) (w x : R),
        (bGain g = 0 ->
         snd (mixColors g (with_lastBrown c x) w) = snd (mixColors g c w))
        /\ (dGain g = 0 ->
            snd (mixColors g (with_lastDark c x) w) = snd (mixColors g c w))).
Proof.
  split; [| split].
  - intros E s'. subst s'. unfold NoiseProcessor.process. rewrite E.
    destruct (renderChannels_integrators p randoms s) as [Hb Hd].
    split; [| split; assumption].
    intros Hp. apply renderChannels_pink_frame. lra.
  - intros E s' s0. subst s' s0. unfold RumbleNoiseProcessor.process.
    rewrite E.
    destruct (rumble_renderChannels_frames pr
                (Js.or_default (RumbleNoiseProcessor.globalSampleRate pr) 44100)
                randoms sr) as (F1 & F2 & F3).
    split; [| split; assumption].
    intros Hp. apply F1. lra.
  - intros g c w x. split; intros H.
    + apply mixColors_brown_gated. lra.
    + apply mixColors_dark_gated. lra.
Qed.

Lemma zero_gain_gating_witness :
  let p := NoiseProcessor.mkParams 1 0 0 0 [1] in
  pinkState (fst (NoiseProcessor.process NoiseColors.initial p
                    Scenarios.smallBlock))
  = pinkState NoiseColors.initial
  /\ lastBrown (fst (NoiseProcessor.process NoiseColors.initial p
                       Scenarios.smallBlock))
     = integrate brownNext 0 [0.75; 0.25; 0.5; 0.5; 0; 0.75].
Proof.
  intros p.
  destruct (zero_gain_gating NoiseColors.initial p
              RumbleNoiseProcessor.initial
              (RumbleNoiseProcessor.mkParams 0 0 0 0 0 55 1 [1] None)
              Scenarios.smallBlock) as (H & _ & _).
  assert (E : NoiseProcessor.allZero p = false).
  { destruct (NoiseProcessor.allZero p) eqn:E; [| reflexivity].
    apply allZero_spec in E. destruct E as [E _]. simpl in E. lra. }
  destruct (H E) as (Hp & Hb & _).
  split; [apply Hp; reflexivity | exact Hb].
Defined.

End NoiseGenerator.

(** ** Impact detection and cooldown *)

Section Impact.
Import ImpactDetector.

Implicit Types (d : t) (spectrum : list byte) (gain : option R)
  (ticks : list (list byte * option R)).

Lemma updateBaseline_controls d bandId e :
  controls (updateBaseline d bandId e) = controls d.
Proof. reflexivity. Qed.

Lemma analyseBand_controls (acc : Deviations * t) (bandId : string) :
  controls (snd (analyseBand acc bandId)) = controls (snd acc).
Proof.
  destruct acc as [a d]. unfold analyseBand.
  destruct (find _ DETECTION_BANDS); reflexivity.
Qed.

Lemma fold_analyseBand_controls (ids : list string) :
  forall acc : Deviations * t,
    controls (snd (fold_left analyseBand ids acc)) = controls (snd acc).
Proof.
  induction ids as [| i rest IH]; intros acc; simpl.
  - reflexivity.
  - rewrite IH. apply analyseBand_controls.
Qed.

(** The deviation pass changes nothing but the baseline map. *)
Lemma analyse_controls d : controls (snd (analyse d)) = controls d.
Proof.
  unfold analyse. destruct (enabledBandIds d) as [| i rest] eqn:E.
  - reflexivity.
  - pose proof (fold_analyseBand_controls (i :: rest) (mkDev 0 0 None, d)) as H.
    destruct (fold_left analyseBand (i :: rest) (mkDev 0 0 None, d)) as [a d1].
    exact H.
Qed.

Lemma controls_fields d d' :
  controls d' = controls d ->
  callbacks d' = callbacks d /\ isRunning d' = isRunning d
  /\ sensitivity d' = sensitivity d
  /\ impactCooldownFrames d' = impactCooldownFrames d
  /\ reactiveEnabled d' = reactiveEnabled d.
Proof. unfold controls. intros H. inversion H. tauto. Qed.

(** What a tick of a running detector emits and leaves in the cooldown
    counter, in terms of the deviations it measured. *)
Lemma loop_running d spectrum :
  isRunning d = true ->
  let a := tickDeviations d spectrum in
  let c1 := impactCooldownFrames (tickCooldown d) in
  let fires :=
    reactiveEnabled d && (c1 =? 0)%nat
    && (if Rgt_dec (maxDeviation a) (impactThreshold d) then true else false) in
  impact (snd (loop d spectrum))
  = (if fires && onImpact (callbacks d)
     then Some (Rmin (maxDeviation a * 3) 1.0, maxDeviationBandId a)
     else None)
  /\ impactCooldownFrames (fst (loop d spectrum))
     = (if fires then MAX_IMPACT_COOLDOWN else c1)
  /\ isRunning (fst (loop d spectrum)) = true
  /\ callbacks (fst (loop d spectrum)) = callbacks d
  /\ sensitivity (fst (loop d spectrum)) = sensitivity d
  /\ reactiveEnabled (fst (loop d spectrum)) = reactiveEnabled d.
Proof.
  intros Hrun a c1 fires. subst a c1 fires.
  unfold loop, tickDeviations. rewrite Hrun. simpl negb. cbv iota.
  set (d1 := tickCooldown (with_frequencyData d spectrum)).
  assert (Hd1 : callbacks d1 = callbacks d /\ isRunning d1 = isRunning d
                /\ sensitivity d1 = sensitivity d
                /\ impactCooldownFrames d1 = impactCooldownFrames (tickCooldown d)
                /\ reactiveEnabled d1 = reactiveEnabled d).
  { subst d1. unfold tickCooldown. simpl.
    destruct (0 <? impactCooldownFrames d)%nat; simpl; tauto. }
  destruct Hd1 as (Hcb & Hr & Hs & Hc & Hre).
  destruct (controls_fields _ _ (analyse_controls d1))
    as (Acb & Ar & As & Ac & Are).
  destruct (analyse d1) as [a d2]. simpl in Acb, Ar, As, Ac, Are. simpl fst.
  unfold detectImpact, impactThreshold.
  cbn [reactiveEnabled impactCooldownFrames sensitivity callbacks
       with_noiseScore].
  rewrite ?Are, ?Ac, ?As, ?Acb, ?Hre, ?Hc, ?Hs, ?Hcb.
  assert (Hfin : forall v,
            isRunning (with_noiseScore d2 v) = true
            /\ callbacks (with_noiseScore d2 v) = callbacks d
            /\ sensitivity (with_noiseScore d2 v) = sensitivity d
            /\ reactiveEnabled (with_noiseScore d2 v) = reactiveEnabled d)
    by (intros v; simpl; rewrite Ar, Hr, Acb, Hcb, As, Hs, Are, Hre; tauto).
  assert (Hcool : forall v,
            impactCooldownFrames (with_noiseScore d2 v)
            = impactCooldownFrames (tickCooldown d))
    by (intros v; simpl; now rewrite Ac, Hc).
  destruct (reactiveEnabled d) eqn:Ere; cbn [andb];
    [| cbn [fst snd impact]; rewrite Hcool; split; [reflexivity |];
       split; [reflexivity |]; apply Hfin].
  destruct (impactCooldownFrames (tickCooldown d) =? 0)%nat; cbn [andb];
    [| cbn [fst snd impact]; rewrite Hcool; split; [reflexivity |];
       split; [reflexivity |]; apply Hfin].
  destruct (Rgt_dec (maxDeviation a) (0.3 * (1.0 - sensitivity d) + 0.05));
    cbn [andb];
    [| cbn [fst snd impact]; rewrite Hcool; split; [reflexivity |];
       split; [reflexivity |]; apply Hfin].
  cbn [fst snd impact].
  split; [destruct (onImpact (callbacks d)); reflexivity |].
  split; [reflexivity |].
  destruct (Hfin (noiseScore d2 * 0.92 + totalDeviation a * (1 - 0.92)))
    as (F1 & F2 & F3 & F4).
  simpl in *. tauto.
Qed.

Lemma loop_stopped d spectrum :
  isRunning d = false -> loop d spectrum = (d, mkOut None None).
Proof. intros H. unfold loop. now rewrite H. Qed.

Lemma run_cons d spectrum gain ticks :
  run d ((spectrum, gain) :: ticks)
  = (fst (run (report (fst (loop d spectrum)) gain) ticks),
     snd (loop d spectrum)
     :: snd (run (report (fst (loop d spectrum)) gain) ticks)).
Proof.
  simpl. destruct (loop d spectrum) as [d1 o]. simpl.
  destruct (run (report d1 gain) ticks) as [d2 os]. reflexivity.
Qed.

(** A gain report touches the masking gain only. *)
Lemma report_fields d gain :
  callbacks (report d gain) = callbacks d
  /\ isRunning (report d gain) = isRunning d
  /\ sensitivity (report d gain) = sensitivity d
  /\ impactCooldownFrames (report d gain) = impactCooldownFrames d
  /\ reactiveEnabled (report d gain) = reactiveEnabled d
  /\ baselineEnergies (report d gain) = baselineEnergies d
  /\ enabledBandIds (report d gain) = enabledBandIds d
  /\ sampleRate (report d gain) = sampleRate d.
Proof. destruct gain; simpl; tauto. Qed.



End Impact.

(** ** A detector listening to a full-scale spectrum *)

Section FlatSpectrum.
Import ImpactDetector.

Implicit Types (d : t).



(** The part of a running tick that does not depend on the deviations. *)
Lemma loop_frame d (spectrum : list byte) :
  isRunning d = true ->
  let d2 := snd (analyse (tickCooldown (with_frequencyData d spectrum))) in
  baselineEnergies (fst (loop d spectrum)) = baselineEnergies d2
  /\ enabledBandIds (fst (loop d spectrum)) = enabledBandIds d
  /\ sampleRate (fst (loop d spectrum)) = sampleRate d
  /\ currentNoiseGain (fst (loop d spectrum)) = currentNoiseGain d.
Proof.
  intros Hrun d2. subst d2. unfold loop. rewrite Hrun. simpl negb. cbv iota.
  set (d1 := tickCooldown (with_frequencyData d spectrum)).
  assert (Hd1 : enabledBandIds d1 = enabledBandIds d
                /\ sampleRate d1 = sampleRate d
                /\ currentNoiseGain d1 = currentNoiseGain d).
  { subst d1. unfold tickCooldown. simpl.
    destruct (0 <? impactCooldownFrames d)%nat; simpl; tauto. }
  pose proof (analyse_controls d1) as Hc. unfold controls in Hc.
  destruct (analyse d1) as [a d2]. simpl in Hc. inversion Hc.
  destruct Hd1 as (E1 & E2 & E3).
  unfold detectImpact.
  destruct (reactiveEnabled _ && _);
    [destruct (Rgt_dec _ _) |]; simpl; repeat split; congruence.
Qed.




End FlatSpectrum.

(** ** The impact rule *)

Section ImpactRule.
Import ImpactDetector.



End ImpactRule.

(** * Further properties of the code *)

(** ** Detector: energies, cold start and silent degradation *)

Section DetectorEdges.
Import ImpactDetector.

Implicit Types (d : t) (spectrum : list byte).

(** X1: a band energy is a mean of bytes divided by 255, so it lies in
    [0,1] for every band and spectrum; with no bins to read (an empty
    buffer) it is 0. *)
Theorem band_energy_unit_interval d (minF maxF : R) :
  0 <= getBandEnergy d minF maxF <= 1
  /\ (frequencyData d = [] -> getBandEnergy d minF maxF = 0).
Proof.
  split; [apply getBandEnergy_range |].
  intros Hdata. unfold getBandEnergy. rewrite Hdata. simpl length.
  destruct (Z.max 0 (freqToBin d minF)
            >=? Z.min (Z.of_nat 0 - 1) (freqToBin d maxF))%Z eqn:E;
    [reflexivity |].
  rewrite Z.geb_leb in E. apply Z.leb_gt in E. lia.
Qed.

Lemma band_energy_unit_interval_witness :
  getBandEnergy (with_frequencyData (Scenarios.warmDetector 0.2) []) 50 100
  = 0.
Proof.
  apply (band_energy_unit_interval
           (with_frequencyData (Scenarios.warmDetector 0.2) []) 50 100).
  reflexivity.
Defined.

Lemma tickCooldown_frame d :
  baselineEnergies (tickCooldown d) = baselineEnergies d
  /\ enabledBandIds (tickCooldown d) = enabledBandIds d
  /\ noiseScore (tickCooldown d) = noiseScore d
  /\ frequencyData (tickCooldown d) = frequencyData d
  /\ currentNoiseGain (tickCooldown d) = currentNoiseGain d.
Proof.
  unfold tickCooldown.
  destruct (0 <? impactCooldownFrames d)%nat; simpl; tauto.
Qed.

(** The noise score a running tick leaves. *)
Lemma loop_score d spectrum :
  isRunning d = true ->
  noiseScore (fst (loop d spectrum))
  = noiseScore d * 0.92
    + totalDeviation (tickDeviations d spectrum) * (1 - 0.92)
  /\ scoreUpdate (snd (loop d spectrum))
     = if onNoiseScoreUpdate (callbacks d)
       then Some (noiseScore (fst (loop d spectrum))) else None.
Proof.
  intros Hrun. unfold loop, tickDeviations. rewrite Hrun. simpl negb.
  cbv iota.
  set (d1 := tickCooldown (with_frequencyData d spectrum)).
  assert (Hs : noiseScore d1 = noiseScore d /\ callbacks d1 = callbacks d).
  { subst d1. unfold tickCooldown. simpl.
    destruct (0 <? impactCooldownFrames d)%nat; simpl; tauto. }
  destruct Hs as [Hs Hcb].
  pose proof (analyse_controls d1) as Hc. unfold controls in Hc.
  destruct (analyse d1) as [a d2]. simpl in Hc. inversion Hc as [[H1 H2 H3 H4 H5 H6 H7 H8 H9 H10 H11 H12]].
  unfold detectImpact.
  destruct (reactiveEnabled _ && _);
    [destruct (Rgt_dec _ _) |]; simpl; rewrite H8, Hs, H2, Hcb;
    split; reflexivity.
Qed.

Lemma Rmax_0_self (e : R) : Rmax 0 (e - e) = 0.
Proof. replace (e - e) with 0 by lra. unfold Rmax. destruct (Rle_dec 0 0); reflexivity. Qed.

Lemma updateBaseline_other d bandId e (other : string) :
  other <> bandId ->
  baselineEnergies (updateBaseline d bandId e) !! other
  = baselineEnergies d !! other.
Proof.
  intros Hne. unfold updateBaseline. cbn [baselineEnergies with_baselineEnergies].
  now rewrite lookup_insert_ne.
Qed.

(** Over bands that have no baseline yet and are visited once, the fold
    of [analyseBand] accumulates nothing. *)
Lemma fold_analyseBand_cold (ids : list string) :
  forall (a : Deviations) d,
    NoDup ids ->
    (forall i, In i ids -> baselineEnergies d !! i = None) ->
    totalDeviation a = 0 -> maxDeviation a = 0 ->
    maxDeviationBandId a = None ->
    let r := fst (fold_left analyseBand ids (a, d)) in
    totalDeviation r = 0 /\ maxDeviation r = 0 /\ maxDeviationBandId r = None.
Proof.
  induction ids as [| i rest IH]; intros a d Hnd Hnone Ht Hm Hb.
  - simpl. tauto.
  - cbn [fold_left]. inversion Hnd as [| ? ? Hni Hnd']; subst.
    assert (Hstep : totalDeviation (fst (analyseBand (a, d) i)) = 0
                    /\ maxDeviation (fst (analyseBand (a, d) i)) = 0
                    /\ maxDeviationBandId (fst (analyseBand (a, d) i)) = None
                    /\ forall j, In j rest ->
                         baselineEnergies (snd (analyseBand (a, d) i)) !! j
                         = None).
    { unfold analyseBand.
      destruct (find (fun b => String.eqb (band_id b) i) DETECTION_BANDS)
        as [band |].
      - rewrite (Hnone i) by (left; reflexivity). cbn [Js.or_default].
        rewrite Rmax_0_self, Hm.
        destruct (Rgt_dec 0 0) as [Hgt | _]; [lra |].
        cbn [fst snd totalDeviation maxDeviation maxDeviationBandId].
        split; [lra |]. split; [reflexivity |]. split; [exact Hb |].
        intros j Hj. rewrite updateBaseline_other.
        + apply Hnone. now right.
        + intros ->. apply Hni. now apply list_elem_of_In.
      - cbn [fst snd]. repeat split; auto.
        intros j Hj. apply Hnone. now right. }
    destruct (analyseBand (a, d) i) as [a1 d1]. cbn [fst snd] in Hstep.
    destruct Hstep as (S1 & S2 & S3 & S4).
    apply IH; auto.
Qed.

(** X2: the tick that follows a cold start (no baseline stored, as after
    [start] or a mode change) measures deviation 0 in every band, so with
    a sensitivity of at most 1 it emits no impact, and it only decays the
    noise score by the factor 0.92. *)
Theorem cold_start_tick d spectrum :
  isRunning d = true ->
  baselineEnergies d = ∅ ->
  NoDup (enabledBandIds d) ->
  sensitivity d <= 1 ->
  let a := tickDeviations d spectrum in
  totalDeviation a = 0 /\ maxDeviation a = 0
  /\ impact (snd (loop d spectrum)) = None
  /\ noiseScore (fst (loop d spectrum)) = noiseScore d * 0.92.
Proof.
  intros Hrun Hempty Hnd Hsens a.
  assert (Ha : totalDeviation a = 0 /\ maxDeviation a = 0).
  { subst a. unfold tickDeviations.
    set (d1 := tickCooldown (with_frequencyData d spectrum)).
    destruct (tickCooldown_frame (with_frequencyData d spectrum))
      as (Hb & Hids & _).
    fold d1 in Hb, Hids. simpl in Hb, Hids.
    assert (Hnone : forall i, baselineEnergies d1 !! i = None)
      by (intros i; rewrite Hb, Hempty; apply lookup_empty).
    unfold analyse. rewrite Hids.
    destruct (enabledBandIds d) as [| i rest] eqn:E.
    - cbn [fst totalDeviation maxDeviation]. rewrite Hnone.
      cbn [Js.or_default]. rewrite Rmax_0_self. tauto.
    - destruct (fold_analyseBand_cold (i :: rest) (mkDev 0 0 None) d1 Hnd
                  (fun j _ => Hnone j) eq_refl eq_refl eq_refl)
        as (F1 & F2 & _).
      destruct (fold_left analyseBand (i :: rest) (mkDev 0 0 None, d1))
        as [r d2].
      cbn [fst totalDeviation maxDeviation] in *. rewrite F1, F2.
      split; [| reflexivity]. unfold Rdiv. lra. }
  destruct Ha as [Ht Hm]. split; [exact Ht |]. split; [exact Hm |].
  destruct (loop_running d spectrum Hrun) as (Hi & _).
  destruct (loop_score d spectrum Hrun) as (Hsc & _).
  fold a in Hi, Hsc. split.
  - rewrite Hi, Hm.
    destruct (Rgt_dec 0 (impactThreshold d)) as [Hgt | _].
    + unfold impactThreshold in Hgt. lra.
    + now rewrite andb_false_r.
  - rewrite Hsc, Ht. lra.
Qed.

Lemma cold_start_tick_witness :
  impact (snd (loop (start (create Scenarios.bothCallbacks 44100))
                 Scenarios.flatSpectrum)) = None
  /\ maxDeviation (tickDeviations (start (create Scenarios.bothCallbacks 44100))
                     Scenarios.flatSpectrum) = 0.
Proof.
  destruct (cold_start_tick (start (create Scenarios.bothCallbacks 44100))
              Scenarios.flatSpectrum) as (_ & Hm & Hi & _).
  - reflexivity.
  - reflexivity.
  - constructor.
  - simpl. lra.
  - split; assumption.
Defined.

Lemma find_band_unknown (bandId : string) :
  ~ In bandId (map band_id DETECTION_BANDS) ->
  find (fun b => String.eqb (band_id b) bandId) DETECTION_BANDS = None.
Proof.
  intros Hni. induction DETECTION_BANDS as [| b rest IH]; simpl.
  - reflexivity.
  - destruct (String.eqb (band_id b) bandId) eqn:E.
    + apply String.eqb_eq in E. exfalso. apply Hni. now left.
    + apply IH. intros Hin. apply Hni. now right.
Qed.

(** X3: when the enabled set is not empty but none of its ids is in the
    band catalogue, the deviation pass skips every id: it reports total
    and maximum deviation 0, attributes no band and leaves the detector
    as it was. *)
Theorem unknown_bands_report_nothing d :
  enabledBandIds d <> [] ->
  Forall (fun bandId => ~ In bandId (map band_id DETECTION_BANDS))
         (enabledBandIds d) ->
  let a := fst (analyse d) in
  totalDeviation a = 0 /\ maxDeviation a = 0
  /\ maxDeviationBandId a = None /\ snd (analyse d) = d.
Proof.
  intros Hne Hall a. subst a. unfold analyse.
  destruct (enabledBandIds d) as [| i rest] eqn:E; [contradiction |].
  assert (Hfold : forall ids acc,
            Forall (fun bandId => ~ In bandId (map band_id DETECTION_BANDS)) ids ->
            fold_left analyseBand ids acc = acc).
  { induction ids as [| j ids IH]; intros acc Hids; [reflexivity |].
    inversion Hids as [| ? ? Hj Hrest]; subst. cbn [fold_left].
    assert (Hstep : analyseBand acc j = acc).
    { destruct acc as [a0 d0]. unfold analyseBand.
      now rewrite (find_band_unknown j Hj). }
    rewrite Hstep. now apply IH. }
  rewrite (Hfold (i :: rest) (mkDev 0 0 None, d) Hall).
  cbn [fst snd totalDeviation maxDeviation maxDeviationBandId].
  repeat split; try reflexivity. unfold Rdiv. lra.
Qed.

Lemma unknown_bands_report_nothing_witness :
  let d := setDetailedMode (Scenarios.warmDetector 0.2) ["kitchen"] in
  maxDeviation (fst (analyse d)) = 0 /\ snd (analyse d) = d.
Proof.
  intros d.
  destruct (unknown_bands_report_nothing d) as (_ & Hm & _ & Hd).
  - discriminate.
  - constructor; [| constructor]. simpl.
    intros H. repeat (destruct H as [H | H]; [discriminate |]). exact H.
  - split; assumption.
Defined.

End DetectorEdges.

(** ** Detector: ranges kept over a run *)

Section DetectorRanges.
Import ImpactDetector.

Implicit Types (d : t) (spectrum : list byte)
  (ticks : list (list byte * option R)).

Lemma deviation_range (m : gmap string R) (k : string) (e : R) :
  0 <= e <= 1 ->
  (forall b, m !! k = Some b -> 0 <= b) ->
  0 <= Rmax 0 (e - Js.or_default (m !! k) e) <= 1.
Proof.
  intros He Hm. unfold Js.or_default.
  destruct (m !! k) as [b |] eqn:E.
  - specialize (Hm b eq_refl).
    destruct (Req_dec_T b 0); unfold Rmax; destruct (Rle_dec _ _); lra.
  - unfold Rmax; destruct (Rle_dec _ _); lra.
Qed.

Lemma updateBaseline_nonneg d bandId e :
  0 <= e ->
  (forall k b, baselineEnergies d !! k = Some b -> 0 <= b) ->
  forall k b, baselineEnergies (updateBaseline d bandId e) !! k = Some b ->
              0 <= b.
Proof.
  intros He Hd k b. destruct (decide (k = bandId)) as [-> | Hne].
  - rewrite updateBaseline_stored. intros Hb. injection Hb as Hb.
    rewrite <- Hb. clear Hb.
    pose proof (Rmax_l (smoothed (currentBaseline d bandId e) e)
                       (0.3 * currentNoiseGain d)) as Hmax.
    assert (Hprev : 0 <= currentBaseline d bandId e).
    { unfold currentBaseline, Js.or_default.
      destruct (baselineEnergies d !! bandId) as [b0 |] eqn:E; [| exact He].
      destruct (Req_dec_T b0 0); [exact He | now apply (Hd bandId)]. }
    unfold smoothed in *.
    destruct (Rlt_dec e (currentBaseline d bandId e)); lra.
  - rewrite updateBaseline_other by exact Hne. apply Hd.
Qed.

Lemma analyseBand_bounds (a : Deviations) d (bandId : string) :
  (forall k b, baselineEnergies d !! k = Some b -> 0 <= b) ->
  0 <= totalDeviation a -> 0 <= maxDeviation a <= 1 ->
  let r := analyseBand (a, d) bandId in
  totalDeviation a <= totalDeviation (fst r) <= totalDeviation a + 1
  /\ 0 <= maxDeviation (fst r) <= 1
  /\ (forall k b, baselineEnergies (snd r) !! k = Some b -> 0 <= b).
Proof.
  intros Hd Ht Hm r. subst r. unfold analyseBand.
  destruct (find (fun b => String.eqb (band_id b) bandId) DETECTION_BANDS)
    as [band |].
  - pose proof (getBandEnergy_range d (minFreq band) (maxFreq band)) as He.
    pose proof (deviation_range (baselineEnergies d) bandId _ He (Hd bandId))
      as Hdev.
    set (dev := Rmax 0 _) in *.
    split; [| split].
    + destruct (Rgt_dec dev (maxDeviation a)); simpl; lra.
    + destruct (Rgt_dec dev (maxDeviation a)); simpl; lra.
    + cbn [snd]. apply updateBaseline_nonneg; [lra | exact Hd].
  - cbn [fst snd]. split; [lra |]. split; [exact Hm | exact Hd].
Qed.

Lemma fold_analyseBand_bounds (ids : list string) :
  forall (a : Deviations) d,
    (forall k b, baselineEnergies d !! k = Some b -> 0 <= b) ->
    0 <= totalDeviation a -> 0 <= maxDeviation a <= 1 ->
    let r := fold_left analyseBand ids (a, d) in
    totalDeviation a <= totalDeviation (fst r)
      <= totalDeviation a + INR (length ids)
    /\ 0 <= maxDeviation (fst r) <= 1
    /\ (forall k b, baselineEnergies (snd r) !! k = Some b -> 0 <= b).
Proof.
  induction ids as [| i rest IH]; intros a d Hd Ht Hm.
  - simpl. split; [lra |]. split; [exact Hm | exact Hd].
  - cbn [fold_left]. rewrite length_cons, S_INR.
    destruct (analyseBand_bounds a d i Hd Ht Hm) as (B1 & B2 & B3).
    destruct (analyseBand (a, d) i) as [a1 d1]. cbn [fst snd] in *.
    destruct (IH a1 d1 B3 ltac:(lra) B2) as (I1 & I2 & I3).
    split; [lra |]. split; [exact I2 | exact I3].
Qed.

(** The deviation pass reports values in [0,1] and keeps the baselines
    non-negative. *)
Lemma analyse_bounds d :
  (forall k b, baselineEnergies d !! k = Some b -> 0 <= b) ->
  0 <= totalDeviation (fst (analyse d)) <= 1
  /\ 0 <= maxDeviation (fst (analyse d)) <= 1
  /\ (forall k b, baselineEnergies (snd (analyse d)) !! k = Some b -> 0 <= b).
Proof.
  intros Hd. unfold analyse.
  destruct (enabledBandIds d) as [| i rest] eqn:E.
  - pose proof (getBandEnergy_range d 20 20000) as He.
    pose proof (deviation_range (baselineEnergies d) "all" _ He (Hd "all"%string))
      as Hdev.
    cbn [fst snd totalDeviation maxDeviation].
    split; [exact Hdev |]. split; [exact Hdev |].
    apply updateBaseline_nonneg; [lra | exact Hd].
  - assert (H0 : 0 <= totalDeviation (mkDev 0 0 None)) by (simpl; lra).
    assert (H1 : 0 <= maxDeviation (mkDev 0 0 None) <= 1) by (simpl; lra).
    destruct (fold_analyseBand_bounds (i :: rest) (mkDev 0 0 None) d Hd H0 H1)
      as (F1 & F2 & F3). clear H0 H1.
    destruct (fold_left analyseBand (i :: rest) (mkDev 0 0 None, d))
      as [a d1].
    cbn [fst snd totalDeviation maxDeviation] in *.
    split; [| split; [exact F2 | exact F3]].
    set (n := INR (length (i :: rest))) in *.
    assert (Hn : 1 <= n).
    { subst n. rewrite length_cons, S_INR.
      pose proof (pos_INR (length rest)). lra. }
    assert (Hinv : 0 < / n) by (apply Rinv_0_lt_compat; lra).
    assert (Hone : n * / n = 1) by (apply Rinv_r; lra).
    unfold Rdiv. split; [apply Rmult_le_pos; lra | nra].
Qed.

Lemma loop_bounds d spectrum :
  (forall k b, baselineEnergies d !! k = Some b -> 0 <= b) ->
  0 <= noiseScore d <= 1 ->
  (forall k b, baselineEnergies (fst (loop d spectrum)) !! k = Some b -> 0 <= b)
  /\ 0 <= noiseScore (fst (loop d spectrum)) <= 1
  /\ (forall v, scoreUpdate (snd (loop d spectrum)) = Some v -> 0 <= v <= 1)
  /\ (forall v band, impact (snd (loop d spectrum)) = Some (v, band) ->
                     0 <= v <= 1).
Proof.
  intros Hd Hs. destruct (isRunning d) eqn:Hrun.
  - destruct (loop_frame d spectrum Hrun) as (Hb & _).
    destruct (loop_score d spectrum Hrun) as (Hsc & Hup).
    destruct (loop_running d spectrum Hrun) as (Hi & _).
    unfold tickDeviations in *.
    set (d1 := tickCooldown (with_frequencyData d spectrum)) in *.
    assert (Hd1 : forall k b, baselineEnergies d1 !! k = Some b -> 0 <= b).
    { destruct (tickCooldown_frame (with_frequencyData d spectrum)) as (E & _).
      subst d1. rewrite E. exact Hd. }
    destruct (analyse_bounds d1 Hd1) as (A1 & A2 & A3).
    assert (Hscore : 0 <= noiseScore (fst (loop d spectrum)) <= 1)
      by (rewrite Hsc; lra).
    split; [rewrite Hb; exact A3 |]. split; [exact Hscore |]. split.
    + intros v Hv. rewrite Hup in Hv.
      destruct (onNoiseScoreUpdate (callbacks d)); [| discriminate].
      injection Hv as <-. exact Hscore.
    + intros v band Hv. rewrite Hi in Hv.
      destruct (_ && onImpact (callbacks d)); [| discriminate].
      injection Hv as <- _.
      unfold Rmin. destruct (Rle_dec _ _); lra.
  - rewrite (loop_stopped d spectrum Hrun). cbn [fst snd scoreUpdate impact].
    split; [exact Hd |]. split; [exact Hs |]. split; intros; discriminate.
Qed.

(** X4: started from non-negative baselines (none, after [start]) and a
    noise score in [0,1], a detector keeps both over any sequence of
    ticks and gain reports, and everything it hands to its callbacks is
    in [0,1]: every noise score and every impact intensity. *)
Theorem run_keeps_unit_ranges ticks :
  forall d,
    (forall k b, baselineEnergies d !! k = Some b -> 0 <= b) ->
    0 <= noiseScore d <= 1 ->
    Forall (fun o =>
              (forall v, scoreUpdate o = Some v -> 0 <= v <= 1)
              /\ (forall v band, impact o = Some (v, band) -> 0 <= v <= 1))
           (snd (run d ticks))
    /\ 0 <= noiseScore (fst (run d ticks)) <= 1
    /\ (forall k b, baselineEnergies (fst (run d ticks)) !! k = Some b ->
                    0 <= b).
Proof.
  induction ticks as [| [sp g] rest IH]; intros d Hd Hs.
  - simpl. split; [constructor |]. split; [exact Hs | exact Hd].
  - rewrite run_cons. cbn [fst snd].
    destruct (loop_bounds d sp Hd Hs) as (L1 & L2 & L3 & L4).
    destruct (report_fields (fst (loop d sp)) g)
      as (_ & _ & _ & _ & _ & Rb & _).
    assert (Rs : noiseScore (report (fst (loop d sp)) g)
                 = noiseScore (fst (loop d sp)))
      by (destruct g; reflexivity).
    destruct (IH (report (fst (loop d sp)) g)) as (I1 & I2 & I3).
    + rewrite Rb. exact L1.
    + rewrite Rs. exact L2.
    + split; [| split; [exact I2 | exact I3]].
      constructor; [split; assumption | exact I1].
Qed.

Lemma run_keeps_unit_ranges_witness :
  0 <= noiseScore
         (fst (run (Scenarios.warmDetector 0.2)
                 [(Scenarios.flatSpectrum, Some 0.1);
                  (Scenarios.flatSpectrum, None)])) <= 1.
Proof.
  destruct (run_keeps_unit_ranges
              [(Scenarios.flatSpectrum, Some 0.1);
               (Scenarios.flatSpectrum, None)]
              (Scenarios.warmDetector 0.2)) as (_ & H & _).
  - intros k b Hk. unfold Scenarios.warmDetector in Hk.
    cbn [baselineEnergies with_baselineEnergies] in Hk.
    apply lookup_singleton_Some in Hk. destruct Hk as [_ <-]. lra.
  - simpl. lra.
  - exact H.
Defined.

(** X5: a stopped detector ignores its ticks: it hands nothing to the
    callbacks and keeps its baselines, noise score and cooldown counter,
    whatever spectra arrive (only a reported gain is still recorded). *)
Theorem stopped_detector_is_inert ticks :
  forall d,
    isRunning d = false ->
    snd (run d ticks) = repeat (mkOut None None) (length ticks)
    /\ baselineEnergies (fst (run d ticks)) = baselineEnergies d
    /\ noiseScore (fst (run d ticks)) = noiseScore d
    /\ impactCooldownFrames (fst (run d ticks)) = impactCooldownFrames d
    /\ isRunning (fst (run d ticks)) = false.
Proof.
  induction ticks as [| [sp g] rest IH]; intros d Hrun.
  - simpl. repeat split; auto.
  - rewrite run_cons, (loop_stopped d sp Hrun). cbn [fst snd length repeat].
    destruct (report_fields d g) as (_ & Rr & _ & Rc & _ & Rb & _).
    assert (Rs : noiseScore (report d g) = noiseScore d)
      by (destruct g; reflexivity).
    destruct (IH (report d g)) as (I1 & I2 & I3 & I4 & I5);
      [now rewrite Rr |].
    rewrite I1, I2, I3, I4, I5, Rb, Rs, Rc. repeat split; reflexivity.
Qed.

Lemma stopped_detector_is_inert_witness :
  snd (run (stop (Scenarios.warmDetector 0.2))
         [(Scenarios.flatSpectrum, None); (Scenarios.flatSpectrum, None)])
  = [mkOut None None; mkOut None None].
Proof.
  destruct (stopped_detector_is_inert
              [(Scenarios.flatSpectrum, None); (Scenarios.flatSpectrum, None)]
              (stop (Scenarios.warmDetector 0.2)) eq_refl) as (H & _).
  exact H.
Defined.

End DetectorRanges.

(** ** Detector: the enabled set *)

Section EnabledSet.
Import ImpactDetector.

Implicit Types (d : t) (s ids : list string) (x y : string).

Lemma existsb_eqb_In x s : existsb (String.eqb x) s = true <-> In x s.
Proof.
  rewrite existsb_exists. split.
  - intros (y & Hy & E). apply String.eqb_eq in E. now subst.
  - intros H. exists x. split; [exact H | apply String.eqb_refl].
Qed.

Lemma set_add_In x y s : In y (Js.set_add x s) <-> y = x \/ In y s.
Proof.
  unfold Js.set_add. destruct (existsb (String.eqb x) s) eqn:E.
  - apply existsb_eqb_In in E. split; [tauto |]. intros [-> | H]; assumption.
  - rewrite in_app_iff. simpl. split; intros H; intuition.
Qed.

Lemma set_add_NoDup x s : NoDup s -> NoDup (Js.set_add x s).
Proof.
  intros Hs. unfold Js.set_add. destruct (existsb (String.eqb x) s) eqn:E.
  - exact Hs.
  - apply NoDup_app. split; [exact Hs |]. split.
    + intros y Hy Hx. apply list_elem_of_In in Hx. simpl in Hx.
      destruct Hx as [<- | []].
      apply list_elem_of_In, existsb_eqb_In in Hy. congruence.
    + apply NoDup_singleton.
Qed.

Lemma fold_set_add ids :
  forall s, NoDup s ->
    NoDup (fold_left (fun acc i => Js.set_add i acc) ids s)
    /\ forall y, In y (fold_left (fun acc i => Js.set_add i acc) ids s)
                 <-> In y ids \/ In y s.
Proof.
  induction ids as [| i rest IH]; intros s Hs; simpl.
  - split; [exact Hs | tauto].
  - destruct (IH (Js.set_add i s) (set_add_NoDup i s Hs)) as [H1 H2].
    split; [exact H1 |]. intros y. rewrite H2, set_add_In.
    split; intros H; intuition.
Qed.

Lemma set_delete_not_In x s : ~ In x s -> Js.set_delete x s = s.
Proof.
  intros Hni. unfold Js.set_delete. induction s as [| y s IH]; simpl.
  - reflexivity.
  - destruct (String.eqb x y) eqn:E; simpl.
    + apply String.eqb_eq in E. exfalso. apply Hni. now left.
    + f_equal. apply IH. intros H. apply Hni. now right.
Qed.

Lemma set_delete_gone x s : ~ In x (Js.set_delete x s).
Proof.
  unfold Js.set_delete. rewrite filter_In. intros [_ H].
  now rewrite String.eqb_refl in H.
Qed.

(** X6: the mode setters replace the enabled set wholesale.
    [setDetailedMode] leaves exactly the given ids, each once;
    [setSimpleMode] leaves the bands of the mode with that id, and no band
    at all (full-spectrum analysis) for an id that no mode has.  What was
    enabled before plays no part. *)
Theorem mode_setters_replace_set d ids (modeId : string) :
  (NoDup (enabledBandIds (setDetailedMode d ids))
   /\ (forall x, In x (enabledBandIds (setDetailedMode d ids)) <-> In x ids)
   /\ isSimpleMode (setDetailedMode d ids) = false)
  /\ (forall m, In m SIMPLE_MODES ->
        enabledBandIds (setSimpleMode d (mode_id m)) = bandIds m)
  /\ (~ In modeId (map mode_id SIMPLE_MODES) ->
      enabledBandIds (setSimpleMode d modeId) = [])
  /\ isSimpleMode (setSimpleMode d modeId) = true.
Proof.
  split; [| split; [| split]].
  - unfold setDetailedMode. cbn [enabledBandIds with_enabledBandIds isSimpleMode
                                 with_baselineEnergies with_isSimpleMode].
    destruct (fold_set_add ids [] (NoDup_nil_2 (A:=string))) as [H1 H2].
    split; [exact H1 |]. split; [| reflexivity].
    intros x. rewrite H2. simpl. tauto.
  - intros m Hm. simpl in Hm.
    destruct Hm as [<- | [<- | [<- | [<- | []]]]]; reflexivity.
  - intros Hni. unfold setSimpleMode.
    assert (Hfind : find (fun m => String.eqb (mode_id m) modeId) SIMPLE_MODES
                    = None).
    { induction SIMPLE_MODES as [| m rest IH]; simpl; [reflexivity |].
      destruct (String.eqb (mode_id m) modeId) eqn:E.
      - apply String.eqb_eq in E. exfalso. apply Hni. now left.
      - apply IH. intros H. apply Hni. now right. }
    rewrite Hfind. reflexivity.
  - unfold setSimpleMode. destruct (find _ SIMPLE_MODES); reflexivity.
Qed.

Lemma mode_setters_replace_set_witness :
  enabledBandIds (setSimpleMode (Scenarios.warmDetector 0.2) "voice_all")
  = ["voice_male"; "voice_female"]
  /\ enabledBandIds (setSimpleMode (Scenarios.warmDetector 0.2) "everything")
     = [].
Proof.
  destruct (mode_setters_replace_set (Scenarios.warmDetector 0.2) []
              "everything") as (_ & Hknown & Hunknown & _).
  split.
  - apply (Hknown (mkMode "voice_all" ["voice_male"; "voice_female"])).
    simpl. tauto.
  - apply Hunknown. simpl.
    intros H. repeat (destruct H as [H | H]; [discriminate |]). exact H.
Defined.

(** X7: switching on a band that was off and then switching it off again
    restores the detector exactly; after [toggleBand _ false] the band is
    never in the set, and switching off the only enabled band leaves the
    empty set, which the loop analyses as the full spectrum. *)
Theorem toggleBand_round_trip d x :
  (~ In x (enabledBandIds d) ->
   toggleBand (toggleBand d x true) x false = d)
  /\ ~ In x (enabledBandIds (toggleBand d x false))
  /\ (enabledBandIds d = [x] -> enabledBandIds (toggleBand d x false) = []).
Proof.
  split; [| split].
  - intros Hni. unfold toggleBand.
    cbn [enabledBandIds with_enabledBandIds].
    assert (E : Js.set_delete x (Js.set_add x (enabledBandIds d))
                = enabledBandIds d).
    { unfold Js.set_add.
      destruct (existsb (String.eqb x) (enabledBandIds d)) eqn:Ex.
      - apply existsb_eqb_In in Ex. contradiction.
      - unfold Js.set_delete. rewrite List.filter_app. simpl.
        rewrite String.eqb_refl. simpl. rewrite app_nil_r.
        now apply set_delete_not_In. }
    destruct d. unfold with_enabledBandIds. simpl in *. now rewrite E.
  - unfold toggleBand. cbn [enabledBandIds with_enabledBandIds].
    apply set_delete_gone.
  - intros E. unfold toggleBand. cbn [enabledBandIds with_enabledBandIds].
    rewrite E. unfold Js.set_delete. simpl. now rewrite String.eqb_refl.
Qed.

Lemma toggleBand_round_trip_witness :
  toggleBand (toggleBand (Scenarios.warmDetector 0.2) "footsteps" true)
             "footsteps" false
  = Scenarios.warmDetector 0.2.
Proof.
  apply (proj1 (toggleBand_round_trip (Scenarios.warmDetector 0.2)
                  "footsteps")).
  simpl. tauto.
Defined.

End EnabledSet.

(** ** The worklet: channels, master gain, rumble phases *)

Section WorkletBlocks.
Import NoiseColors.

Lemma renderChannel_state_index (p : NoiseProcessor.parameters)
    (channel : list R) :
  forall (s : state) (i j : nat),
    fst (NoiseProcessor.renderChannel p s i channel)
    = fst (NoiseProcessor.renderChannel p s j channel).
Proof.
  induction channel as [|u rest IH]; intros s i j; simpl; [reflexivity|].
  destruct (mixColors (NoiseProcessor.gainsOf p) s (whiteOf u)) as [s1 m].
  specialize (IH s1 (S i) (S j)).
  destruct (NoiseProcessor.renderChannel p s1 (S i) rest) as [s2 o2].
  destruct (NoiseProcessor.renderChannel p s1 (S j) rest) as [s3 o3].
  simpl in *. exact IH.
Qed.

Lemma renderChannel_state_app (p : NoiseProcessor.parameters)
    (l1 l2 : list R) :
  forall (s : state) (i : nat),
    fst (NoiseProcessor.renderChannel p s i (l1 ++ l2))
    = fst (NoiseProcessor.renderChannel p
             (fst (NoiseProcessor.renderChannel p s i l1)) 0 l2).
Proof.
  induction l1 as [|u rest IH]; intros s i; simpl.
  - apply renderChannel_state_index.
  - destruct (mixColors (NoiseProcessor.gainsOf p) s (whiteOf u)) as [s1 m].
    specialize (IH s1 (S i)).
    destruct (NoiseProcessor.renderChannel p s1 (S i) (rest ++ l2)) as [s2 o2].
    destruct (NoiseProcessor.renderChannel p s1 (S i) rest) as [s3 o3].
    simpl in *. exact IH.
Qed.

Lemma renderChannels_state_concat (p : NoiseProcessor.parameters)
    (randoms : list (list R)) :
  forall s : state,
    fst (NoiseProcessor.renderChannels p s randoms)
    = fst (NoiseProcessor.renderChannel p s 0 (concat randoms)).
Proof.
  induction randoms as [|ch rest IH]; intros s; simpl; [reflexivity|].
  rewrite renderChannel_state_app.
  destruct (NoiseProcessor.renderChannel p s 0 ch) as [s1 o1].
  specialize (IH s1).
  destruct (NoiseProcessor.renderChannels p s1 rest) as [s2 o2].
  simpl in *. exact IH.
Qed.

Lemma rumble_renderChannel_state_index (p : RumbleNoiseProcessor.parameters)
    (rate : R) (channel : list R) :
  forall (s : RumbleNoiseProcessor.state) (i j : nat),
    fst (RumbleNoiseProcessor.renderChannel p rate s i channel)
    = fst (RumbleNoiseProcessor.renderChannel p rate s j channel).
Proof.
  induction channel as [|u rest IH]; intros s i j; simpl; [reflexivity|].
  destruct (RumbleNoiseProcessor.renderSample p rate s (whiteOf u)) as [s1 m].
  specialize (IH s1 (S i) (S j)).
  destruct (RumbleNoiseProcessor.renderChannel p rate s1 (S i) rest)
    as [s2 o2].
  destruct (RumbleNoiseProcessor.renderChannel p rate s1 (S j) rest)
    as [s3 o3].
  simpl in *. exact IH.
Qed.

Lemma rumble_renderChannel_state_app (p : RumbleNoiseProcessor.parameters)
    (rate : R) (l1 l2 : list R) :
  forall (s : RumbleNoiseProcessor.state) (i : nat),
    fst (RumbleNoiseProcessor.renderChannel p rate s i (l1 ++ l2))
    = fst (RumbleNoiseProcessor.renderChannel p rate
             (fst (RumbleNoiseProcessor.renderChannel p rate s i l1)) 0 l2).
Proof.
  induction l1 as [|u rest IH]; intros s i; simpl.
  - apply rumble_renderChannel_state_index.
  - destruct (RumbleNoiseProcessor.renderSample p rate s (whiteOf u))
      as [s1 m].
    specialize (IH s1 (S i)).
    destruct (RumbleNoiseProcessor.renderChannel p rate s1 (S i) (rest ++ l2))
      as [s2 o2].
    destruct (RumbleNoiseProcessor.renderChannel p rate s1 (S i) rest)
      as [s3 o3].
    simpl in *. exact IH.
Qed.

Lemma rumble_renderChannels_state_concat
    (p : RumbleNoiseProcessor.parameters) (rate : R)
    (randoms : list (list R)) :
  forall s : RumbleNoiseProcessor.state,
    fst (RumbleNoiseProcessor.renderChannels p rate s randoms)
    = fst (RumbleNoiseProcessor.renderChannel p rate s 0 (concat randoms)).
Proof.
  induction randoms as [|ch rest IH]; intros s; simpl; [reflexivity|].
  rewrite rumble_renderChannel_state_app.
  destruct (RumbleNoiseProcessor.renderChannel p rate s 0 ch) as [s1 o1].
  specialize (IH s1).
  destruct (RumbleNoiseProcessor.renderChannels p rate s1 rest) as [s2 o2].
  simpl in *. exact IH.
Qed.

(** X8.  The channels of a render block are not generated independently:
    the filter state (and, in the rumble variant, the oscillator phases) is
    carried from the last sample of one channel into the first sample of the
    next, so the state a block leaves behind is the state that one channel
    holding all the block's samples in sequence would leave. *)
Theorem channels_share_generator_state
    (s : NoiseColors.state) (p : NoiseProcessor.parameters)
    (sr : RumbleNoiseProcessor.state) (pr : RumbleNoiseProcessor.parameters)
    (randoms : list (list R)) :
  fst (NoiseProcessor.process s p randoms)
  = fst (NoiseProcessor.process s p [concat randoms])
  /\ fst (RumbleNoiseProcessor.process sr pr randoms)
     = fst (RumbleNoiseProcessor.process sr pr [concat randoms]).
Proof.
  split.
  - unfold NoiseProcessor.process.
    destruct (NoiseProcessor.allZero p); [reflexivity|].
    rewrite renderChannels_state_concat. simpl.
    destruct (NoiseProcessor.renderChannel p s 0 (concat randoms)).
    reflexivity.
  - unfold RumbleNoiseProcessor.process.
    destruct (RumbleNoiseProcessor.allZero pr); [reflexivity|].
    rewrite rumble_renderChannels_state_concat. simpl.
    destruct (RumbleNoiseProcessor.renderChannel pr _ sr 0 (concat randoms)).
    reflexivity.
Qed.

(** *** A single master gain value *)

Lemma masterGainAt_single (m : R) (i : nat) : masterGainAt [m] i = Some m.
Proof. reflexivity. Qed.

Lemma renderChannel_master_scales (w pk b d m : R) (channel : list R) :
  forall (s : state) (i : nat),
    let r1 :=
      NoiseProcessor.renderChannel (NoiseProcessor.mkParams w pk b d [1])
        s i channel in
    let rm :=
      NoiseProcessor.renderChannel (NoiseProcessor.mkParams w pk b d [m])
        s i channel in
    fst rm = fst r1
    /\ Forall2 (fun y y1 => exists x, y1 = Num (x * 1) /\ y = Num (x * m))
         (snd rm) (snd r1).
Proof.
  induction channel as [|u rest IH]; intros s i; simpl.
  - split; [reflexivity | constructor].
  - unfold NoiseProcessor.gainsOf. simpl.
    destruct (mixColors (mkGains w pk b d) s (whiteOf u)) as [s1 mixed].
    specialize (IH s1 (S i)). simpl in IH.
    destruct (NoiseProcessor.renderChannel
                (NoiseProcessor.mkParams w pk b d [1]) s1 (S i) rest)
      as [s2 o2].
    destruct (NoiseProcessor.renderChannel
                (NoiseProcessor.mkParams w pk b d [m]) s1 (S i) rest)
      as [s3 o3].
    simpl in *. destruct IH as [IHs IHo]. split; [exact IHs|].
    constructor; [| exact IHo].
    exists mixed. split; reflexivity.
Qed.

Lemma renderChannels_master_scales (w pk b d m : R)
    (randoms : list (list R)) :
  forall s : state,
    let r1 :=
      NoiseProcessor.renderChannels (NoiseProcessor.mkParams w pk b d [1])
        s randoms in
    let rm :=
      NoiseProcessor.renderChannels (NoiseProcessor.mkParams w pk b d [m])
        s randoms in
    fst rm = fst r1
    /\ Forall2 (Forall2 (fun y y1 =>
                           exists x, y1 = Num (x * 1) /\ y = Num (x * m)))
         (snd rm) (snd r1).
Proof.
  induction randoms as [|ch rest IH]; intros s; simpl.
  - split; [reflexivity | constructor].
  - pose proof (renderChannel_master_scales w pk b d m ch s 0) as Hc.
    simpl in Hc.
    destruct (NoiseProcessor.renderChannel
                (NoiseProcessor.mkParams w pk b d [1]) s 0 ch) as [s1 o1].
    destruct (NoiseProcessor.renderChannel
                (NoiseProcessor.mkParams w pk b d [m]) s 0 ch) as [s1' o1'].
    simpl in Hc. destruct Hc as [Hs Ho]. subst s1'.
    specialize (IH s1). simpl in IH.
    destruct (NoiseProcessor.renderChannels
                (NoiseProcessor.mkParams w pk b d [1]) s1 rest) as [s2 o2].
    destruct (NoiseProcessor.renderChannels
                (NoiseProcessor.mkParams w pk b d [m]) s1 rest) as [s2' o2'].
    simpl in *. destruct IH as [IHs IHo]. split; [exact IHs|].
    constructor; assumption.
Qed.

(** X9.  A single master-gain value only scales the output: with master
    gain [m] the processor leaves the same generator state as with master
    gain 1, and every sample is the sample at master gain 1 with its factor
    1 replaced by [m] (so master gain 0 gives zeros while the filters keep
    running). *)
Theorem master_gain_only_scales
    (w pk b d m : R) (s : NoiseColors.state) (randoms : list (list R)) :
  let r1 :=
    NoiseProcessor.process s (NoiseProcessor.mkParams w pk b d [1]) randoms in
  let rm :=
    NoiseProcessor.process s (NoiseProcessor.mkParams w pk b d [m]) randoms in
  fst rm = fst r1
  /\ Forall2 (Forall2 (fun y y1 =>
                         exists x, y1 = Num (x * 1) /\ y = Num (x * m)))
       (snd rm) (snd r1).
Proof.
  unfold NoiseProcessor.process, NoiseProcessor.allZero. simpl.
  destruct (Js.is_zero w && Js.is_zero pk && Js.is_zero b && Js.is_zero d).
  - simpl. split; [reflexivity|].
    induction randoms as [|ch rest IH]; simpl; constructor; [| exact IH].
    induction ch as [|u r IHc]; simpl; constructor; [| exact IHc].
    exists 0. split; f_equal; lra.
  - apply renderChannels_master_scales.
Qed.

(** *** A master-gain array that does not cover the block *)

Lemma renderChannel_length (p : NoiseProcessor.parameters)
    (channel : list R) :
  forall (s : state) (i : nat),
    length (snd (NoiseProcessor.renderChannel p s i channel))
    = length channel.
Proof.
  induction channel as [|u rest IH]; intros s i; simpl; [reflexivity|].
  destruct (mixColors (NoiseProcessor.gainsOf p) s (whiteOf u)) as [s1 m].
  specialize (IH s1 (S i)).
  destruct (NoiseProcessor.renderChannel p s1 (S i) rest) as [s2 o2].
  simpl in *. now rewrite IH.
Qed.

Lemma masterGainAt_past_end (mg : list R) (i : nat) :
  length mg <> 1%nat -> (length mg <= i)%nat -> masterGainAt mg i = None.
Proof.
  intros Hne Hle. unfold masterGainAt.
  destruct (1 <? length mg)%nat eqn:Hlt.
  - apply nth_error_None. exact Hle.
  - apply Nat.ltb_ge in Hlt. apply nth_error_None. lia.
Qed.

Lemma renderChannel_NaN (p : NoiseProcessor.parameters) (channel : list R) :
  forall (s : state) (i k : nat),
    length (NoiseProcessor.masterGain p) <> 1%nat ->
    (length (NoiseProcessor.masterGain p) <= i + k)%nat ->
    (k < length channel)%nat ->
    nth_error (snd (NoiseProcessor.renderChannel p s i channel)) k = Some NaN.
Proof.
  induction channel as [|u rest IH]; intros s i k Hne Hle Hk; simpl in *.
  - lia.
  - destruct (mixColors (NoiseProcessor.gainsOf p) s (whiteOf u)) as [s1 m].
    specialize (IH s1 (S i)).
    destruct (NoiseProcessor.renderChannel p s1 (S i) rest) as [s2 o2].
    simpl in *. destruct k as [|k].
    + simpl. rewrite masterGainAt_past_end; [reflexivity | exact Hne | lia].
    + simpl. apply IH; [exact Hne | lia | lia].
Qed.

Lemma renderChannels_NaN (p : NoiseProcessor.parameters)
    (randoms : list (list R)) :
  forall (s : state) (c k : nat) (channel : list R),
    length (NoiseProcessor.masterGain p) <> 1%nat ->
    nth_error randoms c = Some channel ->
    (length (NoiseProcessor.masterGain p) <= k)%nat ->
    (k < length channel)%nat ->
    exists out,
      nth_error (snd (NoiseProcessor.renderChannels p s randoms)) c = Some out
      /\ nth_error out k = Some NaN.
Proof.
  induction randoms as [|ch rest IH]; intros s c k channel Hne Hc Hle Hk.
  - destruct c; discriminate.
  - simpl.
    pose proof (renderChannel_NaN p ch s 0 k Hne) as Hn.
    destruct (NoiseProcessor.renderChannel p s 0 ch) as [s1 o1].
    specialize (IH s1).
    destruct (NoiseProcessor.renderChannels p s1 rest) as [s2 o2].
    simpl in *. destruct c as [|c]; simpl in *.
    + injection Hc as Hc. subst ch. exists o1. split; [reflexivity|].
      apply Hn; [exact Hle | exact Hk].
    + apply (IH c k channel Hne Hc Hle Hk).
Qed.

(** X10.  When some colour gain is not zero and the master-gain array has
    a length other than one, every sample whose index is not covered by the
    array is written as NaN: the array is indexed per sample as soon as it
    has more than one element, and an empty array is read at index 0. *)
Theorem short_master_array_gives_NaN
    (s : NoiseColors.state) (p : NoiseProcessor.parameters)
    (randoms : list (list R)) (c k : nat) (channel : list R) :
  NoiseProcessor.allZero p = false ->
  length (NoiseProcessor.masterGain p) <> 1%nat ->
  nth_error randoms c = Some channel ->
  (length (NoiseProcessor.masterGain p) <= k)%nat ->
  (k < length channel)%nat ->
  exists out,
    nth_error (snd (NoiseProcessor.process s p randoms)) c = Some out
    /\ nth_error out k = Some NaN.
Proof.
  intros Hz Hne Hc Hle Hk. unfold NoiseProcessor.process. rewrite Hz.
  apply (renderChannels_NaN p randoms s c k channel Hne Hc Hle Hk).
Qed.

Lemma short_master_array_gives_NaN_witness :
  exists out,
    nth_error
      (snd (NoiseProcessor.process NoiseColors.initial
              (NoiseProcessor.mkParams 1 0 0 0 [1; 1]) Scenarios.smallBlock))
      1 = Some out
    /\ nth_error out 2 = Some NaN.
Proof.
  apply (short_master_array_gives_NaN NoiseColors.initial
           (NoiseProcessor.mkParams 1 0 0 0 [1; 1]) Scenarios.smallBlock
           1 2 [0.5; 0; 0.75]).
  - unfold NoiseProcessor.allZero, Js.is_zero. simpl.
    destruct (Req_dec_T 1 0) as [H|H]; [lra | reflexivity].
  - simpl. lia.
  - reflexivity.
  - simpl. lia.
  - simpl. lia.
Defined.

(** *** The rumble phases *)

Import RumbleNoiseProcessor RumblePhases.

Lemma advance_range (ph inc : R) :
  0 <= ph <= 2 * PI -> 0 <= inc <= 2 * PI ->
  0 <= advance ph inc <= 2 * PI.
Proof.
  intros Hp Hi. unfold advance.
  destruct (Rgt_dec (ph + inc) (2 * PI)); lra.
Qed.

Lemma increment_range (x rate : R) :
  0 < rate -> 0 <= x <= rate -> 0 <= (2 * PI * x) / rate <= 2 * PI.
Proof.
  intros Hr Hx. pose proof PI_RGT_0 as Hpi.
  assert (Hq : 0 <= x / rate <= 1).
  { split.
    - apply Rmult_le_pos; [lra |]. left. now apply Rinv_0_lt_compat.
    - apply Rmult_le_reg_r with rate; [exact Hr|].
      unfold Rdiv. rewrite Rmult_assoc, Rinv_l by lra. lra. }
  replace ((2 * PI * x) / rate) with ((2 * PI) * (x / rate))
    by (unfold Rdiv; ring).
  split; [apply Rmult_le_pos; lra | nra].
Qed.

Lemma rumbleStep_phases (p : parameters) (rate : R) (s : state) :
  0 < rate -> 0 <= rumbleFreq p -> rumbleFreq p * 1.31 <= rate ->
  0 <= rumbleSpeed p <= rate ->
  phasesWithin s -> phasesWithin (fst (rumbleStep p rate s)).
Proof.
  intros Hr Hf Hf3 Hs (H1 & H2 & H3 & H4).
  unfold rumbleStep, phasesWithin. simpl.
  split; [| split; [| split]]; apply advance_range; try assumption.
  - apply increment_range; lra.
  - replace (2 * PI * rumbleFreq p * 1.13)
      with (2 * PI * (rumbleFreq p * 1.13)) by ring.
    apply increment_range; lra.
  - replace (2 * PI * rumbleFreq p * 1.31)
      with (2 * PI * (rumbleFreq p * 1.31)) by ring.
    apply increment_range; lra.
  - apply increment_range; lra.
Qed.

Lemma renderSample_phases (p : parameters) (rate : R) (s : state) (w : R) :
  0 < rate -> 0 <= rumbleFreq p -> rumbleFreq p * 1.31 <= rate ->
  0 <= rumbleSpeed p <= rate ->
  phasesWithin s -> phasesWithin (fst (renderSample p rate s w)).
Proof.
  intros Hr Hf Hf3 Hs Hin. unfold renderSample.
  destruct (mixColors (gainsOf p) (colors s) w) as [c m].
  destruct (Rgt_dec (rumbleGain p) 0).
  - pose proof (rumbleStep_phases p rate
                  (mkState c (rumblePhase1 s) (rumblePhase2 s)
                     (rumblePhase3 s) (rumbleModPhase s))
                  Hr Hf Hf3 Hs Hin) as Hstep.
    destruct (rumbleStep p rate _) as [s1 ru]. exact Hstep.
  - exact Hin.
Qed.

Lemma renderSample_phases_frame (p : parameters) (rate : R) (s : state)
    (w : R) :
  ~ rumbleGain p > 0 -> phases (fst (renderSample p rate s w)) = phases s.
Proof.
  intros Hg. unfold renderSample.
  destruct (mixColors (gainsOf p) (colors s) w) as [c m].
  destruct (Rgt_dec (rumbleGain p) 0); [contradiction | reflexivity].
Qed.

Lemma rumble_renderChannel_phases (p : parameters) (rate : R)
    (channel : list R) :
  forall (s : state) (i : nat),
    (0 < rate -> 0 <= rumbleFreq p -> rumbleFreq p * 1.31 <= rate ->
     0 <= rumbleSpeed p <= rate ->
     phasesWithin s -> phasesWithin (fst (renderChannel p rate s i channel)))
    /\ (~ rumbleGain p > 0 ->
        phases (fst (renderChannel p rate s i channel)) = phases s).
Proof.
  induction channel as [|u rest IH]; intros s i; simpl.
  - split; [intros; assumption | reflexivity].
  - pose proof (renderSample_phases p rate s (whiteOf u)) as Hin.
    pose proof (renderSample_phases_frame p rate s (whiteOf u)) as Hfr.
    destruct (renderSample p rate s (whiteOf u)) as [s1 m].
    specialize (IH s1 (S i)).
    destruct (renderChannel p rate s1 (S i) rest) as [s2 o2].
    simpl in *. destruct IH as [IH1 IH2]. split.
    + intros Hr Hf Hf3 Hs Hw. apply IH1; try assumption.
      apply Hin; assumption.
    + intros Hg. rewrite IH2 by exact Hg. apply Hfr. exact Hg.
Qed.

Lemma rumble_renderChannels_phases (p : parameters) (rate : R)
    (randoms : list (list R)) :
  forall s : state,
    (0 < rate -> 0 <= rumbleFreq p -> rumbleFreq p * 1.31 <= rate ->
     0 <= rumbleSpeed p <= rate ->
     phasesWithin s -> phasesWithin (fst (renderChannels p rate s randoms)))
    /\ (~ rumbleGain p > 0 ->
        phases (fst (renderChannels p rate s randoms)) = phases s).
Proof.
  induction randoms as [|ch rest IH]; intros s; simpl.
  - split; [intros; assumption | reflexivity].
  - pose proof (rumble_renderChannel_phases p rate ch s 0) as [Hin Hfr].
    destruct (renderChannel p rate s 0 ch) as [s1 o1].
    specialize (IH s1).
    destruct (renderChannels p rate s1 rest) as [s2 o2].
    simpl in *. destruct IH as [IH1 IH2]. split.
    + intros Hr Hf Hf3 Hs Hw. apply IH1; try assumption.
      apply Hin; assumption.
    + intros Hg. rewrite IH2 by exact Hg. apply Hfr. exact Hg.
Qed.

(** X11.  The four oscillator phases of the rumble bank stay within
    [0, 2 pi] from one render call to the next, provided no phase increment
    exceeds a full turn (rumble frequency times 1.31 and modulation speed
    both between 0 and the sample rate); and a render call whose rumble
    gain is not positive leaves the phases as they were. *)
Theorem rumble_phases_wrap
    (s : RumbleNoiseProcessor.state) (p : RumbleNoiseProcessor.parameters)
    (randoms : list (list R)) :
  (0 < rateOf p -> 0 <= rumbleFreq p -> rumbleFreq p * 1.31 <= rateOf p ->
   0 <= rumbleSpeed p <= rateOf p ->
   phasesWithin s -> phasesWithin (fst (process s p randoms)))
  /\ (~ rumbleGain p > 0 -> phases (fst (process s p randoms)) = phases s).
Proof.
  unfold process, rateOf.
  destruct (allZero p).
  - split; [intros; assumption | reflexivity].
  - apply rumble_renderChannels_phases.
Qed.

Lemma rumble_phases_wrap_witness :
  let p := RumbleNoiseProcessor.mkParams 0 0.5 0.3 0.2 1 55 1 [1] None in
  phasesWithin (fst (process RumbleNoiseProcessor.initial p
                       Scenarios.smallBlock))
  /\ phases (fst (process RumbleNoiseProcessor.initial
                    (RumbleNoiseProcessor.mkParams 1 0 0 0 0 55 1 [1] None)
                    Scenarios.smallBlock))
     = phases RumbleNoiseProcessor.initial.
Proof.
  pose proof PI_RGT_0 as Hpi.
  split.
  - apply (proj1 (rumble_phases_wrap RumbleNoiseProcessor.initial
                    (RumbleNoiseProcessor.mkParams 0 0.5 0.3 0.2 1 55 1 [1]
                       None)
                    Scenarios.smallBlock)).
    + unfold rateOf, Js.or_default. simpl. lra.
    + simpl. lra.
    + unfold rateOf, Js.or_default. simpl. lra.
    + unfold rateOf, Js.or_default. simpl. lra.
    + unfold phasesWithin. simpl. lra.
  - apply (proj2 (rumble_phases_wrap RumbleNoiseProcessor.initial
                    (RumbleNoiseProcessor.mkParams 1 0 0 0 0 55 1 [1] None)
                    Scenarios.smallBlock)).
    simpl. lra.
Defined.

End WorkletBlocks.

(** ** The engine before [init], and the equaliser curve *)

Section EngineEdges.
Import WebAudio AudioEngine.

(** X12.  On an engine whose audio context does not exist yet the
    equaliser, density, adaptive and reactive operations change nothing
    (the requested values are not kept for later), while [setVolume] does
    record the volume, which [init] then gives to the base gain node. *)
Theorem setters_before_init (e : t) (bandIndex : Z) (x : R)
    (c : AudioContext) :
  ctx e = None ->
  setEQBand e bandIndex x = e
  /\ setDensity e x = e
  /\ applyAdaptiveGain e = e
  /\ handleReactiveImpact e x = e
  /\ (isInitialized e = false ->
      baseGainNode (init (AutoMode.setVolume e x) c) = Some (constant x)).
Proof.
  intros Hc. split; [| split; [| split; [| split]]].
  - unfold setEQBand. rewrite Hc.
    destruct ((bandIndex <? 0)%Z || _); [reflexivity |].
    destruct (eqFilters e !! Z.to_nat bandIndex); reflexivity.
  - unfold setDensity. rewrite Hc.
    destruct (densityDryGain e), (densityWetGain e); reflexivity.
  - unfold applyAdaptiveGain. rewrite Hc.
    destruct (adaptiveGainNode e); reflexivity.
  - unfold handleReactiveImpact. rewrite Hc.
    destruct (reactiveGainNode e); reflexivity.
  - intros Hi. unfold AutoMode.setVolume.
    destruct e; simpl in *. subst. destruct baseGainNode0; reflexivity.
Qed.

Lemma setters_before_init_witness :
  setEQBand create 0 6 = create
  /\ baseGainNode (init (AutoMode.setVolume create 0.4) Scenarios.ctx0)
     = Some (constant 0.4).
Proof.
  destruct (setters_before_init create 0 6 Scenarios.ctx0 eq_refl)
    as (H1 & _).
  destruct (setters_before_init create 0 0.4 Scenarios.ctx0 eq_refl)
    as (_ & _ & _ & _ & H5).
  split; [exact H1 | exact (H5 eq_refl)].
Defined.

Lemma setEQBand_ctx (e : t) (k : Z) (g : R) : ctx (setEQBand e k g) = ctx e.
Proof.
  unfold setEQBand.
  destruct ((k <? 0)%Z || _); [reflexivity |].
  destruct (eqFilters e !! Z.to_nat k); [| reflexivity].
  destruct (ctx e) eqn:Hc; simpl; exact Hc.
Qed.

Lemma setEQBand_length (e : t) (k : Z) (g : R) :
  length (eqFilters (setEQBand e k g)) = length (eqFilters e).
Proof.
  unfold setEQBand.
  destruct ((k <? 0)%Z || _); [reflexivity |].
  destruct (eqFilters e !! Z.to_nat k); [| reflexivity].
  destruct (ctx e); [| reflexivity].
  simpl. apply length_insert.
Qed.

Lemma setEQBand_out_of_range (e : t) (k : Z) (g : R) :
  (Z.of_nat (length (eqFilters e)) <= k)%Z -> setEQBand e k g = e.
Proof.
  intros Hk. unfold setEQBand.
  destruct (k <? 0)%Z; [reflexivity |].
  destruct (k >=? Z.of_nat (length (eqFilters e)))%Z eqn:Hge;
    [reflexivity |].
  rewrite Z.geb_leb in Hge. apply Z.leb_gt in Hge. lia.
Qed.

Lemma setEQBand_lookup (e : t) (k : Z) (g : R) (c : AudioContext) (j : nat) :
  ctx e = Some c -> (0 <= k)%Z ->
  eqFilters (setEQBand e k g) !! j
  = if Nat.eqb j (Z.to_nat k)
    then option_map (fun f => retarget f g (currentTime c)) (eqFilters e !! j)
    else eqFilters e !! j.
Proof.
  intros Hc Hk. unfold setEQBand.
  destruct (k <? 0)%Z eqn:Hneg; [apply Z.ltb_lt in Hneg; lia |].
  destruct (k >=? Z.of_nat (length (eqFilters e)))%Z eqn:Hge; simpl.
  - apply Z.geb_le in Hge.
    destruct (Nat.eqb j (Z.to_nat k)) eqn:Hj; [| reflexivity].
    apply Nat.eqb_eq in Hj. subst j.
    rewrite (proj2 (lookup_ge_None (eqFilters e) (Z.to_nat k))) by lia.
    reflexivity.
  - rewrite Z.geb_leb in Hge. apply Z.leb_gt in Hge.
    destruct (eqFilters e !! Z.to_nat k) as [f|] eqn:Hf.
    + rewrite Hc. simpl.
      destruct (Nat.eqb j (Z.to_nat k)) eqn:Hj.
      * apply Nat.eqb_eq in Hj. subst j. rewrite Hf. simpl.
        apply list_lookup_insert_eq. lia.
      * apply Nat.eqb_neq in Hj. apply list_lookup_insert_ne. congruence.
    + apply lookup_ge_None in Hf. lia.
Qed.

Lemma applyEqFrom_out_of_range (eq : list R) :
  forall (e : t) (k : Z),
    (Z.of_nat (length (eqFilters e)) <= k)%Z ->
    ControlSurface.applyEqFrom e k eq = e.
Proof.
  induction eq as [|g rest IH]; intros e k Hk; simpl; [reflexivity |].
  rewrite setEQBand_out_of_range by exact Hk.
  apply IH. lia.
Qed.

Lemma applyEqFrom_take (eq : list R) :
  forall (e : t) (k : nat),
    ControlSurface.applyEqFrom e (Z.of_nat k) eq
    = ControlSurface.applyEqFrom e (Z.of_nat k)
        (take (length (eqFilters e) - k) eq).
Proof.
  induction eq as [|g rest IH]; intros e k.
  - now rewrite take_nil.
  - destruct (le_lt_dec (length (eqFilters e)) k) as [Hge|Hlt].
    + replace (length (eqFilters e) - k)%nat with 0%nat by lia.
      rewrite take_0. simpl.
      rewrite setEQBand_out_of_range by lia.
      apply applyEqFrom_out_of_range. lia.
    + replace (length (eqFilters e) - k)%nat
        with (S (length (eqFilters e) - S k))%nat by lia.
      simpl.
      replace (Z.of_nat k + 1)%Z with (Z.of_nat (S k)) by lia.
      rewrite IH. rewrite setEQBand_length. reflexivity.
Qed.

Lemma applyEqFrom_lookup (eq : list R) (c : AudioContext) :
  forall (e : t) (k j : nat),
    ctx e = Some c ->
    eqFilters (ControlSurface.applyEqFrom e (Z.of_nat k) eq) !! j
    = match (if (k <=? j)%nat then eq !! (j - k)%nat else None) with
      | Some g =>
          option_map (fun f => retarget f g (currentTime c))
                     (eqFilters e !! j)
      | None => eqFilters e !! j
      end.
Proof.
  induction eq as [|g rest IH]; intros e k j Hc; simpl.
  - destruct (k <=? j)%nat; reflexivity.
  - replace (Z.of_nat k + 1)%Z with (Z.of_nat (S k)) by lia.
    rewrite IH by (now rewrite setEQBand_ctx).
    rewrite (setEQBand_lookup e (Z.of_nat k) g c j Hc) by lia.
    rewrite Nat2Z.id.
    destruct (Nat.eqb j k) eqn:Hjk.
    + apply Nat.eqb_eq in Hjk. subst j.
      replace (S k <=? k)%nat with false
        by (symmetry; apply Nat.leb_gt; lia).
      rewrite Nat.leb_refl, Nat.sub_diag. reflexivity.
    + apply Nat.eqb_neq in Hjk.
      destruct (le_lt_dec (S k) j) as [Hle|Hgt].
      * replace (S k <=? j)%nat with true
          by (symmetry; apply Nat.leb_le; lia).
        replace (k <=? j)%nat with true
          by (symmetry; apply Nat.leb_le; lia).
        replace (j - k)%nat with (S (j - S k))%nat by lia. reflexivity.
      * replace (S k <=? j)%nat with false
          by (symmetry; apply Nat.leb_gt; lia).
        replace (k <=? j)%nat with false
          by (symmetry; apply Nat.leb_gt; lia).
        reflexivity.
Qed.

(** X13.  Applying an equaliser curve to an engine with a context gives
    every filter that has an entry in the curve that entry as its new
    target (time constant 0.02) and leaves the number of filters as it
    was; entries beyond the number of filters are ignored, so the curve
    and its first [length eqFilters] entries have the same effect. *)
Theorem applyEq_uses_leading_entries (e : t) (eq : list R)
    (c : AudioContext) :
  ctx e = Some c ->
  (forall j f g,
     eqFilters e !! j = Some f -> eq !! j = Some g ->
     eqFilters (ControlSurface.applyEq e eq) !! j
     = Some (retarget f g (currentTime c)))
  /\ (forall j, (length eq <= j)%nat ->
        eqFilters (ControlSurface.applyEq e eq) !! j = eqFilters e !! j)
  /\ ControlSurface.applyEq e eq
     = ControlSurface.applyEq e (take (length (eqFilters e)) eq).
Proof.
  intros Hc. unfold ControlSurface.applyEq.
  change 0%Z with (Z.of_nat 0). split; [| split].
  - intros j f g Hf Hg.
    rewrite (applyEqFrom_lookup eq c e 0 j Hc). simpl.
    rewrite Nat.sub_0_r, Hg, Hf. reflexivity.
  - intros j Hj.
    rewrite (applyEqFrom_lookup eq c e 0 j Hc). simpl.
    rewrite Nat.sub_0_r.
    rewrite (proj2 (lookup_ge_None eq j)) by lia. reflexivity.
  - rewrite (applyEqFrom_take eq e 0). now rewrite Nat.sub_0_r.
Qed.

Lemma applyEq_uses_leading_entries_witness :
  eqFilters (ControlSurface.applyEq Scenarios.readyEngine
               [4; 3; 0; 0; 0; 0; 0; 0; 0; -5]) !! 1%nat
  = Some (retarget (mkBiquad peaking 250 (constant 0) 1.0) 3 0)
  /\ ControlSurface.applyEq Scenarios.readyEngine
       [4; 3; 0; 0; 0; 0; 0; 0; 0; -5]
     = ControlSurface.applyEq Scenarios.readyEngine [4; 3; 0; 0; 0].
Proof.
  destruct (applyEq_uses_leading_entries Scenarios.readyEngine
              [4; 3; 0; 0; 0; 0; 0; 0; 0; -5] Scenarios.ctx0 eq_refl)
    as (H1 & _ & H3).
  split.
  - apply (H1 1%nat (mkBiquad peaking 250 (constant 0) 1.0) 3);
      reflexivity.
  - exact H3.
Defined.

End EngineEdges.

(** ** The tuner's result *)

Section AutoTunerShape.
Import AutoTuner.

(** X14.  For sliders in [0,100] the tuner's equaliser curve always has
    ten entries, each between -5 and 10 dB, and the sub-bass volume of the
    mix is 0.  For the four known categories the colour gains add up to at
    least 0.8, so the result is never silent; for any other category string
    the four colour gains and the rumble volume are all 0. *)
Theorem calculateSettings_shape (targetType : string)
    (pitch sharpness resonance : R) :
  0 <= pitch <= 100 -> 0 <= sharpness <= 100 -> 0 <= resonance <= 100 ->
  let st := calculateSettings targetType pitch sharpness resonance in
  length (eq st) = 10%nat
  /\ Forall (fun g => -5 <= g <= 10) (eq st)
  /\ mix_s (mix st) = 0
  /\ (In targetType ["footsteps"; "voices"; "traffic"; "tinnitus"]%string ->
      0.8 <= mix_w (mix st) + mix_p (mix st) + mix_b (mix st)
             + mix_d (mix st))
  /\ (~ In targetType ["footsteps"; "voices"; "traffic"; "tinnitus"]%string ->
      mix_w (mix st) = 0 /\ mix_p (mix st) = 0 /\ mix_b (mix st) = 0
      /\ mix_d (mix st) = 0 /\ mix_r (mix st) = 0).
Proof.
  intros Hp Hs Hr. unfold calculateSettings.
  destruct (String.eqb targetType "footsteps") eqn:E1;
    [| destruct (String.eqb targetType "voices") eqn:E2;
       [| destruct (String.eqb targetType "traffic") eqn:E3;
          [| destruct (String.eqb targetType "tinnitus") eqn:E4]]].
  - destruct (Rgt_dec (sharpness / 100) 0.6); cbn;
      (split; [reflexivity |]);
      (split; [repeat (constructor; [lra |]); constructor |]);
      (split; [reflexivity |]);
      (split; [intros _; lra |]);
      intros Hn; exfalso; apply Hn; left;
      symmetry; now apply String.eqb_eq.
  - destruct (Rgt_dec (sharpness / 100) 0.8); cbn;
      (split; [reflexivity |]);
      (split; [repeat (constructor; [lra |]); constructor |]);
      (split; [reflexivity |]);
      (split; [intros _; lra |]);
      intros Hn; exfalso; apply Hn; right; left;
      symmetry; now apply String.eqb_eq.
  - cbn.
    (split; [reflexivity |]);
      (split; [repeat (constructor; [lra |]); constructor |]);
      (split; [reflexivity |]);
      (split; [intros _; lra |]);
      intros Hn; exfalso; apply Hn; right; right; left;
      symmetry; now apply String.eqb_eq.
  - cbn.
    (split; [reflexivity |]);
      (split; [repeat (constructor; [lra |]); constructor |]);
      (split; [reflexivity |]);
      (split; [intros _; lra |]);
      intros Hn; exfalso; apply Hn; right; right; right; left;
      symmetry; now apply String.eqb_eq.
  - cbn.
    split; [reflexivity |].
    split; [repeat (constructor; [lra |]); constructor |].
    split; [reflexivity |].
    split.
    + intros [H|[H|[H|[H|[]]]]]; subst targetType;
        rewrite String.eqb_refl in *; discriminate.
    + intros _. repeat split; reflexivity.
Qed.

Lemma calculateSettings_shape_witness :
  let st := calculateSettings "traffic" 50 70 30 in
  length (eq st) = 10%nat
  /\ 0.8 <= mix_w (mix st) + mix_p (mix st) + mix_b (mix st)
            + mix_d (mix st).
Proof.
  assert (H1 : 0 <= 50 <= 100) by lra.
  assert (H2 : 0 <= 70 <= 100) by lra.
  assert (H3 : 0 <= 30 <= 100) by lra.
  destruct (calculateSettings_shape "traffic" 50 70 30 H1 H2 H3)
    as (Hl & _ & _ & Hk & _).
  split; [exact Hl |].
  apply Hk. simpl. right. right. left. reflexivity.
Defined.

End AutoTunerShape.

(** ** Auto mode on and off *)

Section AutoModeSwitch.
Import WebAudio AudioEngine.

Lemma insertEvent_keeps (ev x : AutomationEvent)
    (l : list AutomationEvent) :
  In x l -> In x (insertEvent ev l).
Proof.
  induction l as [|y rest IH]; simpl; [tauto |].
  intros [Hx | Hx]; destruct (Rlt_dec (eventTime ev) (eventTime y)); simpl;
    auto.
Qed.

Lemma insertEvent_In (ev : AutomationEvent) (l : list AutomationEvent) :
  In ev (insertEvent ev l).
Proof.
  induction l as [|y rest IH]; simpl; [auto |].
  destruct (Rlt_dec (eventTime ev) (eventTime y)); simpl; auto.
Qed.

(** X15.  Switching auto mode off clears the adaptive gain and its target,
    stops the detector, gives up the microphone stream and the follower
    loop, after which a late score report, impact report or follower tick
    leaves the engine as it is.  Both gain stages get a return to 1.0 with
    time constant 0.5 added to their timelines, yet nothing that was
    scheduled on the reactive gain is cancelled: a boost envelope in
    progress stays on the timeline. *)
Theorem auto_mode_off_is_quiescent (s : AutoMode.t) (spectrum : list byte) :
  let s' := AutoMode.toggleAutoMode s false spectrum in
  let e' := AutoMode.engine s' in
  isAutoMode e' = false /\ adaptiveGain e' = 0 /\ adaptiveTargetGain e' = 0
  /\ AutoMode.micStream s' = false
  /\ AutoMode.adaptiveLoopScheduled s' = false
  /\ detector e'
     = option_map ImpactDetector.stop (detector (AutoMode.engine s))
  /\ (forall score, handleAdaptiveUpdate e' score = e')
  /\ (forall intensity, handleReactiveImpact e' intensity = e')
  /\ adaptiveLoopTick e' = e'
  /\ (forall a r c,
        adaptiveGainNode (AutoMode.engine s) = Some a ->
        reactiveGainNode (AutoMode.engine s) = Some r ->
        ctx (AutoMode.engine s) = Some c ->
        exists a' r',
          adaptiveGainNode e' = Some a' /\ reactiveGainNode e' = Some r'
          /\ In (SetTarget 1.0 (currentTime c) 0.5) (events a')
          /\ In (SetTarget 1.0 (currentTime c) 0.5) (events r')
          /\ forall ev, In ev (events r) -> In ev (events r')).
Proof.
  destruct s as [e mic loop]. destruct e. simpl.
  unfold AutoMode.releaseGains. simpl.
  assert (Hfields :
    forall e1 : t,
      isAutoMode e1 = false ->
      (forall score, handleAdaptiveUpdate e1 score = e1)
      /\ (forall intensity, handleReactiveImpact e1 intensity = e1)
      /\ adaptiveLoopTick e1 = e1).
  { intros e1 H1. unfold handleAdaptiveUpdate, handleReactiveImpact,
      adaptiveLoopTick. rewrite H1. simpl. repeat split.
    intros _. destruct (reactiveGainNode e1), (ctx e1); reflexivity. }
  destruct adaptiveGainNode0 as [a0|], reactiveGainNode0 as [r0|],
    ctx0 as [c0|]; simpl;
    (split; [reflexivity |]); (split; [reflexivity |]);
    (split; [reflexivity |]); (split; [reflexivity |]);
    (split; [reflexivity |]); (split; [reflexivity |]);
    (split; [apply Hfields; reflexivity |]);
    (split; [apply Hfields; reflexivity |]);
    (split; [apply Hfields; reflexivity |]);
    intros a r c Ha Hr Hc; try discriminate.
  injection Ha as Ha. injection Hr as Hr. injection Hc as Hc. subst.
  eexists. eexists. split; [reflexivity |]. split; [reflexivity |].
  simpl. split; [apply insertEvent_In |].
  split; [apply insertEvent_In |].
  intros ev Hev. now apply insertEvent_keeps.
Qed.

Lemma auto_mode_off_is_quiescent_witness :
  let s := AutoMode.mk Scenarios.autoEngine true true in
  isAutoMode (AutoMode.engine (AutoMode.toggleAutoMode s false [])) = false
  /\ exists r',
       reactiveGainNode
         (AutoMode.engine (AutoMode.toggleAutoMode s false []))
       = Some r'
       /\ In (SetTarget 1.0 0 0.5) (events r').
Proof.
  destruct (auto_mode_off_is_quiescent
              (AutoMode.mk Scenarios.autoEngine true true) [])
    as (H1 & _ & _ & _ & _ & _ & _ & _ & _ & H10).
  split; [exact H1 |].
  destruct (H10 (constant 1.0) (constant 1.0) Scenarios.ctx0
              eq_refl eq_refl eq_refl)
    as (a' & r' & _ & Hr & _ & Hin & _).
  exists r'. split; [exact Hr | exact Hin].
Defined.

Lemma handleReactiveImpact_frame (e : t) (intensity : R) :
  detector (handleReactiveImpact e intensity) = detector e
  /\ adaptiveTargetGain (handleReactiveImpact e intensity)
     = adaptiveTargetGain e.
Proof.
  unfold handleReactiveImpact.
  destruct (reactiveGainNode e), (ctx e); try (split; reflexivity).
  destruct (negb (isAutoMode e)); [split; reflexivity |].
  destruct (reactiveOff e); split; reflexivity.
Qed.

Lemma handleAdaptiveUpdate_frame (e : t) (d1 : ImpactDetector.t)
    (score : R) :
  detector e = Some d1 ->
  exists d',
    detector (handleAdaptiveUpdate e score) = Some d'
    /\ ImpactDetector.isRunning d' = ImpactDetector.isRunning d1
    /\ ImpactDetector.sensitivity d' = ImpactDetector.sensitivity d1
    /\ ImpactDetector.reactiveEnabled d' = ImpactDetector.reactiveEnabled d1
    /\ ImpactDetector.enabledBandIds d' = ImpactDetector.enabledBandIds d1
    /\ ImpactDetector.baselineEnergies d'
       = ImpactDetector.baselineEnergies d1
    /\ ImpactDetector.noiseScore d' = ImpactDetector.noiseScore d1
    /\ (isAutoMode e = true ->
        ImpactDetector.currentNoiseGain d' = baseVolume e + adaptiveGain e
        /\ adaptiveTargetGain (handleAdaptiveUpdate e score)
           = Rmin (score * 2) 0.4)
    /\ reactiveGainNode (handleAdaptiveUpdate e score) = reactiveGainNode e.
Proof.
  intros Hd. unfold handleAdaptiveUpdate.
  destruct (isAutoMode e) eqn:Ha; cbn [negb].
  - exists (ImpactDetector.updateNoiseGain d1 (baseVolume e + adaptiveGain e)).
    split; [destruct e; cbn in *; rewrite Hd; reflexivity |].
    split; [reflexivity |]. split; [reflexivity |].
    split; [reflexivity |]. split; [reflexivity |].
    split; [reflexivity |]. split; [reflexivity |].
    split; [intros _; split; reflexivity | reflexivity].
  - exists d1. split; [exact Hd |].
    split; [reflexivity |]. split; [reflexivity |].
    split; [reflexivity |]. split; [reflexivity |].
    split; [reflexivity |]. split; [reflexivity |].
    split; [intros H; discriminate | reflexivity].
Qed.

(** A tick of the engine's running detector: which detector it leaves. *)
Lemma detectorTick_running (e : t) (d : ImpactDetector.t)
    (spectrum : list byte) :
  detector e = Some d -> ImpactDetector.isRunning d = true ->
  exists d',
    detector (AutoMode.detectorTick e spectrum) = Some d'
    /\ ImpactDetector.isRunning d' = true
    /\ ImpactDetector.sensitivity d' = ImpactDetector.sensitivity d
    /\ ImpactDetector.reactiveEnabled d' = ImpactDetector.reactiveEnabled d
    /\ ImpactDetector.enabledBandIds d' = ImpactDetector.enabledBandIds d
    /\ ImpactDetector.baselineEnergies d'
       = ImpactDetector.baselineEnergies
           (fst (ImpactDetector.loop d spectrum))
    /\ ImpactDetector.noiseScore d'
       = ImpactDetector.noiseScore (fst (ImpactDetector.loop d spectrum))
    /\ (forall score,
          ImpactDetector.scoreUpdate (snd (ImpactDetector.loop d spectrum))
          = Some score ->
          isAutoMode e = true ->
          ImpactDetector.currentNoiseGain d' = baseVolume e + adaptiveGain e
          /\ adaptiveTargetGain (AutoMode.detectorTick e spectrum)
             = Rmin (score * 2) 0.4)
    /\ (ImpactDetector.impact (snd (ImpactDetector.loop d spectrum)) = None ->
        reactiveGainNode (AutoMode.detectorTick e spectrum)
        = reactiveGainNode e).
Proof.
  intros Hd Hrun.
  destruct (loop_running d spectrum Hrun) as (_ & _ & R1 & _ & R2 & R3).
  destruct (loop_frame d spectrum Hrun) as (_ & F1 & _).
  unfold AutoMode.detectorTick. rewrite Hd.
  destruct (ImpactDetector.loop d spectrum) as [d1 out].
  cbn [fst snd] in *.
  set (e1 := with_detector e (Some d1)).
  assert (He1 : detector e1 = Some d1) by reflexivity.
  assert (Hsame : isAutoMode e1 = isAutoMode e /\ baseVolume e1 = baseVolume e
                  /\ adaptiveGain e1 = adaptiveGain e
                  /\ reactiveGainNode e1 = reactiveGainNode e)
    by (subst e1; destruct e; cbn; tauto).
  destruct Hsame as (S1 & S2 & S3 & S4).
  set (e2 := match ImpactDetector.scoreUpdate out with
             | Some score => handleAdaptiveUpdate e1 score
             | None => e1
             end).
  assert (H2 : exists d2,
             detector e2 = Some d2
             /\ ImpactDetector.isRunning d2 = ImpactDetector.isRunning d1
             /\ ImpactDetector.sensitivity d2 = ImpactDetector.sensitivity d1
             /\ ImpactDetector.reactiveEnabled d2
                = ImpactDetector.reactiveEnabled d1
             /\ ImpactDetector.enabledBandIds d2
                = ImpactDetector.enabledBandIds d1
             /\ ImpactDetector.baselineEnergies d2
                = ImpactDetector.baselineEnergies d1
             /\ ImpactDetector.noiseScore d2 = ImpactDetector.noiseScore d1
             /\ (forall score,
                   ImpactDetector.scoreUpdate out = Some score ->
                   isAutoMode e = true ->
                   ImpactDetector.currentNoiseGain d2
                   = baseVolume e + adaptiveGain e
                   /\ adaptiveTargetGain e2 = Rmin (score * 2) 0.4)
             /\ reactiveGainNode e2 = reactiveGainNode e).
  { subst e2. destruct (ImpactDetector.scoreUpdate out) as [score |].
    - destruct (handleAdaptiveUpdate_frame e1 d1 score He1)
        as (d2 & A1 & A2 & A3 & A4 & A5 & A6 & A7 & A8 & A9).
      exists d2. split; [exact A1 |]. split; [exact A2 |].
      split; [exact A3 |]. split; [exact A4 |]. split; [exact A5 |].
      split; [exact A6 |]. split; [exact A7 |].
      split; [| rewrite A9; exact S4].
      intros sc Hs Hauto. injection Hs as <-.
      rewrite S1 in A8. destruct (A8 Hauto) as [G1 G2].
      split; [rewrite G1, S2, S3; reflexivity | exact G2].
    - exists d1. split; [exact He1 |].
      split; [reflexivity |]. split; [reflexivity |].
      split; [reflexivity |]. split; [reflexivity |].
      split; [reflexivity |]. split; [reflexivity |].
      split; [intros sc Hs; discriminate | exact S4]. }
  destruct H2 as (d2 & A1 & A2 & A3 & A4 & A5 & A6 & A7 & A8 & A9).
  fold e2.
  exists d2.
  assert (Hdet : detector
                   match ImpactDetector.impact out with
                   | Some (intensity, _) => handleReactiveImpact e2 intensity
                   | None => e2
                   end = Some d2
                 /\ adaptiveTargetGain
                      match ImpactDetector.impact out with
                      | Some (intensity, _) =>
                          handleReactiveImpact e2 intensity
                      | None => e2
                      end = adaptiveTargetGain e2).
  { destruct (ImpactDetector.impact out) as [[intensity band] |].
    - destruct (handleReactiveImpact_frame e2 intensity) as [E1 E2].
      rewrite E1, E2. split; [exact A1 | reflexivity].
    - split; [exact A1 | reflexivity]. }
  destruct Hdet as [Hdet Htg].
  split; [exact Hdet |].
  split; [rewrite A2; exact R1 |].
  split; [rewrite A3; exact R2 |].
  split; [rewrite A4; exact R3 |].
  split; [rewrite A5; exact F1 |].
  split; [exact A6 |]. split; [exact A7 |].
  split.
  - intros score Hs Hauto. destruct (A8 score Hs Hauto) as [G1 G2].
    split; [exact G1 | rewrite Htg; exact G2].
  - intros Hnone. rewrite Hnone. exact A9.
Qed.

(** The first tick of a detector that was just constructed and started:
    the full-spectrum energy becomes the baseline, nothing deviates. *)
Lemma fresh_first_tick (cb : ImpactDetector.DetectionCallbacks) (rate : R)
    (spectrum : list byte) :
  let d0 := ImpactDetector.start (ImpactDetector.create cb rate) in
  let energy :=
    ImpactDetector.getBandEnergy
      (ImpactDetector.with_frequencyData d0 spectrum) 20 20000 in
  ImpactDetector.baselineEnergies (fst (ImpactDetector.loop d0 spectrum))
  = {[ "all"%string := energy ]}
  /\ ImpactDetector.noiseScore (fst (ImpactDetector.loop d0 spectrum)) = 0
  /\ ImpactDetector.impact (snd (ImpactDetector.loop d0 spectrum)) = None
  /\ ImpactDetector.scoreUpdate (snd (ImpactDetector.loop d0 spectrum))
     = (if ImpactDetector.onNoiseScoreUpdate cb then Some 0 else None).
Proof.
  intros d0 energy.
  assert (Hrun : ImpactDetector.isRunning d0 = true) by reflexivity.
  destruct (loop_running d0 spectrum Hrun) as (Hi & _).
  destruct (loop_frame d0 spectrum Hrun) as (Hb & _).
  destruct (loop_score d0 spectrum Hrun) as (Hs & Hu).
  pose proof (getBandEnergy_range
                (ImpactDetector.with_frequencyData d0 spectrum) 20 20000)
    as Hen.
  fold energy in Hen.
  assert (Hdev : ImpactDetector.tickDeviations d0 spectrum
                 = ImpactDetector.mkDev (Rmax 0 (energy - energy))
                     (Rmax 0 (energy - energy)) None)
    by reflexivity.
  rewrite Rmax_0_self in Hdev.
  assert (Hbase :
    ImpactDetector.baselineEnergies
      (snd (ImpactDetector.analyse
              (ImpactDetector.tickCooldown
                 (ImpactDetector.with_frequencyData d0 spectrum))))
    = <[ "all"%string :=
           Rmax (if Rlt_dec energy energy
                 then energy * ImpactDetector.BASELINE_SMOOTHING
                      + energy * (1 - ImpactDetector.BASELINE_SMOOTHING)
                 else energy * 0.95 + energy * 0.05)
                (0 * 0.3) ]> ∅)
    by reflexivity.
  assert (Hscore :
    ImpactDetector.noiseScore (fst (ImpactDetector.loop d0 spectrum)) = 0).
  { rewrite Hs, Hdev. cbn [ImpactDetector.totalDeviation].
    change (ImpactDetector.noiseScore d0) with 0. lra. }
  split; [| split; [exact Hscore | split]].
  - rewrite Hb, Hbase, insert_empty. f_equal.
    destruct (Rlt_dec energy energy); [lra |].
    unfold Rmax. destruct (Rle_dec _ _); lra.
  - rewrite Hi, Hdev. cbn [ImpactDetector.maxDeviation].
    destruct (Rgt_dec 0 (ImpactDetector.impactThreshold d0)) as [Hgt | _].
    + unfold ImpactDetector.impactThreshold in Hgt.
      change (ImpactDetector.sensitivity d0) with 0.5 in Hgt. lra.
    + now rewrite andb_false_r.
  - rewrite Hu, Hscore. reflexivity.
Qed.

(** X16.  Switching auto mode off and on again on an engine with a
    context (microphone granted) replaces the detector by a new one with
    the constructor's settings, started and past its first tick: it runs
    at sensitivity 0.5 with the reactive boost enabled and the full
    spectrum, whatever had been set on the old detector; its only
    baseline is the full-spectrum energy of that first spectrum, its noise
    score is 0, it was told the base volume as masking gain, the adaptive
    target is 0 and the tick put nothing on the reactive gain.  After
    [suspend], switching auto mode on while the microphone stream is held
    restarts the existing detector: it runs again, keeps its sensitivity,
    reactive flag and enabled bands, and is told the base volume. *)
Theorem auto_mode_restart_resets_detector (s : AutoMode.t)
    (c : AudioContext) (spectrum0 spectrum : list byte) :
  ctx (AutoMode.engine s) = Some c ->
  (let off := AutoMode.toggleAutoMode s false spectrum0 in
   let s' := AutoMode.toggleAutoMode off true spectrum in
   let d0 :=
     ImpactDetector.start
       (ImpactDetector.create (ImpactDetector.mkCallbacks true true)
          (sampleRate c)) in
   exists d',
     detector (AutoMode.engine s') = Some d'
     /\ ImpactDetector.isRunning d' = true
     /\ ImpactDetector.sensitivity d' = 0.5
     /\ ImpactDetector.reactiveEnabled d' = true
     /\ ImpactDetector.enabledBandIds d' = []
     /\ ImpactDetector.baselineEnergies d'
        = {[ "all"%string :=
               ImpactDetector.getBandEnergy
                 (ImpactDetector.with_frequencyData d0 spectrum) 20 20000 ]}
     /\ ImpactDetector.noiseScore d' = 0
     /\ ImpactDetector.currentNoiseGain d' = baseVolume (AutoMode.engine s)
     /\ adaptiveTargetGain (AutoMode.engine s') = 0
     /\ reactiveGainNode (AutoMode.engine s')
        = reactiveGainNode (AutoMode.engine off)
     /\ AutoMode.micStream s' = true
     /\ AutoMode.adaptiveLoopScheduled s' = true)
  /\ (forall d,
        detector (AutoMode.engine s) = Some d ->
        AutoMode.micStream s = true ->
        exists d',
          detector (AutoMode.engine
                      (AutoMode.toggleAutoMode (AutoMode.suspend s) true
                         spectrum))
          = Some d'
          /\ ImpactDetector.isRunning d' = true
          /\ ImpactDetector.sensitivity d' = ImpactDetector.sensitivity d
          /\ ImpactDetector.reactiveEnabled d'
             = ImpactDetector.reactiveEnabled d
          /\ ImpactDetector.enabledBandIds d'
             = ImpactDetector.enabledBandIds d
          /\ ImpactDetector.baselineEnergies d'
             = ImpactDetector.baselineEnergies
                 (fst (ImpactDetector.loop
                         (ImpactDetector.start (ImpactDetector.stop d))
                         spectrum))
          /\ ImpactDetector.currentNoiseGain d'
             = baseVolume (AutoMode.engine s)).
Proof.
  intros Hc. destruct s as [e mic loop]. cbn [AutoMode.engine] in Hc.
  split.
  - cbn zeta.
    set (cb := ImpactDetector.mkCallbacks true true).
    set (d0 := ImpactDetector.start (ImpactDetector.create cb (sampleRate c))).
    set (off := AutoMode.toggleAutoMode (AutoMode.mk e mic loop) false
                  spectrum0).
    assert (Hoff : ctx (AutoMode.engine off) = Some c
                   /\ adaptiveGain (AutoMode.engine off) = 0
                   /\ baseVolume (AutoMode.engine off) = baseVolume e
                   /\ AutoMode.micStream off = false).
    { subst off. unfold AutoMode.toggleAutoMode, AutoMode.releaseGains.
      destruct e. cbn in Hc. subst. cbn.
      destruct adaptiveGainNode0, reactiveGainNode0; cbn; tauto. }
    destruct Hoff as (Hoc & Hog & Hob & Hom).
    set (e1 := with_detector
                 (with_detector
                    (AutoMode.with_isAutoMode (AutoMode.engine off) true)
                    (Some (ImpactDetector.create cb (sampleRate c))))
                 (Some d0)).
    assert (Hon : AutoMode.toggleAutoMode off true spectrum
                  = AutoMode.mk (AutoMode.detectorTick e1 spectrum) true true).
    { unfold AutoMode.toggleAutoMode, AutoMode.initInput.
      rewrite Hom. cbn [negb AutoMode.engine AutoMode.micStream].
      assert (Hc' : ctx (AutoMode.with_isAutoMode (AutoMode.engine off) true)
                    = Some c) by (destruct (AutoMode.engine off); exact Hoc).
      rewrite Hc'. cbn [AutoMode.engine AutoMode.micStream].
      unfold AutoMode.startDetector. cbn [detector with_detector].
      change (ImpactDetector.isRunning
                (ImpactDetector.create cb (sampleRate c))) with false.
      cbv iota. subst e1 d0 cb. reflexivity. }
    rewrite Hon. cbn [AutoMode.engine AutoMode.micStream
                       AutoMode.adaptiveLoopScheduled].
    assert (He1 : detector e1 = Some d0) by reflexivity.
    assert (Hrun : ImpactDetector.isRunning d0 = true) by reflexivity.
    destruct (detectorTick_running e1 d0 spectrum He1 Hrun)
      as (d' & D1 & D2 & D3 & D4 & D5 & D6 & D7 & D8 & D9).
    destruct (fresh_first_tick cb (sampleRate c) spectrum)
      as (T1 & T2 & T3 & T4).
    fold d0 in T1, T2, T3, T4. cbn [ImpactDetector.onNoiseScoreUpdate cb]
      in T4.
    assert (Hauto : isAutoMode e1 = true)
      by (subst e1; destruct (AutoMode.engine off); reflexivity).
    destruct (D8 0 T4 Hauto) as [G1 G2].
    exists d'. split; [exact D1 |]. split; [exact D2 |].
    split; [rewrite D3; reflexivity |].
    split; [rewrite D4; reflexivity |].
    split; [rewrite D5; reflexivity |].
    split; [rewrite D6; exact T1 |].
    split; [rewrite D7; exact T2 |].
    assert (Hbv : baseVolume e1 = baseVolume e /\ adaptiveGain e1 = 0
                  /\ reactiveGainNode e1
                     = reactiveGainNode (AutoMode.engine off)).
    { subst e1. destruct (AutoMode.engine off). cbn in Hob, Hog |- *.
      tauto. }
    destruct Hbv as (B1 & B2 & B3).
    split; [rewrite G1, B1, B2; cbn [AutoMode.engine]; lra |].
    split.
    { rewrite G2. unfold Rmin. destruct (Rle_dec (0 * 2) 0.4); lra. }
    split; [rewrite (D9 T3); exact B3 |].
    split; reflexivity.
  - intros d Hd Hmic. cbn [AutoMode.engine AutoMode.micStream] in Hd, Hmic.
    subst mic.
    set (ds := ImpactDetector.start (ImpactDetector.stop d)).
    set (e0 := AutoMode.with_isAutoMode
                 (AutoMode.with_isAutoMode
                    (AutoMode.onDetector ImpactDetector.stop e) false)
                 true).
    set (e1 := with_detector e0 (Some ds)).
    assert (Hon :
      AutoMode.engine
        (AutoMode.toggleAutoMode (AutoMode.suspend (AutoMode.mk e true loop))
           true spectrum)
      = AutoMode.onDetector
          (fun x =>
             ImpactDetector.updateNoiseGain x
               (baseVolume (AutoMode.detectorTick e1 spectrum)))
          (AutoMode.detectorTick e1 spectrum)).
    { unfold AutoMode.suspend. cbn [AutoMode.engine]. rewrite Hc.
      unfold AutoMode.toggleAutoMode.
      cbn [negb AutoMode.engine AutoMode.micStream].
      unfold AutoMode.startDetector.
      assert (Hdet : detector e0 = Some (ImpactDetector.stop d)).
      { subst e0. unfold AutoMode.onDetector. destruct e. cbn in *.
        now rewrite Hd. }
      fold e0. rewrite Hdet.
      cbn [ImpactDetector.isRunning ImpactDetector.stop
           ImpactDetector.with_isRunning].
      reflexivity. }
    rewrite Hon.
    assert (He1 : detector e1 = Some ds) by reflexivity.
    assert (Hrun : ImpactDetector.isRunning ds = true) by reflexivity.
    destruct (detectorTick_running e1 ds spectrum He1 Hrun)
      as (d' & D1 & D2 & D3 & D4 & D5 & D6 & D7 & D8 & D9).
    assert (Hbase : baseVolume (AutoMode.detectorTick e1 spectrum)
                    = baseVolume e).
    { unfold AutoMode.detectorTick. rewrite He1.
      destruct (ImpactDetector.loop ds spectrum) as [d1 out].
      assert (Hh : forall x sc, baseVolume (handleAdaptiveUpdate x sc)
                                = baseVolume x).
      { intros x sc. unfold handleAdaptiveUpdate.
        destruct (negb (isAutoMode x)); reflexivity. }
      assert (Hr : forall x i, baseVolume (handleReactiveImpact x i)
                               = baseVolume x).
      { intros x i. unfold handleReactiveImpact.
        destruct (reactiveGainNode x), (ctx x); try reflexivity.
        destruct (negb (isAutoMode x)); [reflexivity |].
        destruct (reactiveOff x); reflexivity. }
      destruct (ImpactDetector.scoreUpdate out),
        (ImpactDetector.impact out) as [[i b] |];
        rewrite ?Hr, ?Hh; subst e1 e0; destruct e; reflexivity. }
    exists (ImpactDetector.updateNoiseGain d' (baseVolume e)).
    split.
    { unfold AutoMode.onDetector. rewrite D1, Hbase. reflexivity. }
    cbn [AutoMode.engine].
    unfold ImpactDetector.updateNoiseGain.
    cbn [ImpactDetector.isRunning ImpactDetector.sensitivity
         ImpactDetector.reactiveEnabled ImpactDetector.enabledBandIds
         ImpactDetector.baselineEnergies ImpactDetector.currentNoiseGain
         ImpactDetector.with_currentNoiseGain].
    split; [exact D2 |].
    split; [rewrite D3; reflexivity |].
    split; [rewrite D4; reflexivity |].
    split; [rewrite D5; reflexivity |].
    split; [exact D6 |].
    reflexivity.
Qed.

Lemma auto_mode_restart_resets_detector_witness :
  exists d',
    detector (AutoMode.engine
                (AutoMode.toggleAutoMode
                   (AutoMode.toggleAutoMode
                      (AutoMode.mk
                         (AutoMode.setSensitivity Scenarios.autoEngine 0.9)
                         true true)
                      false [])
                   true Scenarios.flatSpectrum))
    = Some d'
    /\ ImpactDetector.sensitivity d' = 0.5
    /\ ImpactDetector.noiseScore d' = 0.
Proof.
  destruct (auto_mode_restart_resets_detector
              (AutoMode.mk (AutoMode.setSensitivity Scenarios.autoEngine 0.9)
                 true true)
              Scenarios.ctx0 [] Scenarios.flatSpectrum eq_refl)
    as [(d' & H1 & _ & H3 & _ & _ & _ & H7 & _) _].
  exists d'. split; [exact H1 |]. split; [exact H3 | exact H7].
Defined.

End AutoModeSwitch.

(** ** The soundscape layers *)

Section SoundscapeLayers.
Import WebAudio Soundscapes.

Lemma is_zero_true (x : R) : x = 0 -> Js.is_zero x = true.
Proof.
  intros H. unfold Js.is_zero. destruct (Req_dec_T x 0); [reflexivity | lra].
Qed.

Lemma is_zero_false (x : R) : x <> 0 -> Js.is_zero x = false.
Proof.
  intros H. unfold Js.is_zero.
  destruct (Req_dec_T x 0); [contradiction | reflexivity].
Qed.

(** X17.  Setting a positive volume on a loaded, stopped layer starts
    exactly one looping source and schedules no timeout; setting it on a
    layer that already plays starts nothing.  Volume 0 (or a negative one)
    on a playing layer keeps it playing and schedules the timeout; on a
    stopped layer it schedules nothing.  In every case the layer's volume
    field and the target of its gain are the requested volume. *)
Theorem setSoundVolume_starts_once (s : t) (id : string) (layer : SoundLayer)
    (c : AudioContext) (v : R) :
  layers s !! id = Some layer -> ctx s = Some c ->
  let r := setSoundVolume s id v in
  let g := setTargetAtTime (gainNode layer) v (currentTime c) 0.1 in
  (v > 0 -> isPlaying layer = false ->
   layers (fst r) !! id = Some (mkLayer g true true v)
   /\ hostLog (fst r)
      = (if sourceNode layer then hostLog s ++ [SourceStop id]
         else hostLog s) ++ [SourceStart id]
   /\ snd r = false)
  /\ (v > 0 -> isPlaying layer = true ->
      layers (fst r) !! id = Some (mkLayer g (sourceNode layer) true v)
      /\ hostLog (fst r) = hostLog s /\ snd r = false)
  /\ (~ v > 0 ->
      layers (fst r) !! id
      = Some (mkLayer g (sourceNode layer) (isPlaying layer) v)
      /\ hostLog (fst r) = hostLog s /\ snd r = isPlaying layer).
Proof.
  intros Hl Hc. unfold setSoundVolume. rewrite Hl, Hc. simpl.
  split; [| split].
  - intros Hv Hp. destruct (Rgt_dec v 0); [| contradiction].
    rewrite Hp. simpl. unfold startSound. simpl.
    rewrite lookup_insert_eq. rewrite ?Hc. simpl.
    rewrite lookup_insert_eq. auto.
  - intros Hv Hp. destruct (Rgt_dec v 0); [| contradiction].
    rewrite Hp. simpl. rewrite lookup_insert_eq. auto.
  - intros Hv. destruct (Rgt_dec v 0); [contradiction |].
    destruct (isPlaying layer); simpl; rewrite lookup_insert_eq; auto.
Qed.

Lemma setSoundVolume_starts_once_witness :
  let s := loadSound (mk (Some Scenarios.ctx0) ∅ []) "rain" in
  hostLog (fst (setSoundVolume s "rain" 0.5)) = [SourceStart "rain"]
  /\ snd (setSoundVolume s "rain" 0.5) = false.
Proof.
  assert (Hv : 0.5 > 0) by lra.
  destruct (setSoundVolume_starts_once
              (loadSound (mk (Some Scenarios.ctx0) ∅ []) "rain") "rain"
              (mkLayer (constant 0) false false 0) Scenarios.ctx0 0.5
              (lookup_insert_eq _ _ _) eq_refl) as [H _].
  destruct (H Hv eq_refl) as (_ & H2 & H3).
  split; [exact H2 | exact H3].
Defined.

(** X18.  When the timeout of [setSoundVolume] fires, the layer is
    stopped exactly if its volume is 0 at that moment and it still has a
    source: the source is stopped once and the layer is marked as not
    playing.  With any other volume, or without a source, nothing changes;
    in particular a second firing after a stop does nothing. *)
Theorem stopTimeout_checks_latest_volume (s : t) (id : string)
    (layer : SoundLayer) :
  layers s !! id = Some layer ->
  (volume layer = 0 -> sourceNode layer = true ->
   layers (stopTimeout s id) !! id
   = Some (mkLayer (gainNode layer) false false 0)
   /\ hostLog (stopTimeout s id) = hostLog s ++ [SourceStop id]
   /\ stopTimeout (stopTimeout s id) id = stopTimeout s id)
  /\ (volume layer <> 0 -> stopTimeout s id = s)
  /\ (sourceNode layer = false -> stopTimeout s id = s).
Proof.
  intros Hl. unfold stopTimeout, stopSound. rewrite Hl.
  split; [| split].
  - intros Hv Hs. rewrite (is_zero_true _ Hv), Hs, Hv. simpl.
    rewrite lookup_insert_eq. simpl.
    rewrite (is_zero_true 0 eq_refl). auto.
  - intros Hv. now rewrite (is_zero_false _ Hv).
  - intros Hs. rewrite Hs. destruct (Js.is_zero (volume layer)); reflexivity.
Qed.

Lemma stopTimeout_checks_latest_volume_witness :
  let s :=
    mk (Some Scenarios.ctx0)
       {[ "rain"%string := mkLayer (constant 0) true true 0 ]}
       [SourceStart "rain"] in
  hostLog (stopTimeout s "rain") = [SourceStart "rain"; SourceStop "rain"].
Proof.
  destruct (stopTimeout_checks_latest_volume
              (mk (Some Scenarios.ctx0)
                  {[ "rain"%string := mkLayer (constant 0) true true 0 ]}
                  [SourceStart "rain"])
              "rain" (mkLayer (constant 0) true true 0)
              (lookup_singleton_eq _ _)) as [H _].
  destruct (H eq_refl eq_refl) as (_ & H2 & _).
  exact H2.
Defined.

(** X19.  A quick pass through zero does not interrupt a layer: when a
    playing layer is set to volume 0 and then to a positive volume before
    the timeout fires, the timeout changes nothing, the layer keeps
    playing, and no source was started or stopped in between. *)
Theorem zero_then_positive_keeps_playing (s : t) (id : string)
    (layer : SoundLayer) (c : AudioContext) (v : R) :
  layers s !! id = Some layer -> ctx s = Some c ->
  isPlaying layer = true -> v > 0 ->
  let s1 := fst (setSoundVolume s id 0) in
  let s2 := fst (setSoundVolume s1 id v) in
  snd (setSoundVolume s id 0) = true
  /\ stopTimeout s2 id = s2
  /\ hostLog s2 = hostLog s
  /\ (isPlaying <$> layers s2 !! id) = Some true
  /\ (volume <$> layers s2 !! id) = Some v.
Proof.
  intros Hl Hc Hp Hv. unfold setSoundVolume. rewrite Hl, Hc. simpl.
  destruct (Rgt_dec 0 0); [lra |].
  rewrite Hp. simpl. rewrite lookup_insert_eq. rewrite ?Hc. simpl.
  destruct (Rgt_dec v 0); [| contradiction].
  rewrite ?Hp. simpl.
  unfold stopTimeout. simpl. rewrite lookup_insert_eq. simpl.
  rewrite is_zero_false by lra.
  auto.
Qed.

Lemma zero_then_positive_keeps_playing_witness :
  let s :=
    mk (Some Scenarios.ctx0)
       {[ "rain"%string := mkLayer (constant 0) true true 0.5 ]}
       [SourceStart "rain"] in
  hostLog (fst (setSoundVolume (fst (setSoundVolume s "rain" 0)) "rain" 0.3))
  = [SourceStart "rain"].
Proof.
  assert (Hv : 0.3 > 0) by lra.
  destruct (zero_then_positive_keeps_playing
              (mk (Some Scenarios.ctx0)
                  {[ "rain"%string := mkLayer (constant 0) true true 0.5 ]}
                  [SourceStart "rain"])
              "rain" (mkLayer (constant 0) true true 0.5) Scenarios.ctx0 0.3
              (lookup_singleton_eq _ _) eq_refl eq_refl Hv)
    as (_ & _ & H3 & _).
  exact H3.
Defined.

(** X20.  Layers are independent and unknown ids are ignored: setting the
    volume of one id, or its timeout firing, never changes the layer stored
    under another id, and for an id that was not loaded (or before there is
    a context) [setSoundVolume] changes nothing and schedules nothing. *)
Theorem layers_are_independent (s : t) (id other : string) (v : R) :
  (other <> id ->
   layers (fst (setSoundVolume s id v)) !! other = layers s !! other
   /\ layers (stopTimeout s id) !! other = layers s !! other)
  /\ (layers s !! id = None \/ ctx s = None ->
      setSoundVolume s id v = (s, false)).
Proof.
  split.
  - intros Hne. split.
    + unfold setSoundVolume.
      destruct (layers s !! id) as [layer|] eqn:Hl; [| reflexivity].
      destruct (ctx s) as [c|] eqn:Hc; [| reflexivity].
      destruct (Rgt_dec v 0).
      * simpl. destruct (isPlaying layer); simpl.
        -- now rewrite lookup_insert_ne by congruence.
        -- unfold startSound. simpl. rewrite lookup_insert_eq. rewrite ?Hc. simpl.
           now rewrite !lookup_insert_ne by congruence.
      * simpl. destruct (isPlaying layer); simpl;
          now rewrite lookup_insert_ne by congruence.
    + unfold stopTimeout, stopSound.
      destruct (layers s !! id) as [layer|] eqn:Hl; [| reflexivity].
      destruct (Js.is_zero (volume layer)); [| reflexivity].
      destruct (sourceNode layer); [| reflexivity].
      simpl. now rewrite lookup_insert_ne by congruence.
  - intros [Hl | Hc]; unfold setSoundVolume.
    + now rewrite Hl.
    + rewrite Hc. destruct (layers s !! id); reflexivity.
Qed.

Lemma layers_are_independent_witness :
  setSoundVolume (mk (Some Scenarios.ctx0) ∅ []) "rain" 0.5
  = (mk (Some Scenarios.ctx0) ∅ [], false).
Proof.
  apply (proj2 (layers_are_independent (mk (Some Scenarios.ctx0) ∅ [])
                  "rain" "fire" 0.5)).
  left. apply lookup_empty.
Defined.

End SoundscapeLayers.

(** ** Fluctuation *)

Section FluctuationLoop.
Import WebAudio Fluctuation.

Lemma targetGain_range (dateNow strength : R) :
  0 <= strength ->
  1 - strength * 0.5 <= targetGain dateNow strength <= 1 + strength * 0.5.
Proof.
  intros Hs. unfold targetGain.
  pose proof (SIN_bound (dateNow / 1000 * 0.1)) as H1.
  pose proof (SIN_bound (dateNow / 1000 * 0.23 + 1)) as H2.
  pose proof (SIN_bound (dateNow / 1000 * 0.7 + 2)) as H3.
  set (w1 := sin (dateNow / 1000 * 0.1)) in *.
  set (w2 := sin (dateNow / 1000 * 0.23 + 1)) in *.
  set (w3 := sin (dateNow / 1000 * 0.7 + 2)) in *.
  assert (Hc : -1 <= w1 * 0.5 + w2 * 0.3 + w3 * 0.2 <= 1) by lra.
  set (cmb := w1 * 0.5 + w2 * 0.3 + w3 * 0.2) in *.
  split; nra.
Qed.

(** X21.  Each run of the fluctuation loop on an enabled engine with a
    non-negative strength schedules, at the current time and with time
    constant 0.1, a target between [1 - strength / 2] and
    [1 + strength / 2], and keeps the loop scheduled; with strength 0 the
    target is exactly 1. *)
Theorem fluctuationLoop_target_range (s : t) (node : AudioParam)
    (c : AudioContext) (dateNow : R) :
  fluctuationGainNode s = Some node -> ctx s = Some c ->
  isFluctuationEnabled s = true -> 0 <= fluctuationStrength s ->
  exists target,
    fluctuationGainNode (fluctuationLoop s dateNow)
    = Some (setTargetAtTime node target (currentTime c) 0.1)
    /\ 1 - fluctuationStrength s * 0.5 <= target
       <= 1 + fluctuationStrength s * 0.5
    /\ (fluctuationStrength s = 0 -> target = 1)
    /\ fluctuationAnimationId (fluctuationLoop s dateNow) = true.
Proof.
  intros Hn Hc He Hs. unfold fluctuationLoop. rewrite Hn, Hc, He. simpl.
  exists (targetGain dateNow (fluctuationStrength s)).
  split; [reflexivity |]. split; [now apply targetGain_range |].
  split; [| reflexivity].
  intros H0. unfold targetGain. rewrite H0. lra.
Qed.

Lemma fluctuationLoop_target_range_witness :
  exists target,
    fluctuationGainNode
      (fluctuationLoop
         (mk (Some Scenarios.ctx0) (Some (constant 1)) true 0.3 false) 5000)
    = Some (setTargetAtTime (constant 1) target 0 0.1)
    /\ 1 - 0.3 * 0.5 <= target <= 1 + 0.3 * 0.5.
Proof.
  assert (Hs : 0 <= 0.3) by lra.
  destruct (fluctuationLoop_target_range
              (mk (Some Scenarios.ctx0) (Some (constant 1)) true 0.3 false)
              (constant 1) Scenarios.ctx0 5000 eq_refl eq_refl eq_refl Hs)
    as (target & H1 & H2 & _).
  exists target. split; [exact H1 | exact H2].
Defined.

(** X22.  Disabling fluctuation unschedules the loop, after which a loop
    callback that still arrives changes nothing, and a return of the gain
    to 1.0 (time constant 0.5) is put on the timeline.  Enabling it while
    the loop is already scheduled starts no second loop, and enabling it
    while the gain node does not exist yet starts none at all. *)
Theorem setFluctuation_controls_loop (s : t) (dateNow later : R) :
  (let s' := setFluctuation s false dateNow in
   isFluctuationEnabled s' = false
   /\ fluctuationAnimationId s' = false
   /\ fluctuationLoop s' later = s'
   /\ (forall node c,
         fluctuationGainNode s = Some node -> ctx s = Some c ->
         fluctuationGainNode s'
         = Some (setTargetAtTime node 1.0 (currentTime c) 0.5)))
  /\ (fluctuationAnimationId s = true ->
      fluctuationGainNode (setFluctuation s true dateNow)
      = fluctuationGainNode s)
  /\ (fluctuationGainNode s = None ->
      fluctuationAnimationId (setFluctuation s true dateNow)
      = fluctuationAnimationId s).
Proof.
  destruct s as [c0 n0 en st id]. split; [| split].
  - unfold setFluctuation, stopFluctuationLoop, fluctuationLoop. simpl.
    destruct n0 as [n|], c0 as [c|]; simpl;
      (split; [reflexivity |]); (split; [reflexivity |]);
      (split; [reflexivity |]);
      intros node c' Hn Hc'; try discriminate.
    injection Hn as Hn. injection Hc' as Hc'. subst. reflexivity.
  - simpl. intros Hid. subst id.
    unfold setFluctuation, startFluctuationLoop. simpl. reflexivity.
  - simpl. intros Hn. subst n0.
    unfold setFluctuation, startFluctuationLoop, fluctuationLoop. simpl.
    destruct id; reflexivity.
Qed.

Lemma setFluctuation_controls_loop_witness :
  fluctuationAnimationId
    (setFluctuation (mk None None false 0.3 false) true 5000)
  = false.
Proof.
  apply (proj2 (proj2 (setFluctuation_controls_loop
                         (mk None None false 0.3 false) 5000 0))).
  reflexivity.
Defined.

End FluctuationLoop.

(** ** Microphone level and impulse response *)

Section SignalLevels.
Import Signals.

Lemma square_sum_nonneg (data : list byte) :
  forall acc : R,
    0 <= acc ->
    0 <= fold_left
           (fun sum b =>
              let x := (ImpactDetector.byteVal b - 128) / 128.0 in
              sum + x * x)
           data acc.
Proof.
  induction data as [|b rest IH]; intros acc Ha; simpl; [exact Ha |].
  apply IH.
  pose proof (Rle_0_sqr ((ImpactDetector.byteVal b - 128) / 128.0)) as Hsq.
  unfold Rsqr in Hsq. lra.
Qed.

Lemma byteVal_x80 : ImpactDetector.byteVal x80 = 128.
Proof. unfold ImpactDetector.byteVal. simpl. reflexivity. Qed.

Lemma square_sum_silent (data : list byte) :
  Forall (fun b => b = x80) data ->
  fold_left
    (fun sum b =>
       let x := (ImpactDetector.byteVal b - 128) / 128.0 in
       sum + x * x)
    data 0 = 0.
Proof.
  induction 1 as [|b rest Hb _ IH]; simpl; [reflexivity |].
  subst b. rewrite byteVal_x80.
  replace (0 + (128 - 128) / 128.0 * ((128 - 128) / 128.0)) with 0
    by (unfold Rdiv; ring).
  exact IH.
Qed.

(** X23.  The microphone level is always between 0 and 1 for a non-empty
    sample array, it is 0 when every sample sits at the mid value 128
    (silence), and it is 0 when there is no input analyser. *)
Theorem getMicrophoneVolume_range (dataArray : list byte) :
  dataArray <> [] ->
  0 <= getMicrophoneVolume (Some dataArray) <= 1
  /\ (Forall (fun b => b = x80) dataArray ->
      getMicrophoneVolume (Some dataArray) = 0)
  /\ getMicrophoneVolume None = 0.
Proof.
  intros Hne. unfold getMicrophoneVolume. split; [| split].
  - split.
    + apply Rmin_glb; [| lra].
      assert (0 <= sqrt
                (fold_left
                   (fun sum b =>
                      let x := (ImpactDetector.byteVal b - 128) / 128.0 in
                      sum + x * x)
                   dataArray 0 / INR (length dataArray)))
        by apply sqrt_pos.
      lra.
    + eapply Rle_trans; [apply Rmin_r | lra].
  - intros Hs. pose proof (square_sum_silent dataArray Hs) as Hz.
    cbv zeta in Hz. rewrite Hz.
    unfold Rdiv. rewrite Rmult_0_l, sqrt_0, Rmult_0_l.
    apply Rmin_left. lra.
  - reflexivity.
Qed.

Lemma getMicrophoneVolume_range_witness :
  0 <= getMicrophoneVolume (Some [x80; xff; x00]) <= 1
  /\ getMicrophoneVolume (Some [x80; x80]) = 0.
Proof.
  split.
  - apply (getMicrophoneVolume_range [x80; xff; x00]). discriminate.
  - apply (getMicrophoneVolume_range [x80; x80]); [discriminate |].
    repeat constructor.
Defined.

Lemma Rpower_unit (x y : R) : 0 < x <= 1 -> 0 <= y -> 0 < Rpower x y <= 1.
Proof.
  intros [Hx0 Hx1] Hy. unfold Rpower. split; [apply exp_pos |].
  rewrite <- exp_0.
  destruct (Rle_lt_or_eq_dec _ _ Hx1) as [Hlt | Heq].
  - assert (Hln : ln x < 0) by (rewrite <- ln_1; now apply ln_increasing).
    assert (Hle : y * ln x <= 0) by nra.
    destruct Hle as [Hl | He].
    + left. now apply exp_increasing.
    + rewrite He. right. reflexivity.
  - subst x. rewrite ln_1, Rmult_0_r. right. reflexivity.
Qed.

Lemma impulseFrom_bound (len : nat) (decay : R) (draws : list (R * R)) :
  forall (i : nat) (lastL lastR : R),
    0 <= decay -> (i + length draws <= len)%nat ->
    -1 <= lastL <= 1 -> -1 <= lastR <= 1 ->
    Forall (fun u => 0 <= fst u < 1 /\ 0 <= snd u < 1) draws ->
    let r := impulseFrom len decay i lastL lastR draws in
    length (fst r) = length draws /\ length (snd r) = length draws
    /\ Forall (fun y => -0.05 <= y <= 0.05) (fst r)
    /\ Forall (fun y => -0.05 <= y <= 0.05) (snd r).
Proof.
  induction draws as [|[uL uR] rest IH];
    intros i lastL lastR Hd Hi HL HR Hu; simpl.
  - repeat split; constructor.
  - inversion Hu as [|? ? [HuL HuR] Hrest]; subst. simpl in HuL, HuR, Hi.
    assert (HrawL : -1 <= (uL * 2 - 1 + lastL) * 0.5 <= 1) by lra.
    assert (HrawR : -1 <= (uR * 2 - 1 + lastR) * 0.5 <= 1) by lra.
    specialize (IH (S i) _ _ Hd ltac:(lia) HrawL HrawR Hrest).
    simpl in IH.
    destruct (impulseFrom len decay (S i) ((uL * 2 - 1 + lastL) * 0.5)
                ((uR * 2 - 1 + lastR) * 0.5) rest) as [restL restR].
    simpl in *. destruct IH as (IH1 & IH2 & IH3 & IH4).
    assert (Hlen : (0 < len)%nat) by lia.
    assert (Hn : 0 < 1 - INR i / INR len <= 1).
    { assert (Hl : 0 < INR len) by (apply lt_0_INR; lia).
      assert (Hi0 : 0 <= INR i) by apply pos_INR.
      assert (Hil : INR i < INR len) by (apply lt_INR; lia).
      assert (Hq : 0 <= INR i / INR len < 1).
      { split.
        - apply Rmult_le_pos; [exact Hi0 |].
          left. now apply Rinv_0_lt_compat.
        - apply Rmult_lt_reg_r with (INR len); [exact Hl |].
          unfold Rdiv. rewrite Rmult_assoc, Rinv_l by lra. lra. }
      lra. }
    pose proof (Rpower_unit _ decay Hn Hd) as He.
    set (e := Rpower (1 - INR i / INR len) decay) in *.
    split; [now rewrite IH1 |]. split; [now rewrite IH2 |].
    split; constructor; try assumption; nra.
Qed.

(** X24.  For a non-negative decay and draws in [0, 1), the two channels
    of the generated impulse response have one sample per loop iteration
    and every sample lies within [-0.05, 0.05]. *)
Theorem generateImpulseResponse_bounded (decay : R)
    (draws : list (R * R)) :
  0 <= decay ->
  Forall (fun u => 0 <= fst u < 1 /\ 0 <= snd u < 1) draws ->
  let r := generateImpulseResponse decay draws in
  length (fst r) = length draws /\ length (snd r) = length draws
  /\ Forall (fun y => -0.05 <= y <= 0.05) (fst r)
  /\ Forall (fun y => -0.05 <= y <= 0.05) (snd r).
Proof.
  intros Hd Hu. unfold generateImpulseResponse.
  apply impulseFrom_bound; try assumption; try lra. simpl. lia.
Qed.

Lemma generateImpulseResponse_bounded_witness :
  Forall (fun y => -0.05 <= y <= 0.05)
    (fst (generateImpulseResponse 2.0 [(0.75, 0.25); (0, 0.5)])).
Proof.
  assert (Hd : 0 <= 2.0) by lra.
  assert (Hu : Forall (fun u : R * R => 0 <= fst u < 1 /\ 0 <= snd u < 1)
                 [(0.75, 0.25); (0, 0.5)]).
  { repeat (constructor; [simpl; lra |]). constructor. }
  exact (proj1 (proj2 (proj2
           (generateImpulseResponse_bounded 2.0 [(0.75, 0.25); (0, 0.5)]
              Hd Hu)))).
Defined.

End SignalLevels.

(** ** The noise simulator *)

Section SimulatorControl.
Import WebAudio NoiseSimulator.

Lemma filter_all {A} (f : A -> bool) (l : list A) :
  Forall (fun x => f x = true) l -> List.filter f l = l.
Proof.
  induction 1 as [|x l Hx _ IH]; simpl; [reflexivity |].
  now rewrite Hx, IH.
Qed.

Lemma filter_none {A} (f : A -> bool) (l : list A) :
  Forall (fun x => f x = false) l -> List.filter f l = [].
Proof.
  induction 1 as [|x l Hx _ IH]; simpl; [reflexivity |].
  now rewrite Hx, IH.
Qed.

Lemma before_events (p : AudioParam) (now : R) :
  Forall (fun x => eventTime x < now) (events (cancelScheduledValues p now)).
Proof.
  unfold cancelScheduledValues. simpl.
  induction (events p) as [|x l IH]; simpl; [constructor |].
  destruct (Rlt_dec (eventTime x) now); [constructor; assumption | exact IH].
Qed.

Lemma append_event (ev : AutomationEvent) (l : list AutomationEvent) :
  Forall (fun x => eventTime x <= eventTime ev) l ->
  insertEvent ev l = l ++ [ev].
Proof.
  induction 1 as [|x l Hx _ IH]; simpl; [reflexivity |].
  destruct (Rlt_dec (eventTime ev) (eventTime x)); [lra |].
  now rewrite IH.
Qed.

Lemma stop_master_events (s : t) (now : R) :
  events (masterGain (stop s now))
  = events (cancelScheduledValues (masterGain s) now)
    ++ [SetValue (value (masterGain s)) now; LinearRamp 0 (now + 0.1)].
Proof.
  pose proof (before_events (masterGain s) now) as Hb.
  unfold stop, linearRampToValueAtTime, setValueAtTime, schedule. simpl.
  rewrite (append_event (SetValue (value (masterGain s)) now)).
  - rewrite append_event.
    + now rewrite <- app_assoc.
    + apply Forall_app. split.
      * eapply Forall_impl; [exact Hb |]. simpl. intros x Hx. lra.
      * constructor; [simpl; lra | constructor].
  - eapply Forall_impl; [exact Hb |]. simpl. intros x Hx. lra.
Qed.

Lemma cancel_after_stop (s : t) (now : R) :
  events (cancelScheduledValues (masterGain (stop s now)) now)
  = events (cancelScheduledValues (masterGain s) now).
Proof.
  pose proof (before_events (masterGain s) now) as Hb.
  change (events (cancelScheduledValues (masterGain (stop s now)) now))
    with (List.filter
            (fun ev => if Rlt_dec (eventTime ev) now then true else false)
            (events (masterGain (stop s now)))).
  rewrite stop_master_events, List.filter_app.
  rewrite filter_all.
  - simpl.
    destruct (Rlt_dec now now); [lra |].
    destruct (Rlt_dec (now + 0.1) now); [lra |].
    now rewrite app_nil_r.
  - eapply Forall_impl; [exact Hb |]. simpl. intros x Hx.
    destruct (Rlt_dec (eventTime x) now); [reflexivity | contradiction].
Qed.

Lemma play_master (s : t) (type : string) (now : R) :
  masterGain (startSimulation s type now)
  = setValueAtTime (cancelScheduledValues (masterGain (stop s now)) now)
      0.5 now.
Proof.
  unfold startSimulation.
  destruct (String.eqb type "footsteps").
  { unfold playFootsteps, triggerFootstep. simpl.
    destruct (currentParams s) as [[p s0] r]. reflexivity. }
  destruct (String.eqb type "voices"); [reflexivity |].
  destruct (String.eqb type "traffic"); [reflexivity |].
  destruct (String.eqb type "tinnitus"); reflexivity.
Qed.

Lemma startSimulation_playing (s : t) (type : string) (now : R) :
  isPlaying (startSimulation s type now) = true
  /\ currentType (startSimulation s type now) = type.
Proof.
  unfold startSimulation.
  destruct (String.eqb type "footsteps").
  { unfold playFootsteps, triggerFootstep. simpl.
    destruct (currentParams s) as [[p s0] r]. split; reflexivity. }
  destruct (String.eqb type "voices"); [split; reflexivity |].
  destruct (String.eqb type "traffic"); [split; reflexivity |].
  destruct (String.eqb type "tinnitus"); split; reflexivity.
Qed.

(** X25.  Starting a simulation removes everything that was scheduled on
    the master gain for the current time or later, including the fade-out
    of the [stop] it performs first, and puts the gain at 0.5; the
    simulator is then playing the requested type.  For a type other than
    the four known ones it is marked as playing although no node was
    created. *)
Theorem startSimulation_resets_master (s : t) (type : string) (now : R) :
  let s' := startSimulation s type now in
  events (masterGain s')
  = events (cancelScheduledValues (masterGain s) now) ++ [SetValue 0.5 now]
  /\ pendingFrom (masterGain s') now = [SetValue 0.5 now]
  /\ isPlaying s' = true /\ currentType s' = type
  /\ (~ In type ["footsteps"; "voices"; "traffic"; "tinnitus"]%string ->
      released s' /\ footsteps s' = footsteps s).
Proof.
  pose proof (before_events (masterGain s) now) as Hb.
  assert (Hev : events (masterGain (startSimulation s type now))
                = events (cancelScheduledValues (masterGain s) now)
                  ++ [SetValue 0.5 now]).
  { rewrite play_master.
    change (events
              (setValueAtTime
                 (cancelScheduledValues (masterGain (stop s now)) now)
                 0.5 now))
      with (insertEvent (SetValue 0.5 now)
              (events (cancelScheduledValues (masterGain (stop s now)) now))).
    rewrite cancel_after_stop. apply append_event.
    eapply Forall_impl; [exact Hb |]. simpl. intros x Hx. lra. }
  split; [exact Hev |]. split; [| split; [| split]].
  - unfold pendingFrom. rewrite Hev, List.filter_app, filter_none.
    + simpl. destruct (Rlt_dec now now); [lra | reflexivity].
    + eapply Forall_impl; [exact Hb |]. simpl. intros x Hx.
      destruct (Rlt_dec (eventTime x) now); [reflexivity | contradiction].
  - apply startSimulation_playing.
  - apply startSimulation_playing.
  - intros Hn. unfold startSimulation.
    destruct (String.eqb type "footsteps") eqn:E1.
    { apply String.eqb_eq in E1. exfalso. apply Hn. subst. simpl. auto. }
    destruct (String.eqb type "voices") eqn:E2.
    { apply String.eqb_eq in E2. exfalso. apply Hn. subst. simpl. auto. }
    destruct (String.eqb type "traffic") eqn:E3.
    { apply String.eqb_eq in E3. exfalso. apply Hn. subst. simpl. auto. }
    destruct (String.eqb type "tinnitus") eqn:E4.
    { apply String.eqb_eq in E4. exfalso. apply Hn. subst. simpl. auto 6. }
    unfold released. simpl. repeat split; reflexivity.
Qed.

(** X26.  Stopping the simulator drops every node and the footstep
    interval, holds the master gain at its current value and ramps it to 0
    within 0.1 s, with nothing else scheduled from then on.  Afterwards
    slider updates and a late interval callback change nothing, and no
    footstep is added. *)
Theorem stop_releases_everything (s : t)
    (now pitch sharpness resonance later : R) :
  let s' := stop s now in
  released s' /\ isPlaying s' = false
  /\ pendingFrom (masterGain s') now
     = [SetValue (value (masterGain s)) now; LinearRamp 0 (now + 0.1)]
  /\ updateParams s' pitch sharpness resonance later = s'
  /\ intervalTick s' later = s'
  /\ footsteps s' = footsteps s.
Proof.
  pose proof (before_events (masterGain s) now) as Hb.
  split; [unfold released; simpl; repeat split; reflexivity |].
  split; [reflexivity |]. split; [| repeat split; reflexivity].
  unfold pendingFrom. rewrite stop_master_events, List.filter_app, filter_none.
  - simpl. destruct (Rlt_dec now now); [lra |].
    destruct (Rlt_dec (now + 0.1) now); [lra | reflexivity].
  - eapply Forall_impl; [exact Hb |]. simpl. intros x Hx.
    destruct (Rlt_dec (eventTime x) now); [reflexivity | contradiction].
Qed.

Lemma retarget_within (p : AudioParam) (x later lo hi : R) :
  Forall (fun ev => eventTime ev <= later) (events p) ->
  lo <= x <= hi ->
  targetWithin (setTargetAtTime p x later 0.1) lo hi.
Proof.
  intros Hp Hx. exists x. split; [| exact Hx].
  unfold AudioEngine.lastTarget, setTargetAtTime, schedule. simpl.
  rewrite (append_event (SetTarget x later 0.1) (events p) Hp).
  rewrite last_snoc. reflexivity.
Qed.

(** X27.  For sliders between 0 and 100, the update that follows the start
    of a simulation leaves every driven parameter with a last target in its
    intended range: voices filter 300 to 800 Hz with Q 0.5 to 4.5, its
    modulator 2 to 8 Hz with depth 100 to 400; traffic oscillator 40 to
    100 Hz, filter 400 to 2000 Hz, modulator 0.1 to 2 Hz; tinnitus tone
    4000 to 12000 Hz.  For footsteps the values are only stored, as
    fractions between 0 and 1. *)
Theorem updateParams_targets_in_range (s : t) (type : string)
    (pitch sharpness resonance now later : R) :
  0 <= pitch <= 100 -> 0 <= sharpness <= 100 -> 0 <= resonance <= 100 ->
  now <= later ->
  let s' :=
    updateParams (startSimulation s type now) pitch sharpness resonance
      later in
  (type = "voices"%string ->
   exists f l g,
     filter s' = Some f /\ lfo s' = Some l /\ lfoGain s' = Some g
     /\ targetWithin (filterFrequency f) 300 800
     /\ targetWithin (filterQ f) 0.5 4.5
     /\ targetWithin (oscFrequency l) 2 8
     /\ targetWithin g 100 400)
  /\ (type = "traffic"%string ->
      exists o f l,
        osc s' = Some o /\ filter s' = Some f /\ lfo s' = Some l
        /\ targetWithin (oscFrequency o) 40 100
        /\ targetWithin (filterFrequency f) 400 2000
        /\ targetWithin (oscFrequency l) 0.1 2)
  /\ (type = "tinnitus"%string ->
      exists o, osc s' = Some o /\ targetWithin (oscFrequency o) 4000 12000)
  /\ (type = "footsteps"%string ->
      footsteps s' = footsteps (startSimulation s type now)
      /\ exists p s0 r,
           currentParams s' = (p, s0, r)
           /\ 0 <= p <= 1 /\ 0 <= s0 <= 1 /\ 0 <= r <= 1).
Proof.
  intros Hp Hs Hr Hnow.
  split; [| split; [| split]]; intros Ht; subst type;
    unfold updateParams, startSimulation; simpl.
  - do 3 eexists. split; [reflexivity |]. split; [reflexivity |].
    split; [reflexivity |].
    cbn [filterFrequency filterQ oscFrequency].
    split; [| split; [| split]];
      (apply retarget_within;
       [simpl; constructor; [simpl; lra | constructor] | lra]).
  - do 3 eexists. split; [reflexivity |]. split; [reflexivity |].
    split; [reflexivity |].
    cbn [filterFrequency filterQ oscFrequency].
    split; [| split];
      (apply retarget_within;
       [simpl; constructor; [simpl; lra | constructor] | lra]).
  - eexists. split; [reflexivity |].
    cbn [oscFrequency].
    apply retarget_within; [simpl; constructor | lra].
  - unfold playFootsteps, triggerFootstep. simpl.
    destruct (currentParams s) as [[p0 s1] r0]. simpl.
    split; [reflexivity |].
    do 3 eexists. split; [reflexivity |]. lra.
Qed.

Lemma updateParams_targets_in_range_witness :
  exists o,
    osc (updateParams (startSimulation create "tinnitus" 0) 30 50 50 1)
    = Some o
    /\ targetWithin (oscFrequency o) 4000 12000.
Proof.
  assert (H1 : 0 <= 30 <= 100) by lra.
  assert (H2 : 0 <= 50 <= 100) by lra.
  assert (H3 : 0 <= 0 <= 1) by lra.
  assert (H4 : 0 <= 1) by lra.
  exact (proj1 (proj2 (proj2
           (updateParams_targets_in_range create "tinnitus" 30 50 50 0 1
              H1 H2 H2 H4)))
           eq_refl).
Defined.

End SimulatorControl.

(** ** The wizard's scenes *)

Section WizardScenes.
Import NoiseSimulator MeisterWizard.












End WizardScenes.

(** ** The sleep timer *)

Section SleepTimerFade.
Import SleepTimer.

Lemma Math_ceil_spec (x : R) : x <= IZR (Math_ceil x) < x + 1.
Proof.
  unfold Math_ceil. rewrite opp_IZR.
  destruct (base_Int_part (- x)) as [H1 H2]. lra.
Qed.

Lemma Math_ceil_range (x : R) (a b : Z) :
  IZR a - 1 < x -> x <= IZR b -> (a <= Math_ceil x <= b)%Z.
Proof.
  intros Ha Hb. destruct (Math_ceil_spec x) as [H1 H2]. split.
  - assert (H : (a - 1 < Math_ceil x)%Z).
    { apply lt_IZR. rewrite minus_IZR. lra. }
    lia.
  - assert (H : (Math_ceil x < b + 1)%Z).
    { apply lt_IZR. rewrite plus_IZR. lra. }
    lia.
Qed.

Lemma Math_ceil_mono (x y : R) : x <= y -> (Math_ceil x <= Math_ceil y)%Z.
Proof.
  intros Hxy. destruct (Math_ceil_spec x) as [_ H1].
  destruct (Math_ceil_spec y) as [H2 _].
  assert (H : (Math_ceil x < Math_ceil y + 1)%Z).
  { apply lt_IZR. rewrite plus_IZR. lra. }
  lia.
Qed.

Lemma engineVolume_set (s : t) (v : R) :
  engineVolume (engineSetVolume s v) = v.
Proof.
  unfold engineVolume, engineSetVolume, AutoMode.setVolume. simpl.
  destruct (AutoMode.engine (player s)) as
    [c b a r e cv dd dw det ini bv am ag atg rs rd asv adv]. simpl.
  destruct b, c; reflexivity.
Qed.

Lemma setVolume_isAutoMode (e : AudioEngine.t) (v : R) :
  AudioEngine.isAutoMode (AutoMode.setVolume e v) = AudioEngine.isAutoMode e.
Proof.
  unfold AutoMode.setVolume.
  destruct e as [c b a r eqf cv dd dw det ini bv am ag atg rs rd asv adv].
  simpl. destruct b, c; reflexivity.
Qed.

Lemma stopButton_volume (s : t) :
  engineVolume (stopButton s) = engineVolume s
  /\ AudioEngine.isAutoMode (AutoMode.engine (player (stopButton s))) = false
  /\ AutoMode.micStream (player (stopButton s)) = false.
Proof.
  unfold engineVolume, stopButton, clearTimer, AutoMode.suspend. simpl.
  destruct (player s) as [e mic loop]. simpl.
  destruct e as
    [c b a r eqf cv dd dw det ini bv am ag atg rs rd asv adv]. simpl.
  destruct c; simpl; unfold AutoMode.releaseGains; simpl;
    destruct a, r; simpl; repeat split; reflexivity.
Qed.

Lemma in_last_minute (s : t) (endTime dateNow : R) :
  timerEndTime s = Some endTime -> endTime <> 0 -> timerFadeout s = true ->
  0 < endTime - dateNow <= 60000 ->
  updateTimerDisplay s dateNow
  = engineSetVolume s
      (originalVolume s
       * (IZR (Math_ceil ((endTime - dateNow) / 1000)) / 60))
  /\ (1 <= Math_ceil ((endTime - dateNow) / 1000) <= 60)%Z.
Proof.
  intros He Hz Hf Hrem.
  assert (Hk : (1 <= Math_ceil ((endTime - dateNow) / 1000) <= 60)%Z).
  { apply Math_ceil_range; simpl; lra. }
  split; [| exact Hk].
  unfold updateTimerDisplay. rewrite He.
  unfold Js.is_zero. destruct (Req_dec_T endTime 0); [contradiction |].
  destruct (Rle_dec (endTime - dateNow) 0); [lra |].
  rewrite Hf. simpl.
  destruct (Math_ceil ((endTime - dateNow) / 1000) <=? 60)%Z eqn:E;
    [reflexivity |].
  apply Z.leb_gt in E. lia.
Qed.

(** X29.  With the fade-out option on, a display update during the last
    minute of a running timer sets the engine volume to the saved volume
    times k/60, where k is the number of seconds left rounded up to a whole
    number, [Math.ceil(remaining / 1000)]: the least integer that is not
    below the milliseconds left divided by 1000, hence between 1 and 60.
    The volume stays between 0 and the saved volume, is not 0 as long as
    the saved volume is not, never rises from one update to a later one,
    and the timer keeps running.  Earlier than that, an update changes
    nothing. *)
Theorem timer_fade_scales_volume (s : t) (endTime dateNow : R) :
  timerEndTime s = Some endTime -> endTime <> 0 -> timerFadeout s = true ->
  0 <= originalVolume s ->
  let s' := updateTimerDisplay s dateNow in
  let k := Math_ceil ((endTime - dateNow) / 1000) in
  (0 < endTime - dateNow <= 60000 ->
   s' = engineSetVolume s (originalVolume s * (IZR k / 60))
   /\ engineVolume s' = originalVolume s * (IZR k / 60)
   /\ (endTime - dateNow) / 1000 <= IZR k < (endTime - dateNow) / 1000 + 1
   /\ (forall j : Z, (endTime - dateNow) / 1000 <= IZR j -> (k <= j)%Z)
   /\ (1 <= k <= 60)%Z
   /\ 0 <= engineVolume s' <= originalVolume s
   /\ (0 < originalVolume s -> 0 < engineVolume s')
   /\ timerEndTime s' = Some endTime
   /\ originalVolume s' = originalVolume s
   /\ (forall dateNow',
         dateNow <= dateNow' -> 0 < endTime - dateNow' ->
         engineVolume (updateTimerDisplay s dateNow') <= engineVolume s'))
  /\ (60000 < endTime - dateNow -> s' = s).
Proof.
  intros He Hz Hf Hv. split.
  - intros Hrem.
    destruct (in_last_minute s endTime dateNow He Hz Hf Hrem) as [Hup Hk].
    simpl. rewrite Hup. rewrite engineVolume_set.
    pose proof (Math_ceil_spec ((endTime - dateNow) / 1000)) as Hceil.
    set (k := Math_ceil ((endTime - dateNow) / 1000)) in *.
    assert (Hk1 : 1 <= IZR k <= 60).
    { split; [apply (IZR_le 1) | apply (IZR_le k 60)]; lia. }
    split; [reflexivity |]. split; [reflexivity |].
    split; [exact Hceil |].
    split.
    { intros j Hj.
      assert (Hlt : (k < j + 1)%Z) by (apply lt_IZR; rewrite plus_IZR; lra).
      lia. }
    split; [exact Hk |].
    split; [split; nra |].
    split; [intros Hpos; nra |].
    split; [exact He |]. split; [reflexivity |].
    intros dateNow' Hle Hpos.
    assert (Hrem' : 0 < endTime - dateNow' <= 60000) by lra.
    destruct (in_last_minute s endTime dateNow' He Hz Hf Hrem') as [Hup' Hk'].
    rewrite Hup', engineVolume_set.
    assert (Hm : (Math_ceil ((endTime - dateNow') / 1000) <= k)%Z).
    { apply Math_ceil_mono. lra. }
    apply IZR_le in Hm.
    set (k' := Math_ceil ((endTime - dateNow') / 1000)) in *.
    assert (Hk1' : 1 <= IZR k').
    { apply (IZR_le 1). lia. }
    nra.
  - intros Hrem. simpl. unfold updateTimerDisplay. rewrite He.
    unfold Js.is_zero. destruct (Req_dec_T endTime 0); [contradiction |].
    destruct (Rle_dec (endTime - dateNow) 0); [lra |].
    rewrite Hf. simpl.
    destruct (Math_ceil ((endTime - dateNow) / 1000) <=? 60)%Z eqn:E;
      [| reflexivity].
    apply Z.leb_le in E. apply IZR_le in E.
    destruct (Math_ceil_spec ((endTime - dateNow) / 1000)) as [H1 _]. lra.
Qed.

Lemma timer_fade_scales_volume_witness :
  let s :=
    mk (AutoMode.mk Scenarios.readyEngine false false) (Some 100000) true 0.8
       true false in
  engineVolume (updateTimerDisplay s 70000) = 0.8 * (30 / 60)
  /\ 0 <= engineVolume (updateTimerDisplay s 70000) <= 0.8.
Proof.
  assert (Hz : 100000 <> 0) by lra.
  assert (Hv : 0 <= 0.8) by lra.
  assert (Hr : 0 < 100000 - 70000 <= 60000) by lra.
  destruct (timer_fade_scales_volume
              (mk (AutoMode.mk Scenarios.readyEngine false false)
                  (Some 100000) true 0.8 true false)
              100000 70000 eq_refl Hz eq_refl Hv) as [H _].
  destruct (H Hr) as (_ & Hvol & Hceil & _ & _ & Hb & _).
  split; [| exact Hb].
  assert (Hk : Math_ceil ((100000 - 70000) / 1000) = 30%Z).
  { assert (H1 : (29 < Math_ceil ((100000 - 70000) / 1000))%Z)
      by (apply lt_IZR; lra).
    assert (H2 : (Math_ceil ((100000 - 70000) / 1000) < 31)%Z)
      by (apply lt_IZR; lra).
    lia. }
  rewrite Hvol, Hk. reflexivity.
Defined.

(** X30.  When a display update finds the end time reached, the timer is
    cleared so that further updates do nothing and the engine volume is put
    back to the saved volume; if the stop button is enabled at that moment
    its handlers run as well (auto mode off, microphone given up).  The
    cancel button restores the saved volume too.  The stop button on its
    own clears the timer but leaves the engine volume where the fade had
    brought it, and a timer request of zero or fewer minutes only clears a
    running timer. *)
Theorem timer_end_restores_volume (s : t) (endTime dateNow later : R) :
  timerEndTime s = Some endTime -> endTime <> 0 -> endTime - dateNow <= 0 ->
  let s' := updateTimerDisplay s dateNow in
  engineVolume s' = originalVolume s
  /\ timerEndTime s' = None /\ timerIntervalId s' = false
  /\ (stopDisabled s = false ->
      AudioEngine.isAutoMode (AutoMode.engine (player s')) = false
      /\ AutoMode.micStream (player s') = false
      /\ stopDisabled s' = true)
  /\ updateTimerDisplay s' later = s'
  /\ engineVolume (cancelButton s) = originalVolume s
  /\ engineVolume (stopButton s) = engineVolume s
  /\ timerEndTime (stopButton s) = None
  /\ (forall minutes sliderValue t1 t2,
        minutes <= 0 ->
        setTimer s minutes sliderValue t1 t2 = clearTimer s).
Proof.
  intros He Hz Hrem.
  assert (Hup : updateTimerDisplay s dateNow = handleTimerEnd s).
  { unfold updateTimerDisplay. rewrite He.
    unfold Js.is_zero. destruct (Req_dec_T endTime 0); [contradiction |].
    destruct (Rle_dec (endTime - dateNow) 0); [reflexivity | lra]. }
  simpl. rewrite Hup.
  destruct (stopButton_volume s) as (Hsv & Ham & Hmic).
  assert (Horig : originalVolume (stopClick s) = originalVolume s).
  { unfold stopClick. destruct (stopDisabled s); reflexivity. }
  split.
  { unfold handleTimerEnd. rewrite engineVolume_set. simpl. exact Horig. }
  split; [reflexivity |]. split; [reflexivity |].
  split.
  { intros Hen. unfold handleTimerEnd, stopClick. rewrite Hen.
    unfold engineSetVolume, with_player, clearTimer.
    cbn [player AutoMode.engine AutoMode.micStream stopDisabled].
    rewrite setVolume_isAutoMode.
    split; [exact Ham |]. split; [exact Hmic | reflexivity]. }
  split; [reflexivity |].
  split; [unfold cancelButton; now rewrite engineVolume_set |].
  split; [exact Hsv |]. split; [reflexivity |].
  intros minutes sliderValue t1 t2 Hm. unfold setTimer.
  destruct (Rle_dec minutes 0); [reflexivity | contradiction].
Qed.

Lemma timer_end_restores_volume_witness :
  let s :=
    mk (AutoMode.mk Scenarios.readyEngine false false) (Some 100000) true 0.8
       true false in
  engineVolume (updateTimerDisplay s 100000) = 0.8.
Proof.
  assert (Hz : 100000 <> 0) by lra.
  assert (Hr : 100000 - 100000 <= 0) by lra.
  exact (proj1 (timer_end_restores_volume
                  (mk (AutoMode.mk Scenarios.readyEngine false false)
                      (Some 100000) true 0.8 true false)
                  100000 100000 0 eq_refl Hz Hr)).
Defined.

End SleepTimerFade.
